(** * dynamic-terminal: the change algorithm, the render thread and the
      command channel, embedded from [src/ChangeAlgorithm.ts],
      [src/DynamicTerminal.ts] and [src/DynamicTerminalThread.ts].

    JavaScript strings are modelled as lists of code units ([list ascii],
    code units below 256); positions that JavaScript may report as [-1]
    are integers ([Z]); loop counters and lengths are naturals. *)

From Stdlib Require Import ZArith List Ascii String DecimalString Lia Bool.
From stdpp Require Import base option list sorting gmap strings.

Local Open Scope list_scope.
Local Open Scope Z_scope.

Abbreviation jstring := (list ascii).

(** A string literal as a list of code units. *)
Definition str (s : string) : jstring := list_ascii_of_string s.

(** ** JavaScript string and array primitives used by the sources *)
Module Js.

Definition len (s : jstring) : Z := Z.of_nat (length s).

(** [String(undefined)], what [text += undefined] would append. *)
Definition undefinedStr : jstring := str "undefined".

Definition toStr (o : option jstring) : jstring := default undefinedStr o.

(** [s[i]] used in a concatenation. *)
Definition charStr (s : jstring) (i : nat) : jstring :=
  match s !! i with
  | Some c => [c]
  | None => undefinedStr
  end.

(** Truthiness of a possibly undefined string: defined and not empty. *)
Definition truthy (o : option jstring) : bool :=
  match o with
  | Some (_ :: _) => true
  | _ => false
  end.

(** Relative index of [slice]: negative counts from the end. *)
Definition relIndex (n k : Z) : Z :=
  if k <? 0 then Z.max (n + k) 0 else Z.min k n.

(** [s.slice(from, to)]. *)
Definition slice (s : jstring) (from to : Z) : jstring :=
  let n := len s in
  let a := relIndex n from in
  let b := relIndex n to in
  take (Z.to_nat (b - a)) (drop (Z.to_nat a) s).

(** [s.slice(from)]. *)
Definition sliceFrom (s : jstring) (from : Z) : jstring :=
  slice s from (len s).

(** [s.substring(a, b)]: both ends clamped to [0, length], swapped when
    out of order. *)
Definition substring (s : jstring) (a b : Z) : jstring :=
  let n := len s in
  let a' := Z.min (Z.max a 0) n in
  let b' := Z.min (Z.max b 0) n in
  let lo := Z.min a' b' in
  let hi := Z.max a' b' in
  take (Z.to_nat (hi - lo)) (drop (Z.to_nat lo) s).

Fixpoint startsWith (pat s : jstring) : bool :=
  match pat, s with
  | [], _ => true
  | _ :: _, [] => false
  | a :: pat', b :: s' => bool_decide (a = b) && startsWith pat' s'
  end.

Fixpoint indexOfFrom (pat s : jstring) (i : nat) : Z :=
  if startsWith pat s then Z.of_nat i
  else match s with
       | [] => -1
       | _ :: s' => indexOfFrom pat s' (S i)
       end.

(** [s.indexOf(pat)]: first position of [pat] in [s], [-1] when absent. *)
Definition indexOf (s pat : jstring) : Z := indexOfFrom pat s 0.

Fixpoint arrayIndexOfFrom (x : Z) (l : list Z) (i : nat) : Z :=
  match l with
  | [] => -1
  | y :: l' => if bool_decide (y = x) then Z.of_nat i
               else arrayIndexOfFrom x l' (S i)
  end.

(** [array.indexOf(x)] on an array of numbers. *)
Definition arrayIndexOf (l : list Z) (x : Z) : Z := arrayIndexOfFrom x l 0.

(** White space and line terminators removed by [trim], among the code
    units below 256: TAB, LF, VT, FF, CR, SPACE and NBSP. *)
Definition isWhiteSpace (c : ascii) : bool :=
  let n := nat_of_ascii c in
  ((9 <=? n) && (n <=? 13))%nat || (n =? 32)%nat || (n =? 160)%nat.

Fixpoint trimStart (s : jstring) : jstring :=
  match s with
  | [] => []
  | c :: s' => if isWhiteSpace c then trimStart s' else s
  end.

(** [s.trim()]. *)
Definition trim (s : jstring) : jstring :=
  rev (trimStart (rev (trimStart s))).

Definition isEmpty (s : jstring) : bool :=
  match s with
  | [] => true
  | _ => false
  end.

(** [s.split("\n")]: never empty, one more piece than line feeds. *)
Fixpoint splitLines (s : jstring) : list jstring :=
  match s with
  | [] => [[]]
  | c :: s' =>
      if bool_decide (c = "010"%char) then [] :: splitLines s'
      else match splitLines s' with
           | [] => [[c]]
           | l :: ls => (c :: l) :: ls
           end
  end.

End Js.

(** ** Escape sequences: the pattern of the ansi-regex package

    [ansiRegex()] is the global regular expression [pattern] below
    (ansi-regex 4.1.0, the version strip-ansi 5.2.0 loads too).  The
    functions follow the backtracking order of a JavaScript engine on that
    pattern: a greedy quantifier first tries one more repetition and falls
    back to what follows it; the first alternative is tried before the
    second. *)
Module Ansi.

Definition pattern : string :=
  "[\u001B\u009B][[\]()#;?]*(?:(?:(?:[a-zA-Z\d]*(?:;[-a-zA-Z\d\/#&.:=?%@~_]*)*)?\u0007)|(?:(?:\d{1,4}(?:;\d{0,4})*)?[\dA-PR-TZcf-ntqry=><~]))".

Definition ESC : ascii := "027"%char.
Definition CSI : ascii := ascii_of_nat 155.
Definition BEL : ascii := "007"%char.

Definition between (lo hi : string) (c : ascii) : bool :=
  match lo, hi with
  | String a _, String b _ =>
      ((nat_of_ascii a <=? nat_of_ascii c) && (nat_of_ascii c <=? nat_of_ascii b))%nat
  | _, _ => false
  end.

Definition oneOf (set : string) (c : ascii) : bool :=
  existsb (fun d => bool_decide (c = d)) (str set).

Definition isDigit (c : ascii) : bool := between "0" "9" c.

(** The class [a-zA-Z\d]. *)
Definition isAlnum (c : ascii) : bool :=
  between "a" "z" c || between "A" "Z" c || isDigit c.

(** The class [-a-zA-Z\d\/#&.:=?%@~_]. *)
Definition isLinkChar (c : ascii) : bool :=
  isAlnum c || oneOf "-/#&.:=?%@~_" c.

(** The class of the introducer bytes: the brackets, parentheses, #, ; and ?. *)
Definition isIntro (c : ascii) : bool := oneOf "[]()#;?" c.

(** The class [\dA-PR-TZcf-ntqry=><~] of the final byte. *)
Definition isFinal (c : ascii) : bool :=
  isDigit c || between "A" "P" c || between "R" "T" c || between "f" "n" c
  || oneOf "Zctqry=><~" c.

Definition orElse (a b : option nat) : option nat :=
  match a with
  | Some n => Some n
  | None => b
  end.

(** First alternative: letters and digits, then groups that start with
    a semicolon, then BEL.  [inLink] tells whether a semicolon was
    already read.  The result is the number of code units matched. *)
Fixpoint belTerminated (inLink : bool) (r : jstring) : option nat :=
  match r with
  | [] => None
  | c :: r' =>
      orElse (if (if inLink then isLinkChar c else isAlnum c)
              then S <$> belTerminated inLink r' else None)
     (orElse (if bool_decide (c = ";"%char)
              then S <$> belTerminated true r' else None)
             (if bool_decide (c = BEL) then Some 1%nat else None))
  end.

(** Second alternative, after its first digit: the rest of the
    parameters (one to four digits, then groups of a semicolon and up to
    four digits) and the final byte; [d] is the number of digits the
    current parameter may still take. *)
Fixpoint paramsThenFinal (d : nat) (r : jstring) : option nat :=
  match r with
  | [] => None
  | c :: r' =>
      orElse (match d with
              | S d' => if isDigit c then S <$> paramsThenFinal d' r' else None
              | O => None
              end)
     (orElse (if bool_decide (c = ";"%char)
              then S <$> paramsThenFinal 4 r' else None)
             (if isFinal c then Some 1%nat else None))
  end.

(** Second alternative: optional parameters, then the final byte. *)
Definition csiSequence (r : jstring) : option nat :=
  match r with
  | [] => None
  | c :: r' =>
      orElse (if isDigit c then S <$> paramsThenFinal 3 r' else None)
             (if isFinal c then Some 1%nat else None)
  end.

(** The introducer bytes, as many as possible, then the two
    alternatives. *)
Fixpoint afterIntroducer (r : jstring) : option nat :=
  orElse (match r with
          | c :: r' => if isIntro c then S <$> afterIntroducer r' else None
          | [] => None
          end)
         (orElse (belTerminated false r) (csiSequence r)).

(** Length of the match of the pattern at the start of [s], if any. *)
Definition matchAt (s : jstring) : option nat :=
  match s with
  | c :: r =>
      if bool_decide (c = ESC) || bool_decide (c = CSI)
      then S <$> afterIntroducer r else None
  | [] => None
  end.

Inductive Token :=
| Code (code : jstring)
| Chr (c : ascii).

(** The scan of a global regular expression: at each position either a
    match (the scan resumes after it) or one unmatched code unit.
    [skip] counts the code units left in the match being skipped. *)
Fixpoint scan (skip : nat) (s : jstring) : list Token :=
  match s with
  | [] => []
  | c :: r =>
      match skip with
      | S k => scan k r
      | O =>
          match matchAt s with
          | Some (S n) => Code (take (S n) s) :: scan n r
          | _ => Chr c :: scan O r
          end
      end
  end.

Definition tokens (s : jstring) : list Token := scan O s.

Definition codeOf (t : Token) : option jstring :=
  match t with
  | Code c => Some c
  | Chr _ => None
  end.

Definition charOf (t : Token) : option ascii :=
  match t with
  | Code _ => None
  | Chr c => Some c
  end.

(** [s.match(ansiRegex()) || []] *)
Definition ansiCodes (s : jstring) : list jstring := omap codeOf (tokens s).

(** [stripAnsi(s)]: the string without the matches of the pattern. *)
Definition stripAnsi (s : jstring) : jstring := omap charOf (tokens s).

(** Constants of the ansi-escapes package. *)
Definition eraseEndLine : jstring := ESC :: str "[K".
Definition eraseDown : jstring := ESC :: str "[J".
Definition cursorHide : jstring := ESC :: str "[?25l".
Definition cursorShow : jstring := ESC :: str "[?25h".

End Ansi.

(** ** DynamicTerminalThread.ts: the change record *)

Record IChange := mkChange {
  line : nat;
  index : nat;
  text : jstring
}.

(** ** ChangeAlgorithm.ts *)
Module ChangeAlgorithm.

Definition ERASE_LINE_END : jstring := Ansi.eraseEndLine.
Definition RESET_STYLE : jstring := Ansi.ESC :: str "[39;49m".

(** The three variables built by one of the [forEach] loops: the string
    being stripped, the positions that carry a code, in order of first
    appearance, and the codes of each position. *)
Record CodeIndex := mkCodeIndex {
  stripped : jstring;
  codeArray : list Z;
  codeMap : gmap Z jstring
}.

(** Body of [originalANSICodes.forEach] / [targetANSICodes.forEach]. *)
Definition recordCode (st : CodeIndex) (code : jstring) : CodeIndex :=
  let position := Js.indexOf (stripped st) code in
  {| stripped :=
       Js.slice (stripped st) 0 position
       ++ Js.sliceFrom (stripped st) (position + Js.len code);
     codeArray :=
       if bool_decide (Js.arrayIndexOf (codeArray st) position = -1)
       then codeArray st ++ [position] else codeArray st;
     codeMap :=
       if Js.truthy (codeMap st !! position)
       then <[position := Js.toStr (codeMap st !! position) ++ code]> (codeMap st)
       else <[position := code]> (codeMap st) |}.

Definition indexCodes (s : jstring) : CodeIndex :=
  fold_left recordCode (Ansi.ansiCodes s)
            {| stripped := s; codeArray := []; codeMap := ∅ |}.

(** The loop over [k] that looks for the code to prepend: positions are
    visited in array order, the loop stops at the first one beyond [i];
    the extra round [k = length] reads [undefined] and does nothing. *)
Fixpoint codeToPrepend (arr : list Z) (m : gmap Z jstring) (i : Z)
    (found : option jstring) : option jstring :=
  match arr with
  | [] => found
  | codePosition :: arr' =>
      if codePosition >? i then found
      else codeToPrepend arr' m i (m !! codePosition)
  end.

(** The [for ... of] loop that closes a change: the text up to the first
    position of [targetCodeArray] that is at least [i], and its codes. *)
Fixpoint closingText (arr : list Z) (m : gmap Z jstring) (t : jstring)
    (i : Z) : jstring :=
  match arr with
  | [] => []
  | codePosition :: arr' =>
      if codePosition >=? i
      then Js.substring t i codePosition ++ Js.toStr (m !! codePosition)
      else closingText arr' m t i
  end.

(** The test before [changes.push]: the stripped and trimmed text of the
      change is not the empty string. *)
Definition useful (c : IChange) : bool :=
  negb (Js.isEmpty (Js.trim (Ansi.stripAnsi (text c)))).

Definition pushIfUseful (changes : list IChange) (c : IChange) : list IChange :=
  if useful c then changes ++ [c] else changes.

Definition addText (c : IChange) (s : jstring) : IChange :=
  {| line := line c; index := index c; text := text c ++ s |}.

(** [if (targetCodeArray.indexOf(i) !== -1) text += targetCodeMap[i];
    text += strippedTarget[i]] *)
Definition extend (tgt : CodeIndex) (c : IChange) (i : nat) : IChange :=
  let c1 :=
    if bool_decide (Js.arrayIndexOf (codeArray tgt) (Z.of_nat i) <> -1)
    then addText c (Js.toStr (codeMap tgt !! Z.of_nat i)) else c in
  addText c1 (Js.charStr (stripped tgt) i).

(** A new change at column [i]. *)
Definition openChange (tgt : CodeIndex) (ln i : nat) : IChange :=
  let found := codeToPrepend (codeArray tgt) (codeMap tgt) (Z.of_nat i) None in
  {| line := ln; index := i;
     text := (if Js.truthy found then Js.toStr found else RESET_STYLE)
             ++ Js.charStr (stripped tgt) i |}.

(** A column needs a change when its character or its preceding codes
    differ. *)
Definition divergent (org tgt : CodeIndex) (i : nat) : bool :=
  bool_decide (stripped tgt !! i <> stripped org !! i)
  || bool_decide (codeMap org !! Z.of_nat i <> codeMap tgt !! Z.of_nat i).

(** [strippedTarget[i + 1] && strippedTarget[i + 1] !== strippedOriginal[i + 1]] *)
Definition nextDiffers (org tgt : CodeIndex) (i : nat) : bool :=
  match stripped tgt !! S i with
  | Some c => bool_decide (Some c <> stripped org !! S i)
  | None => false
  end.

(** One round of the scan loop; the state is [changes] and
    [changeBuffer]. *)
Definition scanStep (org tgt : CodeIndex) (ln : nat)
    (st : list IChange * option IChange) (i : nat)
    : list IChange * option IChange :=
  let '(changes, changeBuffer) := st in
  if divergent org tgt i then
    match changeBuffer with
    | Some c => (changes, Some (extend tgt c i))
    | None => (changes, Some (openChange tgt ln i))
    end
  else
    match changeBuffer with
    | Some c =>
        if nextDiffers org tgt i then (changes, Some (extend tgt c i))
        else
          let c' := addText c (closingText (codeArray tgt) (codeMap tgt)
                                           (stripped tgt) (Z.of_nat i)) in
          (pushIfUseful changes c', None)
    | None => (changes, None)
    end.

(** After the loop: an open change is closed with the codes at the end. *)
Definition closeAtEnd (tgt : CodeIndex) (st : list IChange * option IChange)
    : list IChange :=
  let '(changes, changeBuffer) := st in
  match changeBuffer with
  | Some c =>
      let n := Js.len (stripped tgt) in
      let c' := if bool_decide (Js.arrayIndexOf (codeArray tgt) n <> -1)
                then addText c (Js.toStr (codeMap tgt !! n)) else c in
      pushIfUseful changes c'
  | None => changes
  end.

(** [changes[changes.length - 1].text += s], or a change of its own. *)
Definition appendToLast (changes : list IChange) (s : jstring)
    (fresh : IChange) : list IChange :=
  match rev changes with
  | [] => [fresh]
  | c :: before => rev before ++ [addText c s]
  end.

(** If the target is shorter, the rest of the line is erased. *)
Definition eraseIfShorter (org tgt : CodeIndex) (ln : nat)
    (changes : list IChange) : list IChange :=
  if (length (stripped tgt) <? length (stripped org))%nat
  then appendToLast changes ERASE_LINE_END
         {| line := ln; index := length (stripped tgt); text := ERASE_LINE_END |}
  else changes.

(** [ChangeAlgorithm.getChanges(original, target, line)] *)
Definition getChanges (original target : jstring) (ln : nat) : list IChange :=
  if bool_decide (original = target) then []
  else if Js.isEmpty original then [{| text := target; index := 0; line := ln |}]
  else if Js.isEmpty target then [{| text := ERASE_LINE_END; index := 0; line := ln |}]
  else
    let org := indexCodes original in
    let tgt := indexCodes target in
    let st := fold_left (scanStep org tgt ln)
                        (seq 0 (length (stripped tgt))) ([], None) in
    eraseIfShorter org tgt ln (closeAtEnd tgt st).

End ChangeAlgorithm.

(** ** DynamicTerminalThread.ts *)
Module DynamicTerminalThread.

(** A line of the render queue.  [indent] absent reads as [0]
    ([line.indent || 0]) and [force] absent as [false]
    ([line.force === true]). *)
Record ILine := mkLine {
  ltext : jstring;
  indent : nat;
  force : bool
}.

(** A line as a caller may send it: every field is optional. *)
Record LineInput := mkLineInput {
  in_text : option jstring;
  in_indent : option nat;
  in_force : option bool
}.

Inductive Element :=
| EString (s : jstring)
| ELine (l : LineInput).

(** [string | ILine | string[] | ILine[]] *)
Inductive Content :=
| CString (s : jstring)
| CLine (l : LineInput)
| CArray (l : list Element).

Record IOptions := mkOptions {
  disableInput : option bool;
  hideCursor : option bool;
  spinnerColour : option (jstring -> jstring);
  opt_updateFrequency : option nat;
  opt_repaintOnResize : option bool
}.

Definition noOptions : IOptions := mkOptions None None None None None.

Record Size := mkSize { width : nat; height : nat }.

Definition SPINNER : jstring := str "_*_".

(** The thread object, together with the parts of the process it acts
    on: what was written to stdout, stdin, and the size the terminal
    reports.  [stdinRaw] is [process.stdin.isRaw]: the raw mode of a
    terminal, and undefined ([None]) when stdin is not a terminal, which
    then has no [setRawMode] either.  [wasRaw] is null ([None]) or the
    value of [isRaw] that [start] has read. *)
Record Thread := mkThread {
  active : bool;
  wasRaw : option (option bool);
  cursorHidden : bool;
  previousSpinner : jstring;
  spinnerPhase : nat;
  nextSpinner : jstring;
  updateFrequency : nat;
  spinnerColor : jstring -> jstring;
  repaintOnResize : bool;
  previousSize : Size;
  previousRender : list ILine;
  nextRender : list ILine;
  renderInterval : bool;
  cursorLine : nat;
  cursorIndex : nat;
  stdout : list jstring;
  stdinRaw : option bool;
  terminalSize : Size
}.

Definition setCursor (t : Thread) (l i : nat) : Thread :=
  mkThread (active t) (wasRaw t) (cursorHidden t) (previousSpinner t)
    (spinnerPhase t) (nextSpinner t) (updateFrequency t) (spinnerColor t)
    (repaintOnResize t) (previousSize t) (previousRender t) (nextRender t)
    (renderInterval t) l i (stdout t) (stdinRaw t) (terminalSize t).

Definition setStdout (t : Thread) (o : list jstring) : Thread :=
  mkThread (active t) (wasRaw t) (cursorHidden t) (previousSpinner t)
    (spinnerPhase t) (nextSpinner t) (updateFrequency t) (spinnerColor t)
    (repaintOnResize t) (previousSize t) (previousRender t) (nextRender t)
    (renderInterval t) (cursorLine t) (cursorIndex t) o (stdinRaw t)
    (terminalSize t).

Definition setNextRender (t : Thread) (q : list ILine) : Thread :=
  mkThread (active t) (wasRaw t) (cursorHidden t) (previousSpinner t)
    (spinnerPhase t) (nextSpinner t) (updateFrequency t) (spinnerColor t)
    (repaintOnResize t) (previousSize t) (previousRender t) q
    (renderInterval t) (cursorLine t) (cursorIndex t) (stdout t) (stdinRaw t)
    (terminalSize t).

Definition setPreviousRender (t : Thread) (q : list ILine) : Thread :=
  mkThread (active t) (wasRaw t) (cursorHidden t) (previousSpinner t)
    (spinnerPhase t) (nextSpinner t) (updateFrequency t) (spinnerColor t)
    (repaintOnResize t) (previousSize t) q (nextRender t)
    (renderInterval t) (cursorLine t) (cursorIndex t) (stdout t) (stdinRaw t)
    (terminalSize t).

Definition setActive (t : Thread) (a : bool) : Thread :=
  mkThread a (wasRaw t) (cursorHidden t) (previousSpinner t)
    (spinnerPhase t) (nextSpinner t) (updateFrequency t) (spinnerColor t)
    (repaintOnResize t) (previousSize t) (previousRender t) (nextRender t)
    (renderInterval t) (cursorLine t) (cursorIndex t) (stdout t) (stdinRaw t)
    (terminalSize t).

Definition setRenderInterval (t : Thread) (r : bool) : Thread :=
  mkThread (active t) (wasRaw t) (cursorHidden t) (previousSpinner t)
    (spinnerPhase t) (nextSpinner t) (updateFrequency t) (spinnerColor t)
    (repaintOnResize t) (previousSize t) (previousRender t) (nextRender t)
    r (cursorLine t) (cursorIndex t) (stdout t) (stdinRaw t)
    (terminalSize t).

Definition setPreviousSize (t : Thread) (s : Size) : Thread :=
  mkThread (active t) (wasRaw t) (cursorHidden t) (previousSpinner t)
    (spinnerPhase t) (nextSpinner t) (updateFrequency t) (spinnerColor t)
    (repaintOnResize t) s (previousRender t) (nextRender t)
    (renderInterval t) (cursorLine t) (cursorIndex t) (stdout t) (stdinRaw t)
    (terminalSize t).

Definition setPreviousSpinner (t : Thread) (s : jstring) : Thread :=
  mkThread (active t) (wasRaw t) (cursorHidden t) s
    (spinnerPhase t) (nextSpinner t) (updateFrequency t) (spinnerColor t)
    (repaintOnResize t) (previousSize t) (previousRender t) (nextRender t)
    (renderInterval t) (cursorLine t) (cursorIndex t) (stdout t) (stdinRaw t)
    (terminalSize t).

Definition setWasRaw (t : Thread) (r : option (option bool)) : Thread :=
  mkThread (active t) r (cursorHidden t) (previousSpinner t)
    (spinnerPhase t) (nextSpinner t) (updateFrequency t) (spinnerColor t)
    (repaintOnResize t) (previousSize t) (previousRender t) (nextRender t)
    (renderInterval t) (cursorLine t) (cursorIndex t) (stdout t) (stdinRaw t)
    (terminalSize t).

(** The same thread in a process with another stdin. *)
Definition setStdin (t : Thread) (isRaw : option bool) : Thread :=
  mkThread (active t) (wasRaw t) (cursorHidden t) (previousSpinner t)
    (spinnerPhase t) (nextSpinner t) (updateFrequency t) (spinnerColor t)
    (repaintOnResize t) (previousSize t) (previousRender t) (nextRender t)
    (renderInterval t) (cursorLine t) (cursorIndex t) (stdout t) isRaw
    (terminalSize t).

Definition setStdinRaw (t : Thread) (r : bool) : Thread :=
  setStdin t (Some r).

(** [process.stdin.setRawMode(mode)]: on a terminal the mode is set to
    the truth value of the argument; when stdin is not a terminal the
    method is missing and the call throws a TypeError ([None]). *)
Definition setRawMode (t : Thread) (mode : option bool) : option Thread :=
  match stdinRaw t with
  | Some _ => Some (setStdinRaw t (default false mode))
  | None => None
  end.

(** How a call is left: it returns, or an exception leaves it. *)
Inductive Completion := Returned | Thrown.

Definition setCursorHidden (t : Thread) (h : bool) : Thread :=
  mkThread (active t) (wasRaw t) h (previousSpinner t)
    (spinnerPhase t) (nextSpinner t) (updateFrequency t) (spinnerColor t)
    (repaintOnResize t) (previousSize t) (previousRender t) (nextRender t)
    (renderInterval t) (cursorLine t) (cursorIndex t) (stdout t) (stdinRaw t)
    (terminalSize t).

Definition setSpinnerColor (t : Thread) (f : jstring -> jstring) : Thread :=
  mkThread (active t) (wasRaw t) (cursorHidden t) (previousSpinner t)
    (spinnerPhase t) (nextSpinner t) (updateFrequency t) f
    (repaintOnResize t) (previousSize t) (previousRender t) (nextRender t)
    (renderInterval t) (cursorLine t) (cursorIndex t) (stdout t) (stdinRaw t)
    (terminalSize t).

Definition setUpdateFrequency (t : Thread) (n : nat) : Thread :=
  mkThread (active t) (wasRaw t) (cursorHidden t) (previousSpinner t)
    (spinnerPhase t) (nextSpinner t) n (spinnerColor t)
    (repaintOnResize t) (previousSize t) (previousRender t) (nextRender t)
    (renderInterval t) (cursorLine t) (cursorIndex t) (stdout t) (stdinRaw t)
    (terminalSize t).

Definition setRepaintOnResize (t : Thread) (r : bool) : Thread :=
  mkThread (active t) (wasRaw t) (cursorHidden t) (previousSpinner t)
    (spinnerPhase t) (nextSpinner t) (updateFrequency t) (spinnerColor t)
    r (previousSize t) (previousRender t) (nextRender t)
    (renderInterval t) (cursorLine t) (cursorIndex t) (stdout t) (stdinRaw t)
    (terminalSize t).

(** [this.nextSpinner = this.spinner()] *)
Definition setNextSpinner (t : Thread) (phase : nat) (glyph : jstring) : Thread :=
  mkThread (active t) (wasRaw t) (cursorHidden t) (previousSpinner t)
    phase glyph (updateFrequency t) (spinnerColor t)
    (repaintOnResize t) (previousSize t) (previousRender t) (nextRender t)
    (renderInterval t) (cursorLine t) (cursorIndex t) (stdout t) (stdinRaw t)
    (terminalSize t).

(** Decimal digits of a number inside a template string. *)
Definition decimal (n : nat) : jstring :=
  str (NilZero.string_of_uint (Nat.to_uint n)).

(** [String.prototype.replace] with a string pattern: the first
    occurrence only; in the replacement, [$$], [$&], [$`] and [$'] are
    expanded (there are no captures). *)
Fixpoint substitution (repl matched before after : jstring) : jstring :=
  match repl with
  | [] => []
  | c :: rest =>
      if bool_decide (c = "$"%char) then
        match rest with
        | d :: rest' =>
            if bool_decide (d = "$"%char)
            then "$"%char :: substitution rest' matched before after
            else if bool_decide (d = "&"%char)
            then matched ++ substitution rest' matched before after
            else if bool_decide (d = "`"%char)
            then before ++ substitution rest' matched before after
            else if bool_decide (d = "'"%char)
            then after ++ substitution rest' matched before after
            else c :: substitution rest matched before after
        | [] => [c]
        end
      else c :: substitution rest matched before after
  end.

Definition replace (s pat repl : jstring) : jstring :=
  let p := Js.indexOf s pat in
  if p <? 0 then s
  else
    let before := take (Z.to_nat p) s in
    let after := drop (Z.to_nat p + length pat) s in
    before ++ substitution repl pat before after ++ after.

Section Thread.

(** The collaborators of the thread that live in other packages:
    wrap-ansi (called with [hard: true, trim: false]), indent-string,
    the frames of elegant-spinner, and whether the [DTTCommand] debug
    channel is enabled. *)
Variable wrapAnsi : jstring -> nat -> jstring.
Variable indentString : jstring -> nat -> jstring.
Variable spinnerFrames : nat -> jstring.
Variable debugEnabled : bool.

(** [this.write(text)] *)
Definition write (t : Thread) (s : jstring) : Thread :=
  if debugEnabled then t else setStdout t (stdout t ++ [s]).

(** [process.stdout.write(text)] *)
Definition stdoutWrite (t : Thread) (s : jstring) : Thread :=
  setStdout t (stdout t ++ [s]).

Definition moveCursorTo (t : Thread) (ln idx : nat) : Thread :=
  let t1 :=
    if (ln <? cursorLine t)%nat then
      setCursor (write t (Ansi.ESC :: str "[" ++ decimal (cursorLine t - ln) ++ str "F")) ln 0
    else if (cursorLine t <? ln)%nat then
      setCursor (write t (concat (replicate (ln - cursorLine t) ["010"%char]))) ln 0
    else t in
  if (cursorIndex t1 <? idx)%nat then
    setCursor (write t1 (Ansi.ESC :: str "[" ++ decimal (idx - cursorIndex t1) ++ str "C"))
              (cursorLine t1) idx
  else if (idx <? cursorIndex t1)%nat then
    setCursor
      (if (idx =? 0)%nat then write t1 ["013"%char]
       else write t1 (Ansi.ESC :: str "[" ++ decimal (cursorIndex t1 - idx) ++ str "D"))
      (cursorLine t1) idx
  else t1.

(** The text of a line with the placeholder replaced, as handed to
    wrap-ansi. *)
Definition withSpinner (t : Thread) (glyph : jstring) (l : ILine) : jstring :=
  replace (ltext l) SPINNER (spinnerColor t glyph).

(** The rows one line of the queue is rendered to. *)
Definition rows (t : Thread) (glyph : jstring) (w : nat) (l : ILine)
    : list jstring :=
  Js.splitLines (indentString (wrapAnsi (withSpinner t glyph l) w) (indent l)).

(** [previousLines] as built by [this.previousRender.forEach]. *)
Definition buildPrevious (t : Thread) (w : nat) : list jstring :=
  fold_left (fun acc l => acc ++ rows t (previousSpinner t) w l)
            (previousRender t) [].

(** [nextLines] as built by [this.nextRender.forEach]: rows with the
    [force] flag of their line. *)
Definition buildNext (t : Thread) (w : nat) : list (jstring * bool) :=
  fold_left (fun acc l =>
               acc ++ map (fun r => (r, force l)) (rows t (nextSpinner t) w l))
            (nextRender t) [].

(** The changes of one row. [previousLines[lineNumber]] may be
    undefined, in which case the default (the empty string) of [getChanges]
    applies. *)
Definition lineChanges (previousLines : list jstring)
    (lineNumber : nat) (nextLine : jstring * bool) : list IChange :=
  if snd nextLine
  then [{| index := 0; line := lineNumber;
           text := fst nextLine ++ Ansi.eraseEndLine |}]
  else ChangeAlgorithm.getChanges (default [] (previousLines !! lineNumber))
                                  (fst nextLine) lineNumber.

Fixpoint collectChanges (previousLines : list jstring)
    (lineNumber : nat) (nextLines : list (jstring * bool))
    (changes : list IChange) : list IChange :=
  match nextLines with
  | [] => changes
  | nextLine :: rest =>
      collectChanges previousLines (S lineNumber) rest
        (changes ++ lineChanges previousLines lineNumber nextLine)
  end.

(** The array of changes of one render: the changes of every row,
    then the erasure of trailing rows. *)
Definition renderChanges (previousLines : list jstring)
    (nextLines : list (jstring * bool)) : list IChange :=
  let changes := collectChanges previousLines 0 nextLines [] in
  if (length nextLines <? length previousLines)%nat
  then ChangeAlgorithm.appendToLast changes Ansi.eraseDown
         {| index := 0; line := 0; text := Ansi.eraseDown |}
  else changes.

Definition applyChange (t : Thread) (c : IChange) : Thread :=
  let t1 := moveCursorTo t (line c) (index c) in
  let t2 := write t1 (text c) in
  setCursor t2 (cursorLine t2)
            (cursorIndex t2 + length (Ansi.stripAnsi (text c))).

Definition render (t : Thread) : Thread :=
  if negb (active t) then t
  else
    let size := terminalSize t in
    let previousLines := buildPrevious t (width size) in
    let nextLines := buildNext t (width size) in
    let t1 := setCursor t (length previousLines - 1)
                        (length (default [] (last previousLines))) in
    let repaint := repaintOnResize t1
                   && negb (width (previousSize t1) =? width size)%nat in
    let previousLines' := if repaint then [] else previousLines in
    let t2 := if repaint
              then setPreviousSize
                     (stdoutWrite (moveCursorTo t1 0 0) Ansi.eraseDown) size
              else t1 in
    let t3 := setPreviousSpinner t2 (nextSpinner t2) in
    let changes := renderChanges previousLines' nextLines in
    let t4 := fold_left applyChange changes t3 in
    let t5 := moveCursorTo t4 (length nextLines - 1)
                (length (default [] (fst <$> last nextLines))) in
    setPreviousRender t5
      (map (fun l => {| indent := 0; ltext := fst l; force := false |})
           nextLines).

Definition splitStringToLineObjects (s : jstring) (ind : nat) (f : bool)
    : list ILine :=
  map (fun v => {| ltext := v; indent := ind; force := f |})
      (Js.splitLines s).

Definition elementLines (e : Element) : list ILine :=
  match e with
  | EString s => splitStringToLineObjects s 0 false
  | ELine l =>
      match in_text l with
      | Some s => splitStringToLineObjects s (default 0%nat (in_indent l))
                                           (default false (in_force l))
      | None => []
      end
  end.

Definition processTextToLineObjects (c : Content) : list ILine :=
  match c with
  | CString s => splitStringToLineObjects s 0 false
  | CLine l => elementLines (ELine l)
  | CArray es =>
      fold_left (fun lineArray e => lineArray ++ elementLines e) es []
  end.

Definition hasSpinner (l : ILine) : bool :=
  negb (Js.indexOf (ltext l) SPINNER =? -1).

Definition startTimer (t : Thread) : Thread :=
  if negb (renderInterval t) && active t
  then if existsb hasSpinner (nextRender t)
       then setRenderInterval t true else t
  else t.

Definition stopTimer (t : Thread) : Thread :=
  if renderInterval t then render (setRenderInterval t false) else t.

(** The callback of the interval timer. *)
Definition updateSpinner (t : Thread) : Thread :=
  render (setNextSpinner t (S (spinnerPhase t)) (spinnerFrames (spinnerPhase t))).

(** [start(options)], with the way the call is left: [setRawMode]
    throws when input is to be disabled and stdin is not a terminal, after
    [active] and [wasRaw] are set and before anything else is done. *)
Definition startCall (t : Thread) (o : IOptions) : Thread * Completion :=
  if active t then (t, Returned)
  else
    let t1 := setWasRaw (setActive t true) (Some (stdinRaw t)) in
    match (if default false (disableInput o)
           then setRawMode t1 (Some true) else Some t1) with
    | None => (t1, Thrown)
    | Some t2 =>
        let t3 := if default true (hideCursor o)
                  then write (setCursorHidden t2 true) Ansi.cursorHide
                  else t2 in
        let t4 := match spinnerColour o with
                  | Some f => setSpinnerColor t3 f
                  | None => t3
                  end in
        let t5 := match default 100%nat (opt_updateFrequency o) with
                  | O => t4
                  | S n => setUpdateFrequency t4 (S n)
                  end in
        let t6 := if default false (opt_repaintOnResize o)
                  then setRepaintOnResize t5 true else t5 in
        let t7 := setNextRender (setPreviousRender t6 []) [] in
        let t8 := write t7 ("013"%char :: Ansi.eraseEndLine) in
        (startTimer (setCursor t8 0 0), Returned)
    end.

(** The thread when [start] is left, and whether it is left by an
    exception. *)
Definition start (t : Thread) (o : IOptions) : Thread := fst (startCall t o).

Definition startThrows (t : Thread) (o : IOptions) : bool :=
  match snd (startCall t o) with
  | Thrown => true
  | Returned => false
  end.

(** [stop(commit)], with the way the call is left: [wasRaw] is handed to
    [setRawMode] unless it is null, also when it is undefined; when
    [setRawMode] throws, the rest of [stop] is not run. *)
Definition stopCall (t : Thread) (commit : bool) : Thread * Completion :=
  if active t then
    let t1 := stopTimer (setActive t false) in
    let t2 :=
      if commit then
        let r := render t1 in
        moveCursorTo r (length (previousRender r)) 0
      else
        stdoutWrite (moveCursorTo (setNextRender t1 []) 0 0) Ansi.eraseDown in
    match (match wasRaw t2 with
           | Some raw => setRawMode t2 raw
           | None => Some t2
           end) with
    | None => (t2, Thrown)
    | Some t3 =>
        let t4 := setWasRaw t3 None in
        let t5 := if cursorHidden t4 then write t4 Ansi.cursorShow else t4 in
        (setNextRender (setPreviousRender (setCursorHidden t5 false) []) [],
         Returned)
    end
  else (t, Returned).

(** The thread when [stop] is left, and whether it is left by an
    exception. *)
Definition stop (t : Thread) (commit : bool) : Thread := fst (stopCall t commit).

Definition stopThrows (t : Thread) (commit : bool) : bool :=
  match snd (stopCall t commit) with
  | Thrown => true
  | Returned => false
  end.

Definition getLines (t : Thread) : list ILine := nextRender t.

Definition resetRender (t : Thread) : Thread := setPreviousRender t [].

Definition update (t : Thread) (c : Content) : Thread :=
  render (startTimer (setNextRender t (processTextToLineObjects c))).

Definition append (t : Thread) (c : Content) : Thread :=
  render (startTimer
            (setNextRender t (nextRender t ++ processTextToLineObjects c))).

(** Messages of the parent process and the replies sent back. *)
Inductive Command :=
| START (options : option IOptions)
| STOP (commit : option bool)
| DESTROY
| UPDATE (c : Content)
| APPEND (c : Content)
| RENDER (force : option bool)
| RENDER_QUEUE
| OTHER (cmd : string).

Record Message := mkMessage { cmd : Command; msg_uuid : string }.

Record Response := mkResponse {
  status : string;
  data : option (list ILine);
  uuid : string
}.

(** The status of the reply: the one of the command, or error when the
    call threw and the [catch] of the handler answers. *)
Definition replyStatus (threw : bool) (done : string) : string :=
  if threw then "error"%string else done.

(** The [process.on("message")] handler with its [try] and [catch]: the
    new state of the worker and the reply, if one is sent.  [DESTROY]
    sends the process SIGTERM, on which the exit hook stops the
    session. *)
Definition onMessage (t : Thread) (m : Message) : Thread * option Response :=
  match cmd m with
  | START o =>
      (start t (default noOptions o),
       Some (mkResponse (replyStatus (startThrows t (default noOptions o))
                                     "started") None (msg_uuid m)))
  | STOP c =>
      (stop t (default true c),
       Some (mkResponse (replyStatus (stopThrows t (default true c))
                                     "stopped") None (msg_uuid m)))
  | DESTROY => (stop t true, None)
  | UPDATE c =>
      (update t c, Some (mkResponse "updated" None (msg_uuid m)))
  | APPEND c =>
      (update t c, Some (mkResponse "appended" None (msg_uuid m)))
  | RENDER f =>
      let t1 := if bool_decide (f = Some true) then resetRender t else t in
      (render t1, Some (mkResponse "rendered" None (msg_uuid m)))
  | RENDER_QUEUE =>
      (t, Some (mkResponse "renderQueue" (Some (getLines t)) (msg_uuid m)))
  | OTHER _ => (t, Some (mkResponse "error" None (msg_uuid m)))
  end.

End Thread.

(** chalk's cyan, the default colour of the spinner. *)
Definition cyan (s : jstring) : jstring :=
  (Ansi.ESC :: str "[36m") ++ s ++ (Ansi.ESC :: str "[39m").

(** A thread as its constructor leaves it, on a terminal of the given
    size whose stdin is not in raw mode: no session, the first frame of
    the spinner drawn.  The cursor fields, assigned by [start] only, read
    as 0.  [setStdin] gives the thread of a process with another
    stdin. *)
Definition created (firstFrame : jstring) (size : Size) : Thread :=
  {| active := false; wasRaw := None; cursorHidden := false;
     previousSpinner := []; spinnerPhase := 1; nextSpinner := firstFrame;
     updateFrequency := 100; spinnerColor := cyan; repaintOnResize := false;
     previousSize := size; previousRender := []; nextRender := [];
     renderInterval := false; cursorLine := 0; cursorIndex := 0;
     stdout := []; stdinRaw := Some false; terminalSize := size |}.

(** The terminal is resized: the next [windowSize.get()] reports the
    new size. *)
Definition resize (t : Thread) (size : Size) : Thread :=
  mkThread (active t) (wasRaw t) (cursorHidden t) (previousSpinner t)
    (spinnerPhase t) (nextSpinner t) (updateFrequency t) (spinnerColor t)
    (repaintOnResize t) (previousSize t) (previousRender t) (nextRender t)
    (renderInterval t) (cursorLine t) (cursorIndex t) (stdout t) (stdinRaw t)
    size.

(** [Keeps t t']: from [t] to [t'] the queue and the session flag are
    the same. *)
Definition Keeps (t t' : Thread) : Prop :=
  nextRender t' = nextRender t /\ active t' = active t.

End DynamicTerminalThread.

(** ** DynamicTerminal.ts: the caller's side of the channel *)
Module DynamicTerminal.

Import DynamicTerminalThread.

(** The fields of the object: [lastError] (undefined at first) and
    whether [worker] is set. *)
Record Caller := mkCaller {
  lastError : option string;
  worker : bool
}.

(** How the promise of [send] is settled. [Resolved None] is
    [resolve(null)]. *)
Inductive Outcome :=
| Resolved (msg : option Response)
| Rejected (err : string).

(** One call of [send] in flight: the identifier drawn by [uuid()], the
    delay in milliseconds given to [setTimeout], whether [handler] is
    still registered on the worker, whether [timeoutTimer] is still
    pending, and the state of the promise ([None] while it is
    pending). *)
Record Call := mkCall {
  id : string;
  timeout : N;
  listening : bool;
  timerPending : bool;
  outcome : option Outcome
}.

Definition defaultTimeout : N := 10000.

(** What the event loop may run while the call is in flight: a message
    of the worker reaches the listeners, the delay of the timer has
    elapsed, or the callback of [worker.send] reports an error. *)
Inductive Event :=
| Incoming (msg : Response)
| TimerExpired
| SendFailed (err : string).

(** A promise is settled once; later calls of [resolve] and [reject]
    have no effect. *)
Definition settle (c : Call) (o : Outcome) : Call :=
  match outcome c with
  | Some _ => c
  | None => mkCall (id c) (timeout c) (listening c) (timerPending c) (Some o)
  end.

(** The state of [send] right after the executor of the promise ran,
    and the message handed to the worker. *)
Definition send (command : Command) (uid : string) (ms : N) : Call * Message :=
  (mkCall uid ms true true None, mkMessage command uid).

(** [handler(msg)] *)
Definition handler (c : Call) (msg : Response) : Call :=
  if bool_decide (uuid msg = id c)
  then settle (mkCall (id c) (timeout c) false false (outcome c))
              (Resolved (Some msg))
  else c.

(** The callback given to [setTimeout]. *)
Definition onTimeout (s : Caller * Call) : Caller * Call :=
  let '(me, c) := s in
  (mkCaller (Some "Communication timeout"%string) (worker me),
   settle (mkCall (id c) (timeout c) false false (outcome c)) (Resolved None)).

Definition step (s : Caller * Call) (e : Event) : Caller * Call :=
  let '(me, c) := s in
  match e with
  | Incoming msg => if listening c then (me, handler c msg) else s
  | TimerExpired => if timerPending c then onTimeout s else s
  | SendFailed err => (me, settle c (Rejected err))
  end.

Definition run (s : Caller * Call) (events : list Event) : Caller * Call :=
  fold_left step events s.

(** What the methods make of the awaited response. *)
Definition hasStatus (response : option Response) (expected : string) : bool :=
  match response with
  | Some r => bool_decide (status r = expected)
  | None => false
  end.

Definition startResult (response : option Response) : bool :=
  hasStatus response "started".
Definition stopResult (response : option Response) : bool :=
  hasStatus response "stopped".
Definition updateResult (response : option Response) : bool :=
  hasStatus response "updated".
Definition appendResult (response : option Response) : bool :=
  hasStatus response "appended".
Definition forceRenderResult (response : option Response) : bool :=
  hasStatus response "rendered".

(** [getRenderQueue] after the await: [response.data] may be undefined
    ([None]). *)
Definition getRenderQueueResult (response : option Response)
    : option (list ILine) :=
  match response with
  | Some r => if bool_decide (status r = "rendered"%string) then data r
              else Some []
  | None => Some []
  end.

Definition noWorker : string := "No worker! Try restarting the worker".

(** What the [await] in a method gives: the value the promise is
    resolved with, the exception it is rejected with (the method then
    throws it), or nothing as long as the promise is pending. *)
Inductive Awaited (R : Type) :=
| Value (r : R)
| Raised (err : string)
| Waiting.

Arguments Value {R} r.
Arguments Raised {R} err.
Arguments Waiting {R}.

(** The body the asynchronous methods share, from the call to the end of
    the events the event loop runs meanwhile: without worker the last
    error is set and the failure returned at once; otherwise the command
    is sent with the default delay, and the method returns what [result]
    makes of the awaited response.  The result is the caller and what the
    method has come to. *)
Definition invoke {R : Type} (me : Caller) (command : Command) (uid : string)
    (events : list Event) (result : option Response -> R) (failure : R)
    : Caller * Awaited R :=
  if worker me then
    let '(me', c') := run (me, fst (send command uid defaultTimeout)) events in
    (me', match outcome c' with
          | Some (Resolved response) => Value (result response)
          | Some (Rejected err) => Raised err
          | None => Waiting
          end)
  else (mkCaller (Some noWorker) (worker me), Value failure).

Section Channel.

Variable wrapAnsi : jstring -> nat -> jstring.
Variable indentString : jstring -> nat -> jstring.
Variable debugEnabled : bool.

(** [getRenderQueue()] against a worker that answers before the
    timer: the command is sent, the worker handles it, its reply
    reaches the handler, and the method returns what it makes of the
    settled promise.  The result is the state of the worker, the
    caller, and what the method returns ([None] while the promise is
    pending or when it is rejected). *)
Definition getRenderQueue (me : Caller) (t : Thread) (uid : string)
    : Thread * Caller * option (option (list ILine)) :=
  if worker me then
    let '(c, m) := send RENDER_QUEUE uid defaultTimeout in
    let '(t', reply) := onMessage wrapAnsi indentString debugEnabled t m in
    let '(me', c') := run (me, c) (match reply with
                                   | Some r => [Incoming r]
                                   | None => []
                                   end) in
    (t', me',
     match outcome c' with
     | Some (Resolved response) => Some (getRenderQueueResult response)
     | _ => None
     end)
  else (t, mkCaller (Some noWorker) (worker me), Some (Some [])).

End Channel.


End DynamicTerminal.

(** ** The row of the round trip, and well-formed styled strings *)
Module Row.

Import ChangeAlgorithm.

(** A row of the terminal as a column-addressable buffer.  Writing a
    character at a column replaces what is there; beyond the end of the
    row the gap is filled with spaces. *)
Definition put (buf : jstring) (col : nat) (c : ascii) : jstring :=
  if (col <? length buf)%nat then <[col := c]> buf
  else buf ++ replicate (col - length buf) " "%char ++ [c].

(** Writing the text of a change from a column on: each character that
    is not part of an escape sequence is written and moves the column;
    the erase-to-end-of-line sequence clears the row from the current
    column on; the other sequences only set the style. *)
Fixpoint writeTokens (buf : jstring) (col : nat) (ts : list Ansi.Token)
    : jstring :=
  match ts with
  | [] => buf
  | Ansi.Chr c :: ts' => writeTokens (put buf col c) (S col) ts'
  | Ansi.Code code :: ts' =>
      if bool_decide (code = Ansi.eraseEndLine)
      then writeTokens (take col buf) col ts'
      else writeTokens buf col ts'
  end.

Definition applyChange (buf : jstring) (c : IChange) : jstring :=
  writeTokens buf (index c) (Ansi.tokens (text c)).

Definition applyChanges (buf : jstring) (cs : list IChange) : jstring :=
  fold_left applyChange cs buf.

(** The style sequences of a well-formed styled string: ESC, an opening
    bracket, parameters of one to four digits separated by semicolons (or
    no parameter at all), and the letter m. *)
Fixpoint sgrParams (d : nat) (r : jstring) : bool :=
  match r with
  | [] => false
  | c :: r' =>
      if bool_decide (c = "m"%char) then Js.isEmpty r'
      else if Ansi.isDigit c
           then match d with
                | S d' => sgrParams d' r'
                | O => false
                end
           else bool_decide (c = ";"%char) && sgrParams 4 r'
  end.

Definition isSgr (code : jstring) : bool :=
  match code with
  | e :: b :: c :: r =>
      bool_decide (e = Ansi.ESC) && bool_decide (b = "["%char)
      && (if bool_decide (c = "m"%char) then Js.isEmpty r
          else Ansi.isDigit c && sgrParams 3 r)
  | _ => false
  end.

(** A character of the visible text: none of ESC, CSI and BEL. *)
Definition plain (c : ascii) : bool :=
  negb (bool_decide (c = Ansi.ESC)) && negb (bool_decide (c = Ansi.CSI))
  && negb (bool_decide (c = Ansi.BEL)).

Definition tokenOk (t : Ansi.Token) : bool :=
  match t with
  | Ansi.Chr c => plain c
  | Ansi.Code code => isSgr code
  end.

(** A well-formed styled string: every escape sequence the pattern finds
    in it is a style sequence, and the rest is visible text. *)
Definition wellStyled (s : jstring) : bool := forallb tokenOk (Ansi.tokens s).

(** The state of the scan loop of [getChanges] before round [i]. *)
Definition scanTo (org tgt : CodeIndex) (ln i : nat)
    : list IChange * option IChange :=
  fold_left (scanStep org tgt ln) (seq 0 i) ([], None).

(** The change that is open in the state [st] and that the next state
    [st'] has closed without pushing it: the change discarded as white
    space, as it was before its closing text was added. *)
Definition discarded (st st' : list IChange * option IChange)
    : option IChange :=
  match snd st, snd st' with
  | Some c, None =>
      if (length (fst st) <? length (fst st'))%nat then None else Some c
  | _, _ => None
  end.

(** The stripped strings hold the same characters at the columns from
    [from] up to, and without, [to]. *)
Definition sameChars (org tgt : CodeIndex) (from to : nat) : bool :=
  forallb (fun j => bool_decide (stripped tgt !! j = stripped org !! j))
          (seq from (to - from)).

(** Every change that [getChanges] discards as white space spans columns
    at which the stripped target holds the characters of the stripped
    original: it would have changed the style of blanks only.  Nothing is
    discarded in the cases that [getChanges] settles before its loop. *)
Definition harmlessDiscards (original target : jstring) (ln : nat) : bool :=
  if bool_decide (original = target) || Js.isEmpty original
     || Js.isEmpty target
  then true
  else
    let org := indexCodes original in
    let tgt := indexCodes target in
    let n := length (stripped tgt) in
    forallb (fun i =>
               match discarded (scanTo org tgt ln i)
                               (scanStep org tgt ln (scanTo org tgt ln i) i) with
               | Some c => sameChars org tgt (index c) i
               | None => true
               end)
            (seq 0 n)
    && match discarded (scanTo org tgt ln n)
                       (closeAtEnd tgt (scanTo org tgt ln n), None) with
       | Some c => sameChars org tgt (index c) n
       | None => true
       end.

(** When the stripped target is shorter than the stripped original, the
    erasure is made at the end of the stripped target: the loop of
    [getChanges] returns no change, or the last one writes up to the end
    of the stripped target. *)
Definition erasesAtEnd (original target : jstring) (ln : nat) : bool :=
  if bool_decide (original = target) || Js.isEmpty original
     || Js.isEmpty target
  then true
  else
    let org := indexCodes original in
    let tgt := indexCodes target in
    let n := length (stripped tgt) in
    if (n <? length (stripped org))%nat then
      match last (closeAtEnd tgt (scanTo org tgt ln n)) with
      | Some c => (index c + length (Ansi.stripAnsi (text c)) =? n)%nat
      | None => true
      end
    else true.

(** Two changes of a row overlap when the second starts before the
    column the first has written up to. *)
Definition overlap (c1 c2 : IChange) : Prop :=
  (index c2 < index c1 + length (Ansi.stripAnsi (text c1)))%nat.

(** Writing a string of visible characters from a column on. *)
Fixpoint writeStr (buf : jstring) (col : nat) (w : jstring) : jstring :=
  match w with
  | [] => buf
  | c :: w' => writeStr (put buf col c) (S col) w'
  end.

End Row.

(** ** Predicates of the proofs *)
Module Invariants.

Import ChangeAlgorithm Row.

(** The string a list of tokens stands for. *)
Definition flatten (ts : list Ansi.Token) : jstring :=
  concat (map (fun t => match t with
                        | Ansi.Code c => c
                        | Ansi.Chr c => [c]
                        end) ts).

(** State of the loop after the columns below [i]: the closed changes
    are on line [ln], start below [i] at increasing columns, and an open
    change starts after all of them. *)
Definition ScanInv (ln i : nat) (st : list IChange * option IChange) : Prop :=
  Forall (fun c => line c = ln /\ (index c < i)%nat) (fst st)
  /\ StronglySorted lt (map index (fst st))
  /\ match snd st with
     | Some c => line c = ln /\ (index c < i)%nat
                 /\ Forall (fun c' => (index c' < index c)%nat) (fst st)
     | None => True
     end.

(** A string made of style sequences only. *)
Definition CodesOnly (v : jstring) : Prop :=
  exists cs, Forall (fun c => isSgr c = true) cs /\ v = concat cs.

(** Every position of the array has codes in the map, and the map holds
    style sequences only. *)
Definition Clean (st : CodeIndex) : Prop :=
  (forall p, p ∈ codeArray st -> is_Some (codeMap st !! p))
  /\ (forall p v, codeMap st !! p = Some v -> CodesOnly v).

(** A text of style sequences and of the characters of the columns
    [i0] up to [k] of the stripped target. *)
Definition Shape (tgt : CodeIndex) (t : jstring) (i0 k : nat) : Prop :=
  exists ts, t = flatten ts
             /\ Forall (fun x => tokenOk x = true) ts
             /\ omap Ansi.charOf ts = take (k - i0) (drop i0 (stripped tgt)).

(** The row agrees with the stripped target below column [k]. *)
Definition Agree (tgt : CodeIndex) (R : jstring) (k : nat) : Prop :=
  forall j, (j < k)%nat -> R !! j = stripped tgt !! j.

(** Each cell of the row holds the character of the target or still the
    one of the original. *)
Definition Mixed (org tgt : CodeIndex) (R : jstring) : Prop :=
  forall j, R !! j = stripped tgt !! j \/ R !! j = stripped org !! j.

(** A text of style sequences and visible characters. *)
Definition Styled (t : jstring) : Prop :=
  exists ts, t = flatten ts /\ Forall (fun x => tokenOk x = true) ts.

(** The state of the loop after the columns below [i], seen from the
    row: the closed changes are well-formed texts and, applied to the
    stripped original, give a row that agrees with the target below the
    open change (or below [i]); the open change holds the characters from
    its column up to [i]. *)
Definition RowInv (org tgt : CodeIndex) (i : nat)
    (st : list IChange * option IChange) : Prop :=
  Mixed org tgt (applyChanges (stripped org) (fst st))
  /\ Forall (fun c => Styled (text c)) (fst st)
  /\ match snd st with
     | None => Agree tgt (applyChanges (stripped org) (fst st)) i
     | Some c =>
         (index c < i)%nat
         /\ Agree tgt (applyChanges (stripped org) (fst st)) (index c)
         /\ Shape tgt (text c) (index c) i
     end.

(** The positions recorded by the [forEach] loop: the array holds each
    position once, the positions of the array are the keys of the map,
    and each lies between 0 and [n]. *)
Definition Indexed (st : CodeIndex) (n : nat) : Prop :=
  NoDup (codeArray st)
  /\ (forall p, p ∈ codeArray st <-> is_Some (codeMap st !! p))
  /\ (forall p, p ∈ codeArray st -> (0 <= p <= Z.of_nat n)%Z).

(** The loop of [getChanges] meets no column that needs a change. *)
Definition sameColumns (org tgt : CodeIndex) : bool :=
  forallb (fun i => negb (divergent org tgt i))
          (seq 0 (length (stripped tgt))).

End Invariants.

(** ** The event loop of the worker *)
Module EventLoop.

Import DynamicTerminalThread.

(** What the worker process reacts to: a message of the parent, a tick
    of the interval timer, and the terminal being resized. *)
Inductive Stimulus :=
| Received (m : Message)
| Tick
| Resized (size : Size).

(** The messages that leave a running session running. *)
Definition keepsSession (s : Stimulus) : bool :=
  match s with
  | Received m =>
      match cmd m with
      | STOP _ | DESTROY => false
      | _ => true
      end
  | _ => true
  end.

(** The message that opens a session. *)
Definition startsSession (s : Stimulus) : bool :=
  match s with
  | Received m =>
      match cmd m with
      | START _ => true
      | _ => false
      end
  | _ => false
  end.

(** A message of the parent, as opposed to a tick or a resize. *)
Definition isMessage (s : Stimulus) : bool :=
  match s with
  | Received _ => true
  | _ => false
  end.

Section Loop.

Variable wrapAnsi : jstring -> nat -> jstring.
Variable indentString : jstring -> nat -> jstring.
Variable spinnerFrames : nat -> jstring.
Variable debugEnabled : bool.

(** One turn of the event loop.  The callback of [setInterval] runs only
    while the interval is set. *)
Definition react (t : Thread) (s : Stimulus) : Thread :=
  match s with
  | Received m => fst (onMessage wrapAnsi indentString debugEnabled t m)
  | Tick =>
      if renderInterval t
      then updateSpinner wrapAnsi indentString spinnerFrames debugEnabled t
      else t
  | Resized size => resize t size
  end.

Definition reactAll (t : Thread) (ss : list Stimulus) : Thread :=
  fold_left react ss t.

End Loop.

End EventLoop.

(** ** DynamicTerminal.ts: the methods of the caller *)
Module Methods.

Import DynamicTerminalThread DynamicTerminal.

(** [destroy()] on the caller's side: the message is sent without
    waiting, and the worker is forgotten. *)
Definition forget (me : Caller) : Caller := mkCaller (lastError me) false.

(** [startWorker()]: nothing to do with a worker at hand; otherwise the
    fork either gives a connected worker or the method throws
    ([None]). *)
Definition startWorker (me : Caller) (connected : bool) : option Caller :=
  if worker me then Some me
  else if connected then Some (mkCaller (lastError me) true) else None.

Section Methods.

Variable wrapAnsi : jstring -> nat -> jstring.
Variable indentString : jstring -> nat -> jstring.
Variable debugEnabled : bool.

(** A method against a worker that answers before the timer: [invoke]
    where the one event is the reply of the worker, which has handled the
    message.  Without worker nothing reaches the thread.  The last
    component is [None] while the promise is pending or when it is
    rejected. *)
Definition request {R : Type} (me : Caller) (t : Thread) (command : Command)
    (uid : string) (result : option Response -> R) (failure : R)
    : Thread * Caller * option R :=
  if worker me then
    let '(t', reply) := onMessage wrapAnsi indentString debugEnabled t
                                  (snd (send command uid defaultTimeout)) in
    let '(me', awaited) :=
      invoke me command uid (match reply with
                             | Some r => [Incoming r]
                             | None => []
                             end) result failure in
    (t', me',
     match awaited with
     | Value r => Some r
     | _ => None
     end)
  else (t, mkCaller (Some noWorker) (worker me), Some failure).

Definition start (me : Caller) (t : Thread) (options : option IOptions)
    (uid : string) : Thread * Caller * option bool :=
  request me t (START options) uid startResult false.

(** [stop(commit = true)] *)
Definition stop (me : Caller) (t : Thread) (commit : option bool)
    (uid : string) : Thread * Caller * option bool :=
  request me t (STOP (Some (default true commit))) uid stopResult false.

Definition update (me : Caller) (t : Thread) (c : Content) (uid : string)
    : Thread * Caller * option bool :=
  request me t (UPDATE c) uid updateResult false.

Definition append (me : Caller) (t : Thread) (c : Content) (uid : string)
    : Thread * Caller * option bool :=
  request me t (APPEND c) uid appendResult false.

Definition forceRender (me : Caller) (t : Thread) (force : option bool)
    (uid : string) : Thread * Caller * option bool :=
  request me t (RENDER force) uid forceRenderResult false.

(** [destroy()]: the DESTROY message carries no identifier, and no
    answer is awaited. *)
Definition destroy (me : Caller) (t : Thread) : Thread * Caller * bool :=
  if worker me
  then (fst (onMessage wrapAnsi indentString debugEnabled t
                       (mkMessage DESTROY EmptyString)),
        forget me, true)
  else (t, me, false).

End Methods.

End Methods.

(** ** Predicates on the thread and its frames *)
Module Frames.

Import DynamicTerminalThread.

(** [Moved t t']: from [t] to [t'] only the cursor and what was written
    to stdout may differ. *)
Definition Moved (t t' : Thread) : Prop :=
  exists l i o, t' = setStdout (setCursor t l i) o.

(** Outside a session the timer is off and, unless stdin is not a
    terminal, the cursor is not hidden and no raw mode is remembered. *)
Definition Idle (t : Thread) : Prop :=
  active t = false ->
  renderInterval t = false
  /\ (stdinRaw t = None \/ (cursorHidden t = false /\ wasRaw t = None)).

(** [Painted t t']: from [t] to [t'] only the cursor, what was written
    to stdout and what is remembered of the previous frame (its lines, its
    spinner, the size it was drawn for) may differ. *)
Definition Painted (t t' : Thread) : Prop :=
  exists l i o sp sz pr,
    t' = setPreviousRender
           (setPreviousSize
              (setPreviousSpinner (setStdout (setCursor t l i) o) sp) sz) pr.

(** The fields that make the session: whether it is active, the raw mode
    of stdin and the one to restore, and whether the cursor is hidden. *)
Definition SameSession (t t' : Thread) : Prop :=
  active t' = active t /\ wasRaw t' = wasRaw t
  /\ cursorHidden t' = cursorHidden t /\ stdinRaw t' = stdinRaw t.

(** [Erases t t']: what was written from [t] to [t'] is erasures of the
    screen below the cursor, and nothing else. *)
Definition Erases (t t' : Thread) : Prop :=
  exists k, stdout t' = stdout t ++ replicate k Ansi.eraseDown.

(** [lines.join("\n")] *)
Fixpoint joinLines (ls : list jstring) : jstring :=
  match ls with
  | [] => []
  | [l] => l
  | l :: ls' => l ++ "010"%char :: joinLines ls'
  end.

(** The changes that paint a row on an empty screen: a forced row is
    written with an erasure to the end of the line, another row is
    written as it is, and an empty row needs no change. *)
Definition paintRow (lineNumber : nat) (row : jstring * bool) : list IChange :=
  if snd row
  then [{| line := lineNumber; index := 0;
           text := fst row ++ Ansi.eraseEndLine |}]
  else if Js.isEmpty (fst row) then []
       else [{| line := lineNumber; index := 0; text := fst row |}].

End Frames.

(** * Properties *)

(** ** The change algorithm on given inputs *)
Module ChangeFacts.

Import ChangeAlgorithm.

(** C7. Asking for the changes from a string to itself gives no change,
    whatever the string and the line; so it is for the empty string and
    for abc. *)
Theorem getChanges_same (s : jstring) (ln : nat) :
  getChanges s s ln = []
  /\ getChanges [] [] ln = []
  /\ getChanges (str "abc") (str "abc") ln = [].
Proof.
  assert (H : forall u, getChanges u u ln = []).
  { intros u. unfold getChanges. rewrite bool_decide_eq_true_2; done. }
  auto.
Qed.

(** C6, as the claim states it: the single change from Hello world to
    Hello there is not the bare text there at column 6. *)
Lemma hello_there_not_bare :
  getChanges (str "Hello world") (str "Hello there") 0
  <> [{| line := 0; index := 6; text := str "there" |}].
Proof. vm_compute. discriminate. Qed.

(** C6, amended. From Hello world to Hello there the algorithm returns
    one change, at column 6 of line 0, whose text is the reset-style
    sequence followed by there; there is no erasure. *)
Theorem hello_there_with_reset :
  getChanges (str "Hello world") (str "Hello there") 0
  = [{| line := 0; index := 6; text := RESET_STYLE ++ str "there" |}].
Proof. vm_compute. reflexivity. Qed.

End ChangeFacts.

(** ** The render thread *)
Module ThreadFacts.

Import DynamicTerminalThread.

Section Facts.

Variable wrapAnsi : jstring -> nat -> jstring.
Variable indentString : jstring -> nat -> jstring.
Variable debugEnabled : bool.

Local Abbreviation write := (write debugEnabled).
Local Abbreviation moveCursorTo := (moveCursorTo debugEnabled).
Local Abbreviation applyChange := (applyChange debugEnabled).
Local Abbreviation render := (render wrapAnsi indentString debugEnabled).
Local Abbreviation stopTimer := (stopTimer wrapAnsi indentString debugEnabled).
Local Abbreviation stop := (stop wrapAnsi indentString debugEnabled).
Local Abbreviation update := (update wrapAnsi indentString debugEnabled).
Local Abbreviation append := (append wrapAnsi indentString debugEnabled).
Local Abbreviation onMessage := (onMessage wrapAnsi indentString debugEnabled).

Lemma Keeps_refl t : Keeps t t.
Proof. done. Qed.

Lemma Keeps_trans t1 t2 t3 : Keeps t1 t2 -> Keeps t2 t3 -> Keeps t1 t3.
Proof. unfold Keeps. intros [-> ->] [-> ->]. done. Qed.

Lemma write_keeps t s : Keeps t (write t s).
Proof. unfold DynamicTerminalThread.write. destruct debugEnabled; done. Qed.

Lemma moveCursorTo_keeps t l i : Keeps t (moveCursorTo t l i).
Proof.
  unfold DynamicTerminalThread.moveCursorTo, DynamicTerminalThread.write, Keeps.
  destruct debugEnabled; repeat case_match; done.
Qed.

Lemma applyChange_keeps t c : Keeps t (applyChange t c).
Proof.
  unfold DynamicTerminalThread.applyChange. cbv zeta.
  eapply Keeps_trans; [|apply (Keeps_refl (setCursor _ _ _))].
  eapply Keeps_trans; [|apply write_keeps].
  apply moveCursorTo_keeps.
Qed.

Lemma applyChanges_keep cs : forall t, Keeps t (fold_left applyChange cs t).
Proof.
  induction cs as [|c cs IH]; intros t; cbn; [done|].
  eapply Keeps_trans; [apply applyChange_keeps|apply IH].
Qed.

(** A render never touches the queue nor the session flag. *)
Lemma render_keeps t : Keeps t (render t).
Proof.
  unfold DynamicTerminalThread.render.
  destruct (active t) eqn:Hact; cbn [negb]; cbv zeta; [|done].
  eapply Keeps_trans; [|apply (Keeps_refl (setPreviousRender _ _))].
  eapply Keeps_trans; [|apply moveCursorTo_keeps].
  eapply Keeps_trans; [|apply applyChanges_keep].
  eapply Keeps_trans; [|apply (Keeps_refl (setPreviousSpinner _ _))].
  case_match.
  - eapply Keeps_trans; [|apply (Keeps_refl (setPreviousSize _ _))].
    eapply Keeps_trans; [|apply (Keeps_refl (stdoutWrite _ _))].
    eapply Keeps_trans; [|apply moveCursorTo_keeps].
    apply (Keeps_refl (setCursor _ _ _)).
  - apply (Keeps_refl (setCursor _ _ _)).
Qed.

Lemma startTimer_keeps t :
  nextRender (startTimer t) = nextRender t.
Proof. unfold startTimer. repeat case_match; done. Qed.

(** An inactive thread does not render. *)
Lemma render_inactive t : active t = false -> render t = t.
Proof. intros H. unfold DynamicTerminalThread.render. by rewrite H. Qed.

(** C2. The dispatcher hands an APPEND message to [update]: afterwards
    the queue holds the lines of the message only, exactly as after an
    UPDATE message, and the lines queued before are gone.  The method
    [append], which the dispatcher does not call, would have kept
    them. *)
Theorem append_message_replaces_queue (t : Thread) (c : Content) (u : string) :
  nextRender (fst (onMessage t (mkMessage (APPEND c) u)))
    = processTextToLineObjects c
  /\ fst (onMessage t (mkMessage (APPEND c) u))
     = fst (onMessage t (mkMessage (UPDATE c) u))
  /\ nextRender (append t c) = nextRender t ++ processTextToLineObjects c.
Proof.
  split; [|split]; cbn.
  - unfold DynamicTerminalThread.update.
    rewrite (proj1 (render_keeps _)).
    by rewrite startTimer_keeps.
  - reflexivity.
  - unfold DynamicTerminalThread.append.
    rewrite (proj1 (render_keeps _)).
    by rewrite startTimer_keeps.
Qed.

(** The timer is stopped on an inactive thread without a render. *)
Lemma stopTimer_inactive t :
  active t = false ->
  stopTimer t = if renderInterval t then setRenderInterval t false else t.
Proof.
  intros H. unfold DynamicTerminalThread.stopTimer.
  destruct (renderInterval t); [|done].
  by apply render_inactive.
Qed.

(** The queue plays no part in writing and moving the cursor. *)
Lemma write_setNextRender t q s :
  write (setNextRender t q) s = setNextRender (write t s) q.
Proof. unfold DynamicTerminalThread.write. destruct debugEnabled; done. Qed.

Lemma moveCursorTo_setNextRender t q l i :
  moveCursorTo (setNextRender t q) l i = setNextRender (moveCursorTo t l i) q.
Proof.
  unfold DynamicTerminalThread.moveCursorTo.
  change (cursorLine (setNextRender t q)) with (cursorLine t).
  rewrite !write_setNextRender.
  destruct (l <? cursorLine t)%nat; [|destruct (cursorLine t <? l)%nat].
  all: cbv zeta.
  all: repeat match goal with
         | |- context [cursorIndex (setCursor ?x ?a ?b)] =>
             change (cursorIndex (setCursor x a b)) with b
         | |- context [cursorLine (setCursor ?x ?a ?b)] =>
             change (cursorLine (setCursor x a b)) with a
         | |- context [setCursor (setNextRender ?x ?y) ?a ?b] =>
             change (setCursor (setNextRender x y) a b)
               with (setNextRender (setCursor x a b) y)
         | |- context [cursorIndex (setNextRender ?x ?y)] =>
             change (cursorIndex (setNextRender x y)) with (cursorIndex x)
         | |- context [cursorLine (setNextRender ?x ?y)] =>
             change (cursorLine (setNextRender x y)) with (cursorLine x)
         end.
  all: rewrite ?write_setNextRender.
  all: repeat match goal with
         | |- context [Nat.ltb ?a ?b] => destruct (Nat.ltb a b)
         | |- context [Nat.eqb ?a ?b] => destruct (Nat.eqb a b)
         end.
  all: reflexivity.
Qed.

Lemma stopTimer_setNextRender t q :
  active t = false ->
  stopTimer (setNextRender t q) = setNextRender (stopTimer t) q.
Proof.
  intros H. rewrite !stopTimer_inactive by done. cbn.
  by destruct (renderInterval t).
Qed.

(** Stopping with commit, with other lines queued: the call is left the
    same way; when it returns, in the same state; when it throws, in the
    same state but for the queue, which is then not emptied. *)
Lemma stopCall_setNextRender (t : Thread) (q : list ILine) :
  active t = true ->
  stopCall wrapAnsi indentString debugEnabled (setNextRender t q) true
  = match stopCall wrapAnsi indentString debugEnabled t true with
    | (t', Returned) => (t', Returned)
    | (t', Thrown) => (setNextRender t' q, Thrown)
    end.
Proof.
  intros Hact.
  assert (Hin : forall x, active x = false -> active (stopTimer x) = false).
  { intros x Hx. rewrite (stopTimer_inactive x Hx).
    by destruct (renderInterval x). }
  unfold DynamicTerminalThread.stopCall.
  change (active (setNextRender t q)) with (active t). rewrite Hact.
  change (setActive (setNextRender t q) false)
    with (setNextRender (setActive t false) q).
  rewrite stopTimer_setNextRender by done.
  set (t1 := stopTimer (setActive t false)).
  assert (H1 : active t1 = false) by by apply Hin.
  rewrite !render_inactive by done.
  change (previousRender (setNextRender t1 q)) with (previousRender t1).
  rewrite moveCursorTo_setNextRender.
  set (t2 := moveCursorTo t1 (length (previousRender t1)) 0).
  cbv zeta.
  change (wasRaw (setNextRender t2 q)) with (wasRaw t2).
  unfold setRawMode.
  change (stdinRaw (setNextRender t2 q)) with (stdinRaw t2).
  destruct (wasRaw t2) as [raw|]; [destruct (stdinRaw t2) as [isRaw|]|];
    [|reflexivity|].
  - set (r := default false raw).
    change (cursorHidden (setWasRaw (setStdinRaw (setNextRender t2 q) r) None))
      with (cursorHidden (setWasRaw (setStdinRaw t2 r) None)).
    destruct (cursorHidden (setWasRaw (setStdinRaw t2 r) None)).
    + change (setWasRaw (setStdinRaw (setNextRender t2 q) r) None)
        with (setNextRender (setWasRaw (setStdinRaw t2 r) None) q).
      by rewrite write_setNextRender.
    + reflexivity.
  - change (cursorHidden (setWasRaw (setNextRender t2 q) None))
      with (cursorHidden (setWasRaw t2 None)).
    destruct (cursorHidden (setWasRaw t2 None)).
    + change (setWasRaw (setNextRender t2 q) None)
        with (setNextRender (setWasRaw t2 None) q).
      by rewrite write_setNextRender.
    + reflexivity.
Qed.

(** C3. In [stop] the session flag is cleared before [render] is
    called, so that call returns at once: on an active session,
    stopping with commit gives the same state and the same output
    whatever lines are queued, and the queue is never rendered.  (When
    [setRawMode] throws, the queue is the one thing that is left as it
    was.) *)
Theorem stop_commit_ignores_queue (t : Thread) (q : list ILine) :
  active t = true ->
  stop (setNextRender t q) true
  = (if stopThrows wrapAnsi indentString debugEnabled t true
     then setNextRender (stop t true) q else stop t true)
  /\ render (stopTimer (setActive t false)) = stopTimer (setActive t false).
Proof.
  intros Hact.
  split.
  - unfold DynamicTerminalThread.stop, DynamicTerminalThread.stopThrows.
    rewrite stopCall_setNextRender by done.
    by destruct (stopCall wrapAnsi indentString debugEnabled t true) as [t' []].
  - apply render_inactive. rewrite stopTimer_inactive by done.
    by destruct (renderInterval (setActive t false)).
Qed.

End Facts.

(** A witness of C3: an active session with one queued line. *)
Lemma stop_commit_ignores_queue_witness :
  let t := setActive (created (str "-") (mkSize 80 30)) true in
  let q := [mkLine (str "x") 0 false] in
  stop (fun s _ => s) (fun s _ => s) false (setNextRender t q) true
  = stop (fun s _ => s) (fun s _ => s) false t true
  /\ render (fun s _ => s) (fun s _ => s) false
       (stopTimer (fun s _ => s) (fun s _ => s) false (setActive t false))
     = stopTimer (fun s _ => s) (fun s _ => s) false (setActive t false).
Proof.
  intros t q.
  apply (stop_commit_ignores_queue (fun s _ => s) (fun s _ => s) false t q).
  reflexivity.
Defined.

(** C8, as the claim states it: with two placeholders in a line, the
    text handed to the wrapper still holds the second one. *)
Lemma second_spinner_stays :
  let t := created (str "-") (mkSize 80 30) in
  let l := mkLine (str "_*_ a _*_") 0 false in
  withSpinner t (str "-") l = cyan (str "-") ++ str " a _*_"
  /\ Js.indexOf (withSpinner t (str "-") l) SPINNER <> -1.
Proof. vm_compute. split; [reflexivity | discriminate]. Qed.

(** A replacement without a dollar sign is inserted as it is. *)
Lemma substitution_plain repl matched before after :
  "$"%char ∉ repl -> substitution repl matched before after = repl.
Proof.
  induction repl as [|c repl IH]; intros Hno; cbn; [done|].
  rewrite bool_decide_eq_false_2.
  - f_equal. apply IH. intros Hin. apply Hno. by right.
  - intros ->. apply Hno. by left.
Qed.

Lemma fold_app_concat {A B : Type} (f : A -> list B) (l : list A) :
  forall acc, fold_left (fun acc x => acc ++ f x) l acc = acc ++ concat (map f l).
Proof.
  induction l as [|x l IH]; intros acc; cbn.
  - by rewrite app_nil_r.
  - by rewrite IH, app_assoc.
Qed.

(** C8, amended. In both frame builds of a render, the text of each
    logical line goes to the wrapper with the first occurrence of the
    placeholder replaced by the styled glyph (of the previous spinner for
    the previous frame, of the next spinner for the next frame); a line
    without placeholder goes unchanged; what follows the first
    occurrence is not changed. *)
Theorem first_spinner_replaced
    (wrapAnsi indentString : jstring -> nat -> jstring) (t : Thread) (w : nat) :
  (forall glyph l,
      Js.indexOf (ltext l) SPINNER = -1 -> withSpinner t glyph l = ltext l)
  /\ (forall glyph l before after,
        ltext l = before ++ SPINNER ++ after ->
        Js.indexOf (ltext l) SPINNER = Js.len before ->
        "$"%char ∉ spinnerColor t glyph ->
        withSpinner t glyph l = before ++ spinnerColor t glyph ++ after)
  /\ buildPrevious wrapAnsi indentString t w
     = concat (map (fun l =>
                      Js.splitLines
                        (indentString
                           (wrapAnsi (withSpinner t (previousSpinner t) l) w)
                           (indent l)))
                   (previousRender t))
  /\ buildNext wrapAnsi indentString t w
     = concat (map (fun l =>
                      map (fun r => (r, force l))
                        (Js.splitLines
                           (indentString
                              (wrapAnsi (withSpinner t (nextSpinner t) l) w)
                              (indent l))))
                   (nextRender t)).
Proof.
  repeat split.
  - intros glyph l H. unfold withSpinner, replace. by rewrite H.
  - intros glyph l before after Htext Hpos Hplain.
    unfold withSpinner, replace. rewrite Hpos. unfold Js.len.
    rewrite (proj2 (Z.ltb_ge _ _)) by lia.
    rewrite Nat2Z.id, Htext, take_app_length.
    rewrite substitution_plain by done.
    by rewrite <- drop_drop, !drop_app_length.
  - unfold buildPrevious, rows. by rewrite fold_app_concat.
  - unfold buildNext, rows. by rewrite fold_app_concat.
Qed.

(** A witness of C8: a spinner in the middle of a line. *)
Lemma first_spinner_replaced_witness :
  let t := created (str "-") (mkSize 80 30) in
  let l := mkLine (str "ab _*_ cd") 0 false in
  withSpinner t (str "-") l = str "ab " ++ cyan (str "-") ++ str " cd".
Proof.
  intros t l.
  apply (proj1 (proj2 (first_spinner_replaced (fun s _ => s) (fun s _ => s) t 80))
           (str "-") l (str "ab ") (str " cd")).
  - reflexivity.
  - reflexivity.
  - vm_compute. intros H. repeat (inversion H as [|? ? ? H']; clear H; rename H' into H; subst).
Defined.

(** The messages of the examples go to a worker whose wrapper and
    indenter return their argument: so do wrap-ansi and indent-string on
    the one-character lines below, which fit the terminal and are not
    indented. *)
Lemma append_message_example :
  let worker := onMessage (fun s _ => s) (fun s _ => s) false in
  let t0 := created (str "-") (mkSize 80 30) in
  let t1 := fst (worker t0 (mkMessage (START None) "1")) in
  let t2 := fst (worker t1 (mkMessage (UPDATE (CString (str "a"))) "2")) in
  let t3 := fst (worker t2 (mkMessage (APPEND (CString (str "b"))) "3")) in
  nextRender t2 = [mkLine (str "a") 0 false]
  /\ nextRender t3 = [mkLine (str "b") 0 false].
Proof. vm_compute. done. Qed.

(** A session that repaints on resize shows x; the terminal grows from
    80 to 100 columns; the session is stopped with commit.  A render at
    that point would move to the start of the line, erase the screen and
    write x again; [stop] writes a line feed and the show-cursor sequence
    only. *)
Lemma stop_commit_example :
  let worker := onMessage (fun s _ => s) (fun s _ => s) false in
  let t0 := created (str "-") (mkSize 80 30) in
  let options := mkOptions None None None None (Some true) in
  let t1 := fst (worker t0 (mkMessage (START (Some options)) "1")) in
  let t2 := fst (worker t1 (mkMessage (UPDATE (CString (str "x"))) "2")) in
  let t3 := resize t2 (mkSize 100 30) in
  let t4 := fst (worker t3 (mkMessage (STOP (Some true)) "3")) in
  stdout (render (fun s _ => s) (fun s _ => s) false t3)
    = stdout t3 ++ [["013"%char]; Ansi.eraseDown; str "x"]
  /\ stdout t4 = stdout t3 ++ [["010"%char]; Ansi.cursorShow].
Proof. vm_compute. done. Qed.

End ThreadFacts.

(** ** The command channel *)
Module ChannelFacts.

Import DynamicTerminalThread DynamicTerminal.

(** C4. The worker answers a RENDER_QUEUE message with the status
    renderQueue, its queue as data, and leaves its state as it was; the
    caller's [getRenderQueue] accepts the status rendered only, so it
    returns the empty list whatever the queue holds. *)
Theorem getRenderQueue_always_empty
    (wrapAnsi indentString : jstring -> nat -> jstring) (debugEnabled : bool)
    (me : Caller) (t : Thread) (uid : string) :
  onMessage wrapAnsi indentString debugEnabled t (mkMessage RENDER_QUEUE uid)
    = (t, Some (mkResponse "renderQueue" (Some (nextRender t)) uid))
  /\ snd (getRenderQueue wrapAnsi indentString debugEnabled me t uid)
     = Some (Some []).
Proof.
  split; [reflexivity|].
  unfold getRenderQueue. destruct (worker me); [|reflexivity].
  cbn. unfold handler. cbn. rewrite bool_decide_eq_true_2 by done.
  reflexivity.
Qed.



(** When the callback of [worker.send] reports an error, the promise is
    rejected with it; the timer, still pending, later sets the last error
    and leaves the outcome as it is. *)
Lemma send_error_rejects (me : Caller) (command : Command) (uid err : string) :
  run (me, fst (send command uid defaultTimeout)) [SendFailed err; TimerExpired]
  = (mkCaller (Some "Communication timeout"%string) (worker me),
     mkCall uid defaultTimeout false false (Some (Rejected err))).
Proof. reflexivity. Qed.




(** After an update with the line a, the worker's queue holds that
    line, and [getRenderQueue] returns the empty list. *)
Lemma getRenderQueue_example :
  let worker := onMessage (fun s _ => s) (fun s _ => s) false in
  let t0 := created (str "-") (mkSize 80 30) in
  let t1 := fst (worker t0 (mkMessage (START None) "1")) in
  let t2 := fst (worker t1 (mkMessage (UPDATE (CString (str "a"))) "2")) in
  getLines t2 = [mkLine (str "a") 0 false]
  /\ snd (getRenderQueue (fun s _ => s) (fun s _ => s) false
                         (mkCaller None true) t2 "3")
     = Some (Some []).
Proof. vm_compute. done. Qed.

End ChannelFacts.

(** ** Strings, tokens and the index of codes *)
Module IndexFacts.

Import ChangeAlgorithm Invariants.

(** The tokens of a string, put together again, give the string. *)
Lemma flatten_scan (s : jstring) : forall k, flatten (Ansi.scan k s) = drop k s.
Proof.
  induction s as [|c r IH]; intros k; [by destruct k|].
  destruct k as [|k]; cbn [Ansi.scan]; [|by rewrite IH].
  destruct (Ansi.matchAt (c :: r)) as [[|n]|] eqn:Hm.
  - unfold flatten. cbn. fold (flatten (Ansi.scan 0 r)). by rewrite IH.
  - unfold flatten. cbn [map concat]. fold (flatten (Ansi.scan n r)).
    rewrite IH. change (drop n r) with (drop (S n) (c :: r)).
    by rewrite take_drop.
  - unfold flatten. cbn. fold (flatten (Ansi.scan 0 r)). by rewrite IH.
Qed.

Lemma flatten_tokens (s : jstring) : flatten (Ansi.tokens s) = s.
Proof. apply (flatten_scan s 0). Qed.

Lemma flatten_app ts1 ts2 : flatten (ts1 ++ ts2) = flatten ts1 ++ flatten ts2.
Proof. unfold flatten. by rewrite map_app, concat_app. Qed.

Lemma startsWith_app pat rest : Js.startsWith pat (pat ++ rest) = true.
Proof.
  induction pat as [|a pat IH]; [done|].
  cbn. by rewrite bool_decide_eq_true_2, IH.
Qed.

Lemma indexOfFrom_eq pat s i :
  Js.indexOfFrom pat s i
  = if Js.startsWith pat s then Z.of_nat i
    else match s with
         | [] => (-1)%Z
         | _ :: s' => Js.indexOfFrom pat s' (S i)
         end.
Proof. by destruct s. Qed.

(** [indexOf] finds a pattern no later than a place where it stands. *)
Lemma indexOfFrom_bound pat rest X : forall i,
  (Z.of_nat i <= Js.indexOfFrom pat (X ++ pat ++ rest) i <= Z.of_nat (i + length X))%Z.
Proof.
  induction X as [|x X IH]; intros i; rewrite indexOfFrom_eq.
  - cbn [app]. rewrite startsWith_app. cbn. lia.
  - cbn [app].
    destruct (Js.startsWith pat (x :: X ++ pat ++ rest)); [cbn; lia|].
    specialize (IH (S i)). cbn [length]. lia.
Qed.

Lemma slice_take (s : jstring) (p : Z) :
  (0 <= p <= Js.len s)%Z -> Js.slice s 0 p = take (Z.to_nat p) s.
Proof.
  intros Hp. unfold Js.slice, Js.relIndex, Js.len in *.
  rewrite (proj2 (Z.ltb_ge 0 0)) by lia.
  rewrite (proj2 (Z.ltb_ge p 0)) by lia.
  rewrite !Z.min_l by lia.
  replace (Z.to_nat 0) with 0%nat by lia. cbn [drop].
  by rewrite Z.sub_0_r.
Qed.

Lemma sliceFrom_drop (s : jstring) (p : Z) :
  (0 <= p <= Js.len s)%Z -> Js.sliceFrom s p = drop (Z.to_nat p) s.
Proof.
  intros Hp. unfold Js.sliceFrom, Js.slice, Js.relIndex, Js.len in *.
  rewrite (proj2 (Z.ltb_ge p 0)) by lia.
  assert (Hn : (Z.of_nat (length s) <? 0)%Z = false) by lia.
  rewrite Hn, !Z.min_l by lia.
  apply take_ge. rewrite length_drop. lia.
Qed.

(** One round of the [forEach] loop when the code stands in the string
    after [X]: some occurrence of the code at or before that place is cut
    out, and what follows the code is kept. *)
Lemma recordCode_stripped (st : CodeIndex) (X code rest : jstring) :
  stripped st = X ++ code ++ rest ->
  exists X', stripped (recordCode st code) = X' ++ rest
             /\ length X' = length X.
Proof.
  intros Hs. unfold recordCode. cbn [stripped]. rewrite Hs.
  pose proof (indexOfFrom_bound code rest X 0) as Hb.
  fold (Js.indexOf (X ++ code ++ rest) code) in Hb.
  set (p := Js.indexOf (X ++ code ++ rest) code) in *.
  assert (Hlen : Js.len (X ++ code ++ rest)
                 = (Z.of_nat (length X) + Js.len code + Js.len rest)%Z).
  { unfold Js.len. rewrite !length_app. lia. }
  rewrite slice_take by (unfold Js.len in *; lia).
  rewrite sliceFrom_drop by (unfold Js.len in *; lia).
  exists (take (Z.to_nat p) (X ++ code ++ rest)
          ++ drop (Z.to_nat (p + Js.len code)) (X ++ code)).
  split.
  - rewrite <- app_assoc. f_equal.
    rewrite (app_assoc X code rest).
    rewrite drop_app_le; [done|].
    rewrite length_app. unfold Js.len. lia.
  - rewrite length_app, length_take, length_drop, !length_app.
    unfold Js.len in *. lia.
Qed.

Lemma indexCodes_stripped_length ts : forall st X,
  stripped st = X ++ flatten ts ->
  length (stripped (fold_left recordCode (omap Ansi.codeOf ts) st))
  = (length X + length (omap Ansi.charOf ts))%nat.
Proof.
  induction ts as [|[code|c] ts IH]; intros st X Hs.
  - cbn. rewrite Hs. unfold flatten. cbn. rewrite app_nil_r. lia.
  - cbn -[recordCode flatten].
    change (flatten (Ansi.Code code :: ts)) with (code ++ flatten ts) in Hs.
    destruct (recordCode_stripped st X code (flatten ts) Hs) as (X' & HX' & Hl).
    rewrite (IH _ X' HX'). lia.
  - cbn -[recordCode flatten].
    change (flatten (Ansi.Chr c :: ts)) with ([c] ++ flatten ts) in Hs.
    rewrite app_assoc in Hs. rewrite (IH _ _ Hs).
    rewrite length_app. cbn. lia.
Qed.

(** The string stripped by the loops of [getChanges] is as long as the
    one [stripAnsi] returns. *)
Lemma stripped_length (s : jstring) :
  length (stripped (indexCodes s)) = length (Ansi.stripAnsi s).
Proof.
  unfold indexCodes, Ansi.ansiCodes, Ansi.stripAnsi.
  rewrite (indexCodes_stripped_length (Ansi.tokens s) _ []); [done|].
  cbn. by rewrite flatten_tokens.
Qed.

End IndexFacts.

(** ** The scan loop of the change algorithm *)
Module ScanFacts.

Import ChangeAlgorithm Row Invariants IndexFacts.

Lemma extend_fields tgt c i :
  line (extend tgt c i) = line c /\ index (extend tgt c i) = index c.
Proof. unfold extend. by case_match. Qed.

Lemma push_inv ln i changes c s :
  Forall (fun c => line c = ln /\ (index c < i)%nat) changes ->
  StronglySorted lt (map index changes) ->
  line c = ln -> (index c < i)%nat ->
  Forall (fun c' => (index c' < index c)%nat) changes ->
  ScanInv ln i (pushIfUseful changes (addText c s), None).
Proof.
  intros Hall Hsort Hl Hi Hbelow. unfold pushIfUseful.
  destruct (useful (addText c s)); [|done].
  split; [|split; [|done]]; cbn.
  - apply Forall_app. split; [done|]. by apply Forall_singleton.
  - rewrite map_app. apply StronglySorted_app_2.
    + intros x y [c1 [-> Hc1]]%list_elem_of_fmap Hy.
      apply list_elem_of_singleton in Hy as ->. cbn.
      rewrite Forall_forall in Hbelow. by apply Hbelow.
    + done.
    + cbn. repeat constructor.
Qed.

Lemma ScanInv_step org tgt ln i st :
  ScanInv ln i st -> ScanInv ln (S i) (scanStep org tgt ln st i).
Proof.
  destruct st as [changes buf]. unfold ScanInv. cbn [fst snd].
  intros (Hall & Hsort & Hbuf).
  assert (Hall' : Forall (fun c => line c = ln /\ (index c < S i)%nat) changes).
  { eapply Forall_impl; [done|]. cbn. intros c [? ?]. split; [done|lia]. }
  assert (Hext : forall c, buf = Some c ->
     Forall (fun c0 => line c0 = ln /\ (index c0 < S i)%nat) changes
     /\ StronglySorted lt (map index changes)
     /\ line (extend tgt c i) = ln /\ (index (extend tgt c i) < S i)%nat
        /\ Forall (fun c' => (index c' < index (extend tgt c i))%nat) changes).
  { intros c ->. destruct (extend_fields tgt c i) as [-> ->].
    destruct Hbuf as (? & ? & ?). repeat split; try done. lia. }
  unfold scanStep.
  destruct (divergent org tgt i), buf as [c|]; cbn [fst snd].
  - by apply Hext.
  - split; [done|]. split; [done|]. cbn. split; [done|]. split; [lia|].
    eapply Forall_impl; [exact Hall|]. cbn. by intros c [? ?].
  - destruct (nextDiffers org tgt i); cbn [fst snd]; [by apply Hext|].
    destruct Hbuf as (? & ? & ?).
    apply push_inv; try done. lia.
  - done.
Qed.

Lemma ScanInv_loop org tgt ln n :
  ScanInv ln n (fold_left (scanStep org tgt ln) (seq 0 n) ([], None)).
Proof.
  induction n as [|n IH].
  - repeat split; cbn; constructor.
  - rewrite seq_S, fold_left_app. cbn [fold_left plus].
    by apply ScanInv_step.
Qed.

(** The changes when the loop and the closing of the last change are
    done. *)
Lemma closeAtEnd_inv tgt ln n st :
  ScanInv ln n st ->
  Forall (fun c => line c = ln /\ (index c < n)%nat) (closeAtEnd tgt st)
  /\ StronglySorted lt (map index (closeAtEnd tgt st)).
Proof.
  destruct st as [changes [c|]]; intros (Hall & Hsort & Hbuf); cbn in *;
    [|done].
  destruct Hbuf as (Hl & Hi & Hbelow).
  assert (H : forall c', line c' = ln -> index c' = index c ->
               ScanInv ln n (pushIfUseful changes c', None)).
  { intros [l' i' t'] Hl' Hi'. cbn in *. subst.
    apply (push_inv (line c) n changes {| line := line c; index := index c; text := t' |} []
             Hall Hsort eq_refl Hi) in Hbelow.
    unfold addText in Hbelow. cbn in Hbelow. by rewrite app_nil_r in Hbelow. }
  case_match.
  - destruct (H (addText c (Js.toStr (codeMap tgt !! Js.len (stripped tgt))))
                Hl eq_refl) as (? & ? & _); done.
  - destruct (H c Hl eq_refl) as (? & ? & _); done.
Qed.

(** Appending to the last change keeps the lines and columns; without
    changes, the fresh one is the result. *)
Lemma appendToLast_spec changes s fresh :
  (changes = [] /\ appendToLast changes s fresh = [fresh])
  \/ (exists before c,
         changes = before ++ [c]
         /\ appendToLast changes s fresh = before ++ [addText c s]).
Proof.
  unfold appendToLast.
  destruct (rev changes) as [|c before] eqn:Hrev.
  - left. split; [|done]. by rewrite <- (rev_involutive changes), Hrev.
  - right. exists (rev before), c. split; [|done].
    by rewrite <- (rev_involutive changes), Hrev.
Qed.

(** The lines of the changes, their columns in increasing order, and the
    bound on the columns. *)
Lemma getChanges_shape (original target : jstring) (ln : nat) :
  Forall (fun c => line c = ln
                   /\ (index c <= length (Ansi.stripAnsi target))%nat)
         (getChanges original target ln)
  /\ StronglySorted lt (map index (getChanges original target ln)).
Proof.
  unfold getChanges.
  destruct (bool_decide (original = target)); [split; constructor|].
  destruct (Js.isEmpty original).
  { split; repeat constructor; cbn; lia. }
  destruct (Js.isEmpty target).
  { split; repeat constructor; cbn; lia. }
  set (org := indexCodes original). set (tgt := indexCodes target).
  pose proof (ScanInv_loop org tgt ln (length (stripped tgt))) as Hinv.
  apply (closeAtEnd_inv tgt) in Hinv.
  set (cs := closeAtEnd tgt _) in *. destruct Hinv as (Hall & Hsort).
  rewrite <- (stripped_length target). fold tgt.
  unfold eraseIfShorter. case_match.
  - destruct (appendToLast_spec cs ERASE_LINE_END
                {| line := ln; index := length (stripped tgt);
                   text := ERASE_LINE_END |})
      as [[-> ->]|(before & c & Hcs & ->)].
    + split; repeat constructor.
    + rewrite Hcs in Hall, Hsort.
      rewrite map_app in *. cbn in *. split; [|done].
      apply Forall_app in Hall as [Hb Hc]. apply Forall_app. split.
      * eapply Forall_impl; [done|]. cbn. intros ? [? ?]. split; [done|lia].
      * apply Forall_singleton in Hc as [? ?].
        apply Forall_singleton. cbn. split; [done|lia].
  - split; [|done].
    eapply Forall_impl; [done|]. cbn. intros ? [? ?]. split; [done|lia].
Qed.

(** C5. When the stripped target is strictly shorter than the stripped
    original, the list of changes is not empty and the text of its last
    change ends with the erase-to-end-of-line sequence; from abcdef to
    abc the list is the single change that erases from column 3. *)
Theorem shorter_target_erases (original target : jstring) (ln : nat) :
  (length (Ansi.stripAnsi target) < length (Ansi.stripAnsi original))%nat ->
  (exists before c t,
      getChanges original target ln = before ++ [c]
      /\ text c = t ++ ERASE_LINE_END)
  /\ getChanges (str "abcdef") (str "abc") 0
     = [{| line := 0; index := 3; text := ERASE_LINE_END |}].
Proof.
  intros Hlt. split; [|vm_compute; reflexivity].
  unfold getChanges.
  destruct (bool_decide (original = target)) eqn:Heq.
  { apply bool_decide_eq_true in Heq. subst. lia. }
  destruct original as [|a original']; [cbn in Hlt; lia|].
  cbn [Js.isEmpty].
  destruct (Js.isEmpty target).
  { exists [], {| text := ERASE_LINE_END; index := 0; line := ln |}, []. done. }
  set (org := indexCodes (a :: original')). set (tgt := indexCodes target).
  unfold eraseIfShorter.
  rewrite <- !stripped_length in Hlt. fold org tgt in Hlt.
  rewrite (proj2 (Nat.ltb_lt _ _)) by done.
  match goal with
  | |- context [appendToLast ?cs ?s ?fresh] =>
      destruct (appendToLast_spec cs s fresh)
        as [[_ ->]|(before & c & _ & ->)]
  end.
  - by exists [], {| line := ln; index := length (stripped tgt);
                    text := ERASE_LINE_END |}, [].
  - by exists before, (addText c ERASE_LINE_END), (text c).
Qed.

(** A witness of C5: from abcdef to abc. *)
Lemma shorter_target_erases_witness :
  (exists before c t,
      getChanges (str "abcdef") (str "abc") 0 = before ++ [c]
      /\ text c = t ++ ERASE_LINE_END)
  /\ getChanges (str "abcdef") (str "abc") 0
     = [{| line := 0; index := 3; text := ERASE_LINE_END |}].
Proof.
  apply (shorter_target_erases (str "abcdef") (str "abc") 0).
  vm_compute. lia.
Defined.

(** The changes of one row of a render are on that row. *)
Lemma lineChanges_line previousLines k nextLine :
  Forall (fun c => line c = k)
         (DynamicTerminalThread.lineChanges previousLines k nextLine).
Proof.
  unfold DynamicTerminalThread.lineChanges. destruct (snd nextLine).
  - by repeat constructor.
  - eapply Forall_impl; [apply getChanges_shape|]. cbn. by intros ? [? ?].
Qed.

Lemma collectChanges_sorted previousLines nextLines : forall k acc,
  Forall (fun c => (line c < k)%nat) acc ->
  StronglySorted le (map line acc) ->
  StronglySorted le
    (map line (DynamicTerminalThread.collectChanges previousLines k nextLines acc)).
Proof.
  induction nextLines as [|nl rest IH]; intros k acc Hall Hsort; cbn; [done|].
  pose proof (lineChanges_line previousLines k nl) as Hk.
  apply IH.
  - apply Forall_app. split.
    + eapply Forall_impl; [done|]. cbn. lia.
    + eapply Forall_impl; [done|]. cbn. lia.
  - rewrite map_app. apply StronglySorted_app_2; [|done|].
    + intros x y [c1 [-> Hc1]]%list_elem_of_fmap [c2 [-> Hc2]]%list_elem_of_fmap.
      rewrite Forall_forall in Hall, Hk.
      specialize (Hall _ Hc1). specialize (Hk _ Hc2). lia.
    + clear -Hk. induction Hk as [|c cs Hc Hcs IHk]; cbn; constructor; [done|].
      apply Forall_fmap. eapply Forall_impl; [exact Hcs|]. cbn. lia.
Qed.

(** C9, as the claim states it: the first change from abcdefgh to the
    target XbcYef, a red code, gh writes the columns 0 to 5 (it runs on to
    the next code of the target), and the second starts at column 3. *)
Lemma changes_can_overlap :
  let red := Ansi.ESC :: str "[31m" in
  let c1 := {| line := 0; index := 0;
               text := RESET_STYLE ++ str "XbcYef" ++ red |} in
  let c2 := {| line := 0; index := 3;
               text := RESET_STYLE ++ str "Yef" ++ red |} in
  let c3 := {| line := 0; index := 6; text := red ++ str "g" |} in
  getChanges (str "abcdefgh") (str "XbcYef" ++ red ++ str "gh") 0 = [c1; c2; c3]
  /\ overlap c1 c2.
Proof.
  split; [vm_compute; reflexivity|]. unfold overlap. vm_compute. lia.
Qed.

(** C9, amended. The changes of one render are ordered by ascending
    line.  The changes [getChanges] returns all carry the given line,
    start at strictly increasing columns, and no column exceeds the length
    of the stripped target.  (Their spans may overlap: a change that runs
    on to the next code of the target can cover columns that a later
    change writes again.) *)
Theorem changes_ordered :
  (forall previousLines nextLines,
      StronglySorted le
        (map line (DynamicTerminalThread.renderChanges previousLines nextLines)))
  /\ (forall original target ln,
        Forall (fun c => line c = ln
                         /\ (index c <= length (Ansi.stripAnsi target))%nat)
               (getChanges original target ln)
        /\ StronglySorted lt (map index (getChanges original target ln))).
Proof.
  split; [|apply getChanges_shape].
  intros previousLines nextLines. unfold DynamicTerminalThread.renderChanges.
  pose proof (collectChanges_sorted previousLines nextLines 0 []
                (Forall_nil_2 _) (SSorted_nil _)) as Hs.
  case_match; [|done].
  match goal with
  | |- context [appendToLast ?cs ?s ?fresh] =>
      destruct (appendToLast_spec cs s fresh)
        as [[_ ->]|(before & c & Hcs & ->)]
  end.
  - repeat constructor.
  - rewrite Hcs in Hs. by rewrite map_app in *.
Qed.

End ScanFacts.

(** ** The pattern on well-formed styled strings *)
Module StyledFacts.

Import ChangeAlgorithm Row Invariants IndexFacts.

Lemma belTerminated_none r : forall b,
  Ansi.BEL ∉ r -> Ansi.belTerminated b r = None.
Proof.
  induction r as [|c r IH]; intros b Hno; [done|].
  assert (Hc : c <> Ansi.BEL) by (intros ->; apply Hno; by left).
  assert (Hr : Ansi.BEL ∉ r) by (intros ?; apply Hno; by right).
  cbn [Ansi.belTerminated]. rewrite !IH by done.
  rewrite (bool_decide_eq_false_2 _ Hc). cbn. by repeat case_match.
Qed.

Lemma sgrParams_match rest r : forall d,
  sgrParams d r = true ->
  Ansi.paramsThenFinal d (r ++ rest) = Some (length r).
Proof.
  induction r as [|c r IH]; intros d H; [done|].
  cbn [sgrParams] in H. cbn [app Ansi.paramsThenFinal length].
  destruct (bool_decide (c = "m"%char)) eqn:Hm.
  - apply bool_decide_eq_true in Hm as ->. destruct r; [|done].
    cbn. by destruct d.
  - destruct (Ansi.isDigit c) eqn:Hd.
    + destruct d as [|d]; [done|]. by rewrite (IH d H).
    + apply andb_prop in H as [Hs H]. rewrite Hs, (IH _ H).
      cbn. by destruct d.
Qed.

Lemma sgrParams_noBEL r : forall d, sgrParams d r = true -> Ansi.BEL ∉ r.
Proof.
  induction r as [|c r IH]; intros d H; [by intros ?%elem_of_nil|].
  cbn [sgrParams] in H. intros [<-|Hin]%elem_of_cons.
  - by vm_compute in H.
  - destruct (bool_decide (c = "m"%char)).
    + destruct r; [by apply elem_of_nil in Hin|done].
    + destruct (Ansi.isDigit c).
      * destruct d as [|d]; [done|]. by apply (IH d).
      * apply andb_prop in H as [_ H]. by apply (IH 4%nat).
Qed.

Lemma afterIntroducer_cons c r :
  Ansi.afterIntroducer (c :: r)
  = Ansi.orElse (if Ansi.isIntro c then S <$> Ansi.afterIntroducer r else None)
                (Ansi.orElse (Ansi.belTerminated false (c :: r))
                             (Ansi.csiSequence (c :: r))).
Proof. reflexivity. Qed.

Lemma digit_not_intro c : Ansi.isDigit c = true -> Ansi.isIntro c = false.
Proof.
  destruct c as [[|] [|] [|] [|] [|] [|] [|] [|]]; vm_compute; congruence.
Qed.

(** On a style sequence followed by text without BEL, the pattern
    matches the sequence and nothing more. *)
Lemma matchAt_sgr code rest :
  isSgr code = true -> Ansi.BEL ∉ rest ->
  Ansi.matchAt (code ++ rest) = Some (length code).
Proof.
  destruct code as [|e [|b [|c r]]]; try done. cbn [isSgr].
  intros H Hrest.
  apply andb_prop in H as [H Hbody]. apply andb_prop in H as [He Hb].
  apply bool_decide_eq_true in He as ->. apply bool_decide_eq_true in Hb as ->.
  assert (Hbel : Ansi.BEL ∉ c :: r ++ rest).
  { intros [<-|[Hin'|Hin']%elem_of_app]%elem_of_cons; [| |done].
    - by vm_compute in Hbody.
    - destruct (bool_decide (c = "m"%char)).
      + destruct r; [by apply elem_of_nil in Hin'|done].
      + apply andb_prop in Hbody as [_ Hbody].
        by apply (sgrParams_noBEL r 3%nat). }
  assert (Hinner : Ansi.afterIntroducer (c :: r ++ rest) = Some (S (length r))).
  { rewrite afterIntroducer_cons, belTerminated_none by done.
    destruct (bool_decide (c = "m"%char)) eqn:Hm.
    - apply bool_decide_eq_true in Hm as ->. destruct r; [|done].
      reflexivity.
    - apply andb_prop in Hbody as [Hd Hp].
      rewrite (digit_not_intro c Hd).
      cbn [Ansi.orElse Ansi.csiSequence]. rewrite Hd.
      by rewrite (sgrParams_match rest r 3%nat Hp). }
  cbn [app Ansi.matchAt]. rewrite bool_decide_eq_true_2 by done.
  cbn [orb length]. rewrite afterIntroducer_cons.
  change (Ansi.isIntro "["%char) with true. cbv iota.
  rewrite Hinner. reflexivity.
Qed.

Lemma matchAt_plain c r : plain c = true -> Ansi.matchAt (c :: r) = None.
Proof.
  unfold plain. intros H.
  apply andb_prop in H as [H _]. apply andb_prop in H as [H1 H2].
  cbn. apply negb_true_iff in H1, H2. by rewrite H1, H2.
Qed.

Lemma scan_skip l rest : Ansi.scan (length l) (l ++ rest) = Ansi.scan 0 rest.
Proof. induction l as [|x l IH]; [done|]. cbn. exact IH. Qed.

Lemma isSgr_noBEL code : isSgr code = true -> Ansi.BEL ∉ code.
Proof.
  destruct code as [|e [|b [|c r]]]; try done. cbn [isSgr].
  intros H.
  apply andb_prop in H as [H Hbody]. apply andb_prop in H as [He Hb].
  apply bool_decide_eq_true in He as ->. apply bool_decide_eq_true in Hb as ->.
  intros [E|[E|[<-|Hin]%elem_of_cons]%elem_of_cons]%elem_of_cons;
    [done|done| |].
  - by vm_compute in Hbody.
  - destruct (bool_decide (c = "m"%char)).
    + destruct r; [by apply elem_of_nil in Hin|done].
    + apply andb_prop in Hbody as [_ Hbody].
      by apply (sgrParams_noBEL r 3%nat).
Qed.

Lemma tokensOk_noBEL ts :
  Forall (fun t => tokenOk t = true) ts -> Ansi.BEL ∉ flatten ts.
Proof.
  induction 1 as [|[code|c] ts Ht _ IH]; [by intros ?%elem_of_nil| |].
  - change (flatten (Ansi.Code code :: ts)) with (code ++ flatten ts).
    intros [?|?]%elem_of_app; [by apply (isSgr_noBEL code)|done].
  - change (flatten (Ansi.Chr c :: ts)) with (c :: flatten ts).
    intros [<-|?]%elem_of_cons; [|done]. by vm_compute in Ht.
Qed.

(** Well-formed tokens, written out and scanned again, come back. *)
Lemma tokens_flatten ts :
  Forall (fun t => tokenOk t = true) ts -> Ansi.tokens (flatten ts) = ts.
Proof.
  induction 1 as [|[code|c] ts Ht Hts IH]; [done| |].
  - change (flatten (Ansi.Code code :: ts)) with (code ++ flatten ts).
    pose proof (matchAt_sgr code (flatten ts) Ht (tokensOk_noBEL ts Hts)) as Hm.
    destruct code as [|e code]; [done|].
    unfold Ansi.tokens. cbn [app Ansi.scan]. cbn [app length] in Hm.
    rewrite Hm. f_equal.
    + f_equal. cbn [take]. by rewrite take_app_length.
    + rewrite scan_skip. exact IH.
  - change (flatten (Ansi.Chr c :: ts)) with (c :: flatten ts).
    unfold Ansi.tokens. cbn [Ansi.scan]. rewrite matchAt_plain by done.
    f_equal. exact IH.
Qed.

(** The same with more text behind, as long as that holds no BEL. *)
Lemma tokens_flatten_app ts rest :
  Forall (fun t => tokenOk t = true) ts -> Ansi.BEL ∉ rest ->
  Ansi.tokens (flatten ts ++ rest) = ts ++ Ansi.tokens rest.
Proof.
  intros Hts Hrest. induction Hts as [|[code|c] ts Ht Hts IH]; [done| |].
  - change (flatten (Ansi.Code code :: ts)) with (code ++ flatten ts).
    rewrite <- app_assoc.
    assert (Hbel : Ansi.BEL ∉ flatten ts ++ rest).
    { intros [?|?]%elem_of_app; [by apply (tokensOk_noBEL ts)|done]. }
    pose proof (matchAt_sgr code (flatten ts ++ rest) Ht Hbel) as Hm.
    destruct code as [|e code]; [done|].
    unfold Ansi.tokens. cbn [app Ansi.scan]. cbn [app length] in Hm.
    rewrite Hm. f_equal.
    + f_equal. cbn [take]. by rewrite take_app_length.
    + rewrite scan_skip. exact IH.
  - change (flatten (Ansi.Chr c :: ts)) with (c :: flatten ts).
    unfold Ansi.tokens. cbn [app Ansi.scan]. rewrite matchAt_plain by done.
    f_equal. exact IH.
Qed.

Lemma wellStyled_tokens s :
  wellStyled s = true -> Forall (fun t => tokenOk t = true) (Ansi.tokens s).
Proof.
  unfold wellStyled. intros H. apply Forall_forall. intros t Ht.
  rewrite forallb_forall in H. by apply H, list_elem_of_In.
Qed.

End StyledFacts.

(** ** The index of codes of a well-formed styled string *)
Module StyledIndexFacts.

Import ChangeAlgorithm Row Invariants IndexFacts StyledFacts.

Lemma indexOfFrom_exact code rest X : forall i,
  Forall (fun c => plain c = true) X -> isSgr code = true ->
  Js.indexOfFrom code (X ++ code ++ rest) i = Z.of_nat (i + length X).
Proof.
  intros i HX Hcode. revert i.
  induction HX as [|x X Hx _ IH]; intros i; rewrite indexOfFrom_eq.
  - cbn [app]. rewrite startsWith_app. cbn. f_equal. lia.
  - destruct code as [|e code]; [done|].
    assert (He : e = Ansi.ESC).
    { destruct code as [|? [|? ?]]; try done. cbn in Hcode.
      apply andb_prop in Hcode as [Hc _]. apply andb_prop in Hc as [Hc _].
      by apply bool_decide_eq_true in Hc. }
    subst e. cbn [app Js.startsWith].
    rewrite bool_decide_eq_false_2.
    + cbn [andb]. rewrite IH. cbn [length]. f_equal. lia.
    + intros <-. by vm_compute in Hx.
Qed.

Lemma recordCode_exact (st : CodeIndex) (X code rest : jstring) :
  stripped st = X ++ code ++ rest ->
  Forall (fun c => plain c = true) X -> isSgr code = true ->
  stripped (recordCode st code) = X ++ rest.
Proof.
  intros Hs HX Hcode. unfold recordCode. cbn [stripped]. rewrite Hs.
  unfold Js.indexOf. rewrite (indexOfFrom_exact code rest X 0 HX Hcode).
  cbn [plus].
  rewrite slice_take, sliceFrom_drop;
    [|unfold Js.len; rewrite !length_app; lia..].
  rewrite Nat2Z.id, take_app_length. f_equal.
  unfold Js.len. rewrite <- Nat2Z.inj_add, Nat2Z.id.
  rewrite <- drop_drop, drop_app_length. apply drop_app_length.
Qed.

Lemma indexCodes_exact ts : forall st X,
  stripped st = X ++ flatten ts ->
  Forall (fun c => plain c = true) X ->
  Forall (fun t => tokenOk t = true) ts ->
  stripped (fold_left recordCode (omap Ansi.codeOf ts) st)
  = X ++ omap Ansi.charOf ts.
Proof.
  induction ts as [|[code|c] ts IH]; intros st X Hs HX Hts.
  - cbn. rewrite Hs. unfold flatten. cbn. done.
  - cbn -[recordCode flatten].
    change (flatten (Ansi.Code code :: ts)) with (code ++ flatten ts) in Hs.
    apply Forall_cons in Hts as [Hc Hts].
    apply IH; [|done..]. by apply recordCode_exact.
  - cbn -[recordCode flatten].
    change (flatten (Ansi.Chr c :: ts)) with ([c] ++ flatten ts) in Hs.
    apply Forall_cons in Hts as [Hc Hts].
    rewrite app_assoc in Hs. rewrite (IH _ _ Hs); [| |done].
    + by rewrite <- app_assoc.
    + apply Forall_app. split; [done|]. by apply Forall_singleton.
Qed.

Lemma recordCode_map st code :
  let p := Js.indexOf (stripped st) code in
  exists v, codeMap (recordCode st code) = <[p := v]> (codeMap st)
            /\ (v = code
                \/ exists old, codeMap st !! p = Some old /\ v = old ++ code).
Proof.
  intros p. unfold recordCode. fold p. cbn [codeMap].
  destruct (codeMap st !! p) as [[|o old]|] eqn:Hold; cbn.
  - exists code. auto.
  - exists ((o :: old) ++ code). split; [done|]. right. by exists (o :: old).
  - exists code. auto.
Qed.

Lemma recordCode_array st code q :
  q ∈ codeArray (recordCode st code) ->
  q ∈ codeArray st \/ q = Js.indexOf (stripped st) code.
Proof.
  unfold recordCode. cbn [codeArray]. case_match; [|by left].
  intros [?|?%list_elem_of_singleton]%elem_of_app; auto.
Qed.

Lemma recordCode_clean st code :
  isSgr code = true -> Clean st -> Clean (recordCode st code).
Proof.
  intros Hcode [Hcov Hval].
  destruct (recordCode_map st code) as (v & Hmap & Hv).
  set (p := Js.indexOf (stripped st) code) in *.
  assert (Hclean : CodesOnly v).
  { destruct Hv as [->|(old & Hold & ->)].
    - exists [code]. split; [by repeat constructor|]. cbn.
      by rewrite app_nil_r.
    - destruct (Hval p _ Hold) as (cs & Hcs & ->).
      exists (cs ++ [code]). split.
      + apply Forall_app. split; [done|by repeat constructor].
      + rewrite concat_app. cbn. by rewrite app_nil_r. }
  split; rewrite Hmap.
  - intros q Hq%recordCode_array. fold p in Hq.
    destruct (decide (q = p)) as [->|Hne].
    + rewrite lookup_insert_eq. eauto.
    + rewrite lookup_insert_ne by done. apply Hcov. by destruct Hq.
  - intros q w. destruct (decide (q = p)) as [->|Hne].
    + rewrite lookup_insert_eq. by intros [= <-].
    + rewrite lookup_insert_ne by done. apply Hval.
Qed.

Lemma fold_clean codes : forall st,
  Forall (fun c => isSgr c = true) codes -> Clean st ->
  Clean (fold_left recordCode codes st).
Proof.
  induction codes as [|c codes IH]; intros st Hc Hst; [done|].
  apply Forall_cons in Hc as [? ?]. cbn [fold_left].
  apply IH; [done|]. by apply recordCode_clean.
Qed.

Lemma tokens_codes_chars ts :
  Forall (fun t => tokenOk t = true) ts ->
  Forall (fun c => isSgr c = true) (omap Ansi.codeOf ts)
  /\ Forall (fun c => plain c = true) (omap Ansi.charOf ts).
Proof.
  induction 1 as [|[code|c] ts Ht _ [IH1 IH2]]; cbn; split;
    try done; by constructor.
Qed.

(** On a well-formed styled string the loops of [getChanges] strip what
    [stripAnsi] strips, and index style sequences only. *)
Lemma indexCodes_wellStyled (s : jstring) :
  wellStyled s = true ->
  stripped (indexCodes s) = Ansi.stripAnsi s
  /\ Clean (indexCodes s)
  /\ Forall (fun c => plain c = true) (Ansi.stripAnsi s).
Proof.
  intros Hs. apply wellStyled_tokens in Hs.
  destruct (tokens_codes_chars _ Hs) as [Hcodes Hchars].
  unfold indexCodes, Ansi.ansiCodes, Ansi.stripAnsi. split; [|split].
  - rewrite (indexCodes_exact (Ansi.tokens s) _ []); [done| |done..].
    cbn. by rewrite flatten_tokens.
  - apply fold_clean; [done|]. split; cbn.
    + by intros p ?%elem_of_nil.
    + intros p v. by rewrite lookup_empty.
  - done.
Qed.

Lemma arrayIndexOfFrom_elem x l : forall i,
  Js.arrayIndexOfFrom x l i <> (-1)%Z -> x ∈ l.
Proof.
  induction l as [|y l IH]; intros i; cbn; [done|].
  destruct (bool_decide (y = x)) eqn:E.
  - apply bool_decide_eq_true in E as ->. intros _. by left.
  - intros H. right. by apply (IH (S i)).
Qed.

End StyledIndexFacts.

(** ** The round trip through the row *)
Module RoundTrip.

Import ChangeAlgorithm Row Invariants IndexFacts StyledFacts StyledIndexFacts.

Lemma put_lookup buf col c j :
  (col <= length buf)%nat ->
  put buf col c !! j = if decide (j = col) then Some c else buf !! j.
Proof.
  intros Hcol. unfold put. destruct (Nat.ltb_spec col (length buf)).
  - case_decide as Hj.
    + subst. by apply list_lookup_insert_eq.
    + apply list_lookup_insert_ne. congruence.
  - replace (col - length buf)%nat with 0%nat by lia. cbn [replicate app].
    assert (col = length buf) as -> by lia.
    case_decide as Hj.
    + subst. by apply list_lookup_middle.
    + destruct (decide (j < length buf)%nat).
      * by apply lookup_app_l.
      * rewrite !lookup_ge_None_2; [done|lia|].
        rewrite length_app. cbn. lia.
Qed.

Lemma put_length buf col c :
  (col <= length buf)%nat -> (S col <= length (put buf col c))%nat.
Proof.
  intros Hcol. unfold put. destruct (Nat.ltb_spec col (length buf)).
  - rewrite length_insert. lia.
  - rewrite !length_app, length_replicate. cbn. lia.
Qed.

Lemma writeStr_lookup w : forall buf col j,
  (col <= length buf)%nat ->
  writeStr buf col w !! j
  = if decide (col <= j < col + length w)%nat then w !! (j - col)%nat
    else buf !! j.
Proof.
  induction w as [|c w IH]; intros buf col j Hcol; cbn [writeStr length].
  - case_decide; [lia|done].
  - rewrite IH by by apply put_length.
    rewrite put_lookup by done.
    repeat case_decide; try lia; subst.
    + replace (j - col)%nat with (S (j - S col)) by lia. done.
    + by replace (col - col)%nat with 0%nat by lia.
    + done.
Qed.

Lemma writeStr_empty w : writeStr [] 0 w = w.
Proof.
  apply list_eq. intros j. rewrite writeStr_lookup by (cbn; lia).
  case_decide.
  - by rewrite Nat.sub_0_r.
  - cbn. symmetry. apply lookup_ge_None_2. lia.
Qed.

Lemma isSgr_not_erase code : isSgr code = true -> code <> Ansi.eraseEndLine.
Proof. intros H ->. by vm_compute in H. Qed.

Lemma writeTokens_ok ts :
  Forall (fun t => tokenOk t = true) ts ->
  forall buf col, writeTokens buf col ts = writeStr buf col (omap Ansi.charOf ts).
Proof.
  induction 1 as [|[code|c] ts Ht _ IH]; intros buf col; [done| |].
  - cbn -[Ansi.eraseEndLine].
    rewrite bool_decide_eq_false_2 by by apply isSgr_not_erase.
    apply IH.
  - cbn. apply IH.
Qed.

Lemma trimStart_last l c :
  Js.isWhiteSpace c = false -> Js.trimStart (l ++ [c]) <> [].
Proof.
  intros Hc. induction l as [|x l IH]; cbn.
  - by rewrite Hc.
  - by destruct (Js.isWhiteSpace x).
Qed.

Lemma trim_visible c rest :
  Js.isWhiteSpace c = false -> Js.isEmpty (Js.trim (c :: rest)) = false.
Proof.
  intros Hc. unfold Js.trim. cbn [Js.trimStart]. rewrite Hc.
  cbn [rev]. pose proof (trimStart_last (rev rest) c Hc) as Hne.
  destruct (Js.trimStart (rev rest ++ [c])) as [|y l]; [done|].
  cbn [rev]. by destruct (rev l).
Qed.

Lemma substring_take (t : jstring) (i : nat) (p : Z) :
  (i <= length t)%nat -> (Z.of_nat i <= p)%Z ->
  Js.substring t (Z.of_nat i) p
  = take (Z.to_nat (Z.min p (Js.len t)) - i) (drop i t).
Proof.
  intros Hi Hp. unfold Js.substring, Js.len.
  rewrite (Z.max_l (Z.of_nat i) 0) by lia.
  rewrite (Z.max_l p 0) by lia.
  rewrite (Z.min_l (Z.of_nat i)) by lia.
  rewrite (Z.min_l (Z.of_nat i)) by lia.
  rewrite Z.max_r by lia.
  rewrite Nat2Z.id. f_equal. lia.
Qed.

Section Loop.

Variables (org tgt : CodeIndex) (ln : nat).

Hypothesis Hclean : Clean tgt.
Hypothesis Hplain : Forall (fun c => plain c = true) (stripped tgt).

Local Abbreviation Shape := (Invariants.Shape tgt).
Local Abbreviation Agree := (Invariants.Agree tgt).
Local Abbreviation Mixed := (Invariants.Mixed org tgt).
Local Abbreviation RowInv := (Invariants.RowInv org tgt).

Lemma shape_codes t i0 k v :
  Shape t i0 k -> CodesOnly v -> Shape (t ++ v) i0 k.
Proof.
  intros (ts & -> & Hok & Hch) (cs & Hcs & ->).
  exists (ts ++ map Ansi.Code cs). split; [|split].
  - rewrite flatten_app. f_equal. unfold flatten.
    rewrite map_map. cbn. by rewrite map_id.
  - apply Forall_app. split; [done|].
    apply Forall_fmap. eapply Forall_impl; [exact Hcs|]. done.
  - rewrite omap_app, Hch.
    assert (H : omap Ansi.charOf (map Ansi.Code cs) = []).
    { clear. induction cs as [|x cs IH]; [done|]. cbn. exact IH. }
    by rewrite H, app_nil_r.
Qed.

Lemma shape_chars t i0 i k :
  Shape t i0 i -> (i0 <= i <= k)%nat ->
  Shape (t ++ take (k - i) (drop i (stripped tgt))) i0 k.
Proof.
  intros (ts & -> & Hok & Hch) Hik.
  set (w := take (k - i) (drop i (stripped tgt))).
  exists (ts ++ map Ansi.Chr w). split; [|split].
  - rewrite flatten_app. f_equal. unfold flatten.
    rewrite map_map. cbn. clear. induction w; [done|]. cbn. by f_equal.
  - apply Forall_app. split; [done|].
    apply Forall_fmap. unfold w. by apply Forall_take, Forall_drop.
  - rewrite omap_app, Hch.
    assert (H : omap Ansi.charOf (map Ansi.Chr w) = w).
    { clear. induction w; [done|]. cbn. by f_equal. }
    rewrite H. unfold w.
    replace (drop i (stripped tgt))
      with (drop (i - i0) (drop i0 (stripped tgt)))
      by (rewrite drop_drop; f_equal; lia).
    rewrite take_take_drop. f_equal. lia.
Qed.

Lemma charStr_take i :
  (i < length (stripped tgt))%nat ->
  Js.charStr (stripped tgt) i = take (S i - i) (drop i (stripped tgt)).
Proof.
  intros Hi. destruct (lookup_lt_is_Some_2 _ _ Hi) as [c Hc].
  unfold Js.charStr. rewrite Hc.
  replace (S i - i)%nat with 1%nat by lia.
  by rewrite (drop_S _ _ _ Hc).
Qed.

Lemma codes_at p :
  p ∈ codeArray tgt -> CodesOnly (Js.toStr (codeMap tgt !! p)).
Proof.
  intros Hp. destruct Hclean as [Hcov Hval].
  destruct (Hcov p Hp) as [v Hv]. rewrite Hv. cbn. by apply (Hval p).
Qed.

Lemma extend_shape c i0 i :
  Shape (text c) i0 i -> (i0 <= i)%nat -> (i < length (stripped tgt))%nat ->
  Shape (text (extend tgt c i)) i0 (S i).
Proof.
  intros Hs Hi Hn. unfold extend. rewrite charStr_take by done.
  case_match eqn:Hin; cbn [text addText].
  - apply shape_chars; [|lia]. apply shape_codes; [done|].
    apply codes_at. apply bool_decide_eq_true in Hin.
    by apply (arrayIndexOfFrom_elem _ _ 0%nat).
  - apply shape_chars; [done|lia].
Qed.

Lemma shape_empty i : Shape [] i i.
Proof. exists []. repeat split; [constructor|]. by rewrite Nat.sub_diag. Qed.

Lemma codeToPrepend_clean arr i : forall found,
  (forall p, p ∈ arr -> p ∈ codeArray tgt) ->
  (Js.truthy found = true -> CodesOnly (Js.toStr found)) ->
  Js.truthy (codeToPrepend arr (codeMap tgt) i found) = true ->
  CodesOnly (Js.toStr (codeToPrepend arr (codeMap tgt) i found)).
Proof.
  induction arr as [|p arr IH]; intros found Hsub Hfound; cbn; [done|].
  case_match; [done|]. apply IH.
  - intros q Hq. apply Hsub. by right.
  - intros _. apply codes_at, Hsub. by left.
Qed.

Lemma open_shape i :
  (i < length (stripped tgt))%nat ->
  Shape (text (openChange tgt ln i)) i (S i).
Proof.
  intros Hn. unfold openChange. cbn [text]. rewrite charStr_take by done.
  apply shape_chars; [|lia].
  change (Shape ([] ++ (if Js.truthy
                             (codeToPrepend (codeArray tgt) (codeMap tgt)
                                            (Z.of_nat i) None)
                        then Js.toStr (codeToPrepend (codeArray tgt)
                                         (codeMap tgt) (Z.of_nat i) None)
                        else RESET_STYLE)) i i).
  apply shape_codes; [apply shape_empty|].
  case_match eqn:Ht.
  - by apply codeToPrepend_clean.
  - exists [RESET_STYLE]. split; [by repeat constructor|]. reflexivity.
Qed.

Lemma closing_shape arr t i0 i :
  (forall p, p ∈ arr -> p ∈ codeArray tgt) ->
  Shape t i0 i -> (i0 <= i)%nat -> (i < length (stripped tgt))%nat ->
  exists k, (i <= k <= length (stripped tgt))%nat
            /\ Shape (t ++ closingText arr (codeMap tgt) (stripped tgt)
                                       (Z.of_nat i)) i0 k.
Proof.
  intros Hsub Hs Hi Hn. induction arr as [|p arr IH]; cbn.
  - exists i. split; [lia|]. by rewrite app_nil_r.
  - destruct (Z.geb_spec p (Z.of_nat i)) as [Hp|Hp].
    + rewrite substring_take by lia.
      set (k := Z.to_nat (Z.min p (Js.len (stripped tgt)))).
      assert (Hk : (i <= k <= length (stripped tgt))%nat)
        by (unfold k, Js.len; lia).
      exists k. split; [done|]. rewrite app_assoc.
      apply shape_codes; [by apply shape_chars; [|lia]|].
      apply codes_at, Hsub. by left.
    + apply IH. intros q Hq. apply Hsub. by right.
Qed.

Lemma shape_strip t i0 k :
  Shape t i0 k ->
  Ansi.stripAnsi t = take (k - i0) (drop i0 (stripped tgt))
  /\ forall buf, writeTokens buf i0 (Ansi.tokens t)
                 = writeStr buf i0 (take (k - i0) (drop i0 (stripped tgt))).
Proof.
  intros (ts & -> & Hok & Hch). unfold Ansi.stripAnsi.
  rewrite tokens_flatten by done. split; [done|].
  intros buf. by rewrite writeTokens_ok, Hch.
Qed.

Lemma apply_shape R c k :
  Shape (text c) (index c) k ->
  (index c <= k <= length (stripped tgt))%nat ->
  Agree R (index c) -> Mixed R ->
  Agree (applyChange R c) k /\ Mixed (applyChange R c)
  /\ forall j, (k <= j)%nat -> applyChange R c !! j = R !! j.
Proof.
  intros Hs Hk Hagree Hmixed.
  destruct (shape_strip _ _ _ Hs) as [_ Hw].
  unfold applyChange. rewrite Hw.
  assert (Hcol : (index c <= length R)%nat).
  { destruct (index c) as [|i0] eqn:E; [lia|].
    assert (Hlt : (i0 < length (stripped tgt))%nat) by lia.
    destruct (lookup_lt_is_Some_2 _ _ Hlt) as [x Hx].
    rewrite <- (Hagree i0) in Hx by lia.
    apply lookup_lt_Some in Hx. lia. }
  assert (Hlw : length (take (k - index c) (drop (index c) (stripped tgt)))
                = (k - index c)%nat).
  { rewrite length_take, length_drop. lia. }
  assert (Hlook : forall j,
    writeStr R (index c) (take (k - index c) (drop (index c) (stripped tgt))) !! j
    = if decide (index c <= j < k)%nat then stripped tgt !! j else R !! j).
  { intros j. rewrite writeStr_lookup by done. rewrite Hlw.
    repeat case_decide; try lia; [|done].
    rewrite lookup_take_lt by lia. rewrite lookup_drop. f_equal. lia. }
  split; [|split].
  - intros j Hj. rewrite Hlook. case_decide; [done|]. apply Hagree. lia.
  - intros j. rewrite Hlook. case_decide; [by left|]. apply Hmixed.
  - intros j Hj. rewrite Hlook. case_decide; [lia|done].
Qed.

Lemma shape_styled t i0 k : Shape t i0 k -> Styled t.
Proof. intros (ts & E & Hok & _). by exists ts. Qed.

Lemma same_char i :
  divergent org tgt i = false -> stripped tgt !! i = stripped org !! i.
Proof.
  unfold divergent. intros [H _]%orb_false_elim.
  apply bool_decide_eq_false in H.
  by destruct (decide (stripped tgt !! i = stripped org !! i)).
Qed.

Lemma agree_next R i :
  Mixed R -> Agree R i -> divergent org tgt i = false -> Agree R (S i).
Proof.
  intros Hm Ha Hd j Hj. destruct (decide (j = i)) as [->|]; [|apply Ha; lia].
  destruct (Hm i) as [?|Ho]; [done|]. by rewrite Ho, same_char.
Qed.

Lemma sameChars_lookup from to j :
  sameChars org tgt from to = true -> (from <= j < to)%nat ->
  stripped tgt !! j = stripped org !! j.
Proof.
  unfold sameChars. rewrite forallb_forall. intros H Hj.
  specialize (H j). rewrite in_seq in H.
  eapply bool_decide_eq_true_1, H. lia.
Qed.

(** A row that agrees below the start of a span of unchanged characters
    agrees up to its end. *)
Lemma agree_span R a b :
  Mixed R -> Agree R a -> sameChars org tgt a b = true -> Agree R b.
Proof.
  intros Hm Ha Hs j Hj. destruct (decide (j < a)%nat); [by apply Ha|].
  destruct (Hm j) as [?|Ho]; [done|]. rewrite Ho. symmetry.
  apply (sameChars_lookup a b); [done|lia].
Qed.

Lemma push_row changes c k :
  Mixed (applyChanges (stripped org) changes) ->
  Agree (applyChanges (stripped org) changes) (index c) ->
  Shape (text c) (index c) k ->
  (index c <= k <= length (stripped tgt))%nat ->
  Mixed (applyChanges (stripped org) (changes ++ [c]))
  /\ Agree (applyChanges (stripped org) (changes ++ [c])) k
  /\ forall j, (k <= j)%nat ->
       applyChanges (stripped org) (changes ++ [c]) !! j
       = applyChanges (stripped org) changes !! j.
Proof.
  intros Hm Ha Hs Hk.
  unfold applyChanges. rewrite fold_left_app. cbn [fold_left].
  destruct (apply_shape _ c k Hs ltac:(lia) Ha Hm) as (? & ? & ?).
  done.
Qed.

(** Closing the open change [c] as [c'], which holds the characters up
    to [k]: pushed, it is written; discarded, its span held the
    characters of the original.  Either way the row agrees up to [i]. *)
Lemma close_row changes c c' i k :
  Mixed (applyChanges (stripped org) changes) ->
  Forall (fun c => Styled (text c)) changes ->
  Agree (applyChanges (stripped org) changes) (index c) ->
  index c' = index c ->
  Shape (text c') (index c) k ->
  (index c < i <= k)%nat -> (k <= length (stripped tgt))%nat ->
  from_option (fun c => sameChars org tgt (index c) i = true) True
    (discarded (changes, Some c) (pushIfUseful changes c', None)) ->
  Mixed (applyChanges (stripped org) (pushIfUseful changes c'))
  /\ Forall (fun c => Styled (text c)) (pushIfUseful changes c')
  /\ Agree (applyChanges (stripped org) (pushIfUseful changes c')) i.
Proof.
  intros Hm Hst Ha Ei Hs Hi Hk. unfold discarded, pushIfUseful.
  cbn [fst snd]. destruct (useful c').
  - intros _. rewrite <- Ei in Hs, Ha.
    destruct (push_row changes c' k Hm Ha Hs ltac:(lia)) as (Hm' & Ha' & _).
    split; [done|]. split.
    + apply Forall_app. split; [done|]. constructor; [|constructor].
      by apply (shape_styled _ (index c') k).
    + intros j Hj. apply Ha'. lia.
  - rewrite Nat.ltb_irrefl. cbn [from_option]. intros Hsame.
    split; [done|]. split; [done|]. by apply (agree_span _ (index c)).
Qed.

Lemma RowInv_step i st :
  (i < length (stripped tgt))%nat ->
  from_option (fun c => sameChars org tgt (index c) i = true) True
    (discarded st (scanStep org tgt ln st i)) ->
  RowInv i st -> RowInv (S i) (scanStep org tgt ln st i).
Proof.
  destruct st as [changes buf]. unfold Invariants.RowInv. cbn [fst snd].
  intros Hn Hdisc (Hm & Hst & Hbuf). revert Hdisc. unfold scanStep.
  assert (Hext : forall c, buf = Some c ->
    (index (extend tgt c i) < S i)%nat
    /\ Agree (applyChanges (stripped org) changes) (index (extend tgt c i))
    /\ Shape (text (extend tgt c i)) (index (extend tgt c i)) (S i)).
  { intros c ->. destruct Hbuf as (Hi & Ha & Hs).
    destruct (ScanFacts.extend_fields tgt c i) as [_ Ei].
    split; [rewrite Ei; lia|]. split; [by rewrite Ei|].
    rewrite Ei. apply extend_shape; [done|lia|done]. }
  destruct (divergent org tgt i) eqn:Hd, buf as [c|]; cbn [fst snd].
  - intros _. split; [done|]. split; [done|]. by apply Hext.
  - intros _. split; [done|]. split; [done|].
    cbn [index openChange]. split; [lia|]. split; [done|].
    by apply open_shape.
  - destruct (nextDiffers org tgt i); cbn [fst snd].
    { intros _. split; [done|]. split; [done|]. by apply Hext. }
    intros Hdisc. destruct Hbuf as (Hi & Ha & Hs).
    destruct (closing_shape (codeArray tgt) (text c) (index c) i
                ltac:(done) Hs ltac:(lia) Hn) as (k & Hk & Hs').
    destruct (close_row changes c
                (addText c (closingText (codeArray tgt) (codeMap tgt)
                                        (stripped tgt) (Z.of_nat i))) i k)
      as (Hm' & Hst' & Ha'); try done; [lia..|].
    split; [done|]. split; [done|]. by apply agree_next.
  - intros _. split; [done|]. split; [done|]. by apply agree_next.
Qed.

Lemma RowInv_loop m :
  (m <= length (stripped tgt))%nat ->
  (forall i, (i < m)%nat ->
     from_option (fun c => sameChars org tgt (index c) i = true) True
       (discarded (scanTo org tgt ln i)
                  (scanStep org tgt ln (scanTo org tgt ln i) i))) ->
  RowInv m (scanTo org tgt ln m).
Proof.
  unfold scanTo. induction m as [|m IH]; intros Hm Hdisc.
  - split; [|split]; cbn; [by right|constructor|]. intros j Hj. lia.
  - rewrite seq_S, fold_left_app. cbn [fold_left plus].
    apply RowInv_step; [lia|apply Hdisc; lia|].
    apply IH; [lia|]. intros i Hi. apply Hdisc. lia.
Qed.

Lemma agree_all R :
  (length (stripped org) <= length (stripped tgt))%nat ->
  Mixed R -> Agree R (length (stripped tgt)) -> R = stripped tgt.
Proof.
  intros Hlen Hm Ha. apply list_eq. intros j.
  destruct (decide (j < length (stripped tgt))%nat); [by apply Ha|].
  destruct (Hm j) as [?|Ho]; [done|]. rewrite Ho.
  rewrite !lookup_ge_None_2; [done|lia..].
Qed.

Lemma agree_take R :
  Agree R (length (stripped tgt)) -> take (length (stripped tgt)) R = stripped tgt.
Proof.
  intros Ha. apply list_eq. intros j.
  destruct (decide (j < length (stripped tgt))%nat).
  - rewrite lookup_take_lt by done. by apply Ha.
  - rewrite lookup_take_ge by lia. symmetry. apply lookup_ge_None_2. lia.
Qed.

(** The changes of the loop are well-formed texts and, applied in order
    to the stripped original, give a row that agrees with the stripped
    target as far as that goes. *)
Lemma loop_agree :
  (forall i, (i < length (stripped tgt))%nat ->
     from_option (fun c => sameChars org tgt (index c) i = true) True
       (discarded (scanTo org tgt ln i)
                  (scanStep org tgt ln (scanTo org tgt ln i) i))) ->
  from_option
    (fun c => sameChars org tgt (index c) (length (stripped tgt)) = true) True
    (discarded (scanTo org tgt ln (length (stripped tgt)))
               (closeAtEnd tgt (scanTo org tgt ln (length (stripped tgt))),
                None)) ->
  let changes := closeAtEnd tgt (scanTo org tgt ln (length (stripped tgt))) in
  Mixed (applyChanges (stripped org) changes)
  /\ Forall (fun c => Styled (text c)) changes
  /\ Agree (applyChanges (stripped org) changes) (length (stripped tgt)).
Proof.
  intros Hdisc Hend.
  pose proof (RowInv_loop (length (stripped tgt)) ltac:(lia) Hdisc) as Hinv.
  revert Hend.
  destruct (scanTo org tgt ln (length (stripped tgt))) as [changes [c|]];
    unfold Invariants.RowInv in Hinv; cbn [fst snd closeAtEnd] in *;
    [|by intros _].
  destruct Hinv as (Hm & Hst & Hi & Ha & Hs).
  set (c' := if bool_decide (Js.arrayIndexOf (codeArray tgt)
                               (Js.len (stripped tgt)) <> (-1)%Z)
             then addText c (Js.toStr (codeMap tgt !! Js.len (stripped tgt)))
             else c).
  assert (Hs' : Shape (text c') (index c) (length (stripped tgt))
                /\ index c' = index c).
  { unfold c'. case_match eqn:Hin; [|done]. split; [|done].
    cbn [text index addText]. apply shape_codes; [done|].
    apply codes_at. apply bool_decide_eq_true in Hin.
    by apply (arrayIndexOfFrom_elem _ _ 0%nat). }
  destruct Hs' as [Hs' Ei]. intros Hend.
  apply (close_row changes c c' (length (stripped tgt))
           (length (stripped tgt))); try done; lia.
Qed.

End Loop.

(** C1, as the claim states it: from ab to a blank and b the only
    change would write a blank, so it is discarded, and the row keeps
    ab. *)
Lemma blank_edit_is_dropped :
  getChanges (str "ab") (str " b") 0 = []
  /\ applyChanges (Ansi.stripAnsi (str "ab"))
                  (getChanges (str "ab") (str " b") 0)
     <> Ansi.stripAnsi (str " b").
Proof. split; [vm_compute; reflexivity | vm_compute; discriminate]. Qed.

(** The erasure goes to the end of the last change, wherever that change
    stops: from Xbcdefgh to abc the single change writes a and erases from
    column 1 on, and the row shows a. *)
Lemma erase_after_last_change :
  getChanges (str "Xbcdefgh") (str "abc") 0
  = [{| line := 0; index := 0;
        text := RESET_STYLE ++ str "a" ++ ERASE_LINE_END |}]
  /\ applyChanges (str "Xbcdefgh") (getChanges (str "Xbcdefgh") (str "abc") 0)
     = str "a".
Proof. split; vm_compute; reflexivity. Qed.

(** Outside the well-formed styled strings the pattern can take visible
    text for part of a sequence: with a BEL in the target, the reset
    sequence and the text up to the BEL match as one sequence, and the
    change from xyz to ab and BEL is discarded. *)
Lemma bell_edit_is_dropped :
  getChanges (str "xyz") (str "ab" ++ [Ansi.BEL]) 0 = []
  /\ wellStyled (str "ab" ++ [Ansi.BEL]) = false.
Proof. split; vm_compute; reflexivity. Qed.

Lemma writeTokens_app buf col ts us :
  writeTokens buf col (ts ++ us)
  = writeTokens (writeTokens buf col ts)
                (col + length (omap Ansi.charOf ts)) us.
Proof.
  revert buf col. induction ts as [|[code|c] ts IH]; intros buf col.
  - cbn. by rewrite Nat.add_0_r.
  - cbn. destruct (bool_decide (code = Ansi.eraseEndLine)); apply IH.
  - cbn. rewrite IH. f_equal. lia.
Qed.

(** A change whose text ends with the erasure cuts the row where its
    characters end. *)
Lemma applyChange_erase buf c :
  Styled (text c) ->
  applyChange buf (addText c ERASE_LINE_END)
  = take (index c + length (Ansi.stripAnsi (text c))) (applyChange buf c).
Proof.
  intros (ts & E & Hok). unfold applyChange, Ansi.stripAnsi.
  cbn [text index addText]. rewrite E.
  rewrite tokens_flatten_app, tokens_flatten; [|done..|].
  - change (Ansi.tokens ERASE_LINE_END) with [Ansi.Code Ansi.eraseEndLine].
    rewrite writeTokens_app. cbn [writeTokens].
    by rewrite bool_decide_eq_true_2.
  - vm_compute. intros H. repeat (inversion H as [|? ? ? H']; subst; clear H;
                                   rename H' into H).
Qed.

Lemma harmless_loop org tgt ln n :
  forallb (fun i =>
             match discarded (scanTo org tgt ln i)
                             (scanStep org tgt ln (scanTo org tgt ln i) i) with
             | Some c => sameChars org tgt (index c) i
             | None => true
             end) (seq 0 n) = true ->
  forall i, (i < n)%nat ->
    from_option (fun c => sameChars org tgt (index c) i = true) True
      (discarded (scanTo org tgt ln i)
                 (scanStep org tgt ln (scanTo org tgt ln i) i)).
Proof.
  rewrite forallb_forall. intros H i Hi.
  specialize (H i). rewrite in_seq in H. specialize (H ltac:(lia)).
  by destruct (discarded _ _).
Qed.

(** C1, amended. For well-formed styled strings, when every change that
    [getChanges] discards as white space spans unchanged characters, and
    the erasure of a shorter target is made at the end of the stripped
    target, applying the changes of [getChanges] in order to a row that
    holds the stripped original gives the stripped target. *)
Theorem round_trip (original target : jstring) (ln : nat) :
  wellStyled original = true ->
  wellStyled target = true ->
  harmlessDiscards original target ln = true ->
  erasesAtEnd original target ln = true ->
  applyChanges (Ansi.stripAnsi original) (getChanges original target ln)
  = Ansi.stripAnsi target.
Proof.
  intros Ho Ht Hd He. unfold getChanges.
  unfold harmlessDiscards in Hd. unfold erasesAtEnd in He.
  destruct (bool_decide (original = target)) eqn:Heq.
  { apply bool_decide_eq_true in Heq. by subst. }
  destruct original as [|a original'].
  { cbn [Js.isEmpty]. unfold applyChanges, applyChange. cbn [fold_left index text].
    change (Ansi.stripAnsi []) with (@nil ascii).
    rewrite writeTokens_ok by by apply wellStyled_tokens.
    apply writeStr_empty. }
  cbn [Js.isEmpty]. destruct target as [|b target'].
  { cbn [Js.isEmpty]. unfold applyChanges, applyChange.
    cbn [fold_left index text].
    change (Ansi.tokens ERASE_LINE_END) with [Ansi.Code Ansi.eraseEndLine].
    cbn [writeTokens]. by rewrite bool_decide_eq_true_2. }
  cbn [Js.isEmpty orb] in *. cbv zeta in *.
  apply andb_prop in Hd as [Hloop Hend].
  destruct (indexCodes_wellStyled _ Ho) as (Eo & _ & _).
  destruct (indexCodes_wellStyled _ Ht) as (Et & Hclean & Hplain).
  rewrite <- Et in Hplain. rewrite <- Eo, <- Et.
  set (org := indexCodes (a :: original')) in *.
  set (tgt := indexCodes (b :: target')) in *.
  fold (scanTo org tgt ln (length (stripped tgt))).
  destruct (loop_agree org tgt ln Hclean Hplain) as (Hm & Hst & Ha).
  { by apply harmless_loop. }
  { by destruct (discarded _ _). }
  set (changes := closeAtEnd tgt (scanTo org tgt ln (length (stripped tgt))))
    in *.
  unfold eraseIfShorter.
  destruct (length (stripped tgt) <? length (stripped org))%nat eqn:Hlen.
  - unfold appendToLast.
    destruct (rev changes) as [|c before] eqn:Hrev.
    + apply (f_equal (@rev _)) in Hrev. rewrite rev_involutive in Hrev.
      cbn [rev] in Hrev. rewrite Hrev in Ha.
      unfold applyChanges, applyChange. cbn [fold_left index text].
      change (Ansi.tokens ERASE_LINE_END) with [Ansi.Code Ansi.eraseEndLine].
      cbn [writeTokens]. rewrite bool_decide_eq_true_2 by done.
      by apply agree_take.
    + apply (f_equal (@rev _)) in Hrev. rewrite rev_involutive in Hrev.
      cbn [rev] in Hrev. rewrite Hrev in Ha, Hst, He.
      rewrite last_snoc in He. apply Nat.eqb_eq in He.
      apply Forall_app in Hst as [_ Hst]. apply Forall_inv in Hst.
      unfold applyChanges in *. rewrite fold_left_app in *.
      cbn [fold_left] in *.
      rewrite applyChange_erase, He by done.
      by apply agree_take.
  - apply Nat.ltb_ge in Hlen. by apply (agree_all org tgt).
Qed.

(** A witness of C1: the blank after the first word changes its style,
    a letter of the third word changes and the last word goes.  The
    change of the blank is discarded, and the erasure follows the last
    change, which ends with the target. *)
Lemma round_trip_witness :
  let red := Ansi.ESC :: str "[31m" in
  let green := Ansi.ESC :: str "[32m" in
  let original := green ++ str "ab" ++ green ++ str " " ++ red ++ str "cd ef gh" in
  let target := green ++ str "ab" ++ red ++ str " " ++ red ++ str "cd eX" in
  applyChanges (Ansi.stripAnsi original) (getChanges original target 0)
  = Ansi.stripAnsi target.
Proof.
  intros red green original target.
  apply (round_trip original target 0).
  - vm_compute. reflexivity.
  - vm_compute. reflexivity.
  - vm_compute. reflexivity.
  - vm_compute. reflexivity.
Defined.

(** The amended claim covers edits that add words after a blank and
    edits that only shrink the row; it leaves out the edit of a blank
    alone and the shrinking edit whose last change ends before the
    target does. *)
Lemma round_trip_covers :
  (harmlessDiscards (str "Hello") (str "Hello world") 0 = true
   /\ erasesAtEnd (str "Hello") (str "Hello world") 0 = true)
  /\ (harmlessDiscards (str "abcdef") (str "abc") 0 = true
      /\ erasesAtEnd (str "abcdef") (str "abc") 0 = true)
  /\ harmlessDiscards (str "ab") (str " b") 0 = false
  /\ erasesAtEnd (str "Xbcdefgh") (str "abc") 0 = false.
Proof. vm_compute. repeat split. Qed.

End RoundTrip.

(** ** The session of the thread: cursor, frames and lifecycle *)
Module SessionFacts.

Import DynamicTerminalThread EventLoop Frames.

Section Facts.

Variable wrapAnsi : jstring -> nat -> jstring.
Variable indentString : jstring -> nat -> jstring.
Variable spinnerFrames : nat -> jstring.
Variable debugEnabled : bool.

Local Abbreviation write := (write debugEnabled).
Local Abbreviation moveCursorTo := (moveCursorTo debugEnabled).
Local Abbreviation applyChange := (applyChange debugEnabled).
Local Abbreviation render := (render wrapAnsi indentString debugEnabled).
Local Abbreviation stopTimer := (stopTimer wrapAnsi indentString debugEnabled).
Local Abbreviation start := (start debugEnabled).
Local Abbreviation stop := (stop wrapAnsi indentString debugEnabled).
Local Abbreviation startThrows := (startThrows debugEnabled).
Local Abbreviation stopThrows := (stopThrows wrapAnsi indentString debugEnabled).
Local Abbreviation update := (update wrapAnsi indentString debugEnabled).
Local Abbreviation append := (append wrapAnsi indentString debugEnabled).
Local Abbreviation updateSpinner :=
  (updateSpinner wrapAnsi indentString spinnerFrames debugEnabled).
Local Abbreviation onMessage := (onMessage wrapAnsi indentString debugEnabled).
Local Abbreviation react :=
  (react wrapAnsi indentString spinnerFrames debugEnabled).
Local Abbreviation reactAll :=
  (reactAll wrapAnsi indentString spinnerFrames debugEnabled).

Lemma Moved_refl t : Moved t t.
Proof. exists (cursorLine t), (cursorIndex t), (stdout t). by destruct t. Qed.

Lemma Moved_trans t1 t2 t3 : Moved t1 t2 -> Moved t2 t3 -> Moved t1 t3.
Proof.
  intros (l & i & o & ->) (l' & i' & o' & ->). by exists l', i', o'.
Qed.

Lemma setCursor_moved t l i : Moved t (setCursor t l i).
Proof. by exists l, i, (stdout t). Qed.

Lemma setStdout_moved t o : Moved t (setStdout t o).
Proof. by exists (cursorLine t), (cursorIndex t), o. Qed.

Lemma write_moved t s : Moved t (write t s).
Proof.
  unfold DynamicTerminalThread.write.
  destruct debugEnabled; [apply Moved_refl | apply setStdout_moved].
Qed.

Lemma moveCursorTo_moved t l i : Moved t (moveCursorTo t l i).
Proof.
  unfold DynamicTerminalThread.moveCursorTo.
  match goal with |- context [if (l <? cursorLine t)%nat then ?a else ?b] =>
    set (t1 := if (l <? cursorLine t)%nat then a else b) end.
  assert (H1 : Moved t t1).
  { unfold t1. destruct (l <? cursorLine t)%nat; [|destruct (cursorLine t <? l)%nat].
    - eapply Moved_trans; [apply write_moved | apply setCursor_moved].
    - eapply Moved_trans; [apply write_moved | apply setCursor_moved].
    - apply Moved_refl. }
  eapply Moved_trans; [exact H1|].
  destruct (cursorIndex t1 <? i)%nat; [|destruct (i <? cursorIndex t1)%nat].
  - eapply Moved_trans; [apply write_moved | apply setCursor_moved].
  - destruct (i =? 0)%nat;
      (eapply Moved_trans; [apply write_moved | apply setCursor_moved]).
  - apply Moved_refl.
Qed.

Lemma applyChange_moved t c : Moved t (applyChange t c).
Proof.
  unfold DynamicTerminalThread.applyChange. cbv zeta.
  eapply Moved_trans; [apply moveCursorTo_moved|].
  eapply Moved_trans; [apply write_moved | apply setCursor_moved].
Qed.

Lemma applyChanges_moved cs : forall t, Moved t (fold_left applyChange cs t).
Proof.
  induction cs as [|c cs IH]; intros t; cbn [fold_left]; [apply Moved_refl|].
  eapply Moved_trans; [apply applyChange_moved | apply IH].
Qed.

Lemma Painted_refl t : Painted t t.
Proof.
  exists (cursorLine t), (cursorIndex t), (stdout t), (previousSpinner t),
    (previousSize t), (previousRender t).
  by destruct t.
Qed.

Lemma Painted_trans t1 t2 t3 : Painted t1 t2 -> Painted t2 t3 -> Painted t1 t3.
Proof.
  intros (l & i & o & sp & sz & pr & ->) (l' & i' & o' & sp' & sz' & pr' & ->).
  by exists l', i', o', sp', sz', pr'.
Qed.

Lemma Moved_painted t t' : Moved t t' -> Painted t t'.
Proof.
  intros (l & i & o & ->).
  by exists l, i, o, (previousSpinner t), (previousSize t), (previousRender t).
Qed.

Lemma setPreviousRender_painted t pr : Painted t (setPreviousRender t pr).
Proof.
  by exists (cursorLine t), (cursorIndex t), (stdout t), (previousSpinner t),
    (previousSize t), pr.
Qed.

Lemma setPreviousSize_painted t sz : Painted t (setPreviousSize t sz).
Proof.
  by exists (cursorLine t), (cursorIndex t), (stdout t), (previousSpinner t),
    sz, (previousRender t).
Qed.

Lemma setPreviousSpinner_painted t sp : Painted t (setPreviousSpinner t sp).
Proof.
  by exists (cursorLine t), (cursorIndex t), (stdout t), sp,
    (previousSize t), (previousRender t).
Qed.

(** A render touches the cursor, stdout and the memory of the previous
    frame only. *)
Lemma render_painted t : Painted t (render t).
Proof.
  unfold DynamicTerminalThread.render.
  destruct (active t); cbn [negb]; cbv zeta; [|apply Painted_refl].
  eapply Painted_trans; [|apply setPreviousRender_painted].
  eapply Painted_trans; [|apply Moved_painted, moveCursorTo_moved].
  eapply Painted_trans; [|apply Moved_painted, applyChanges_moved].
  eapply Painted_trans; [|apply setPreviousSpinner_painted].
  case_match.
  - eapply Painted_trans; [|apply setPreviousSize_painted].
    eapply Painted_trans; [|apply Moved_painted, setStdout_moved].
    eapply Painted_trans; [|apply Moved_painted, moveCursorTo_moved].
    apply Moved_painted, setCursor_moved.
  - apply Moved_painted, setCursor_moved.
Qed.

Lemma Painted_fields t t' :
  Painted t t' ->
  SameSession t t' /\ renderInterval t' = renderInterval t
  /\ nextRender t' = nextRender t /\ nextSpinner t' = nextSpinner t
  /\ repaintOnResize t' = repaintOnResize t
  /\ terminalSize t' = terminalSize t.
Proof. intros (l & i & o & sp & sz & pr & ->). by repeat split. Qed.

(** Where the cursor is believed to be after a move. *)
Lemma moveCursorTo_cursor t l i :
  cursorLine (moveCursorTo t l i) = l /\ cursorIndex (moveCursorTo t l i) = i.
Proof.
  unfold DynamicTerminalThread.moveCursorTo.
  match goal with |- context [if (l <? cursorLine t)%nat then ?a else ?b] =>
    set (t1 := if (l <? cursorLine t)%nat then a else b) end.
  assert (H1 : cursorLine t1 = l).
  { unfold t1. destruct (Nat.ltb_spec l (cursorLine t)); [done|].
    destruct (Nat.ltb_spec (cursorLine t) l); [done|lia]. }
  destruct (Nat.ltb_spec (cursorIndex t1) i); [done|].
  destruct (Nat.ltb_spec i (cursorIndex t1)); [done|].
  split; [done|lia].
Qed.

Lemma Moved_fields t t' :
  Moved t t' ->
  previousSpinner t' = previousSpinner t /\ nextSpinner t' = nextSpinner t
  /\ previousRender t' = previousRender t /\ nextRender t' = nextRender t
  /\ active t' = active t /\ renderInterval t' = renderInterval t
  /\ wasRaw t' = wasRaw t /\ cursorHidden t' = cursorHidden t
  /\ stdinRaw t' = stdinRaw t.
Proof. intros (l & i & o & ->). by repeat split. Qed.

Lemma SameSession_refl t : SameSession t t.
Proof. by repeat split. Qed.

Lemma SameSession_trans t1 t2 t3 :
  SameSession t1 t2 -> SameSession t2 t3 -> SameSession t1 t3.
Proof.
  intros (A1 & B1 & C1 & D1) (A2 & B2 & C2 & D2).
  repeat split; congruence.
Qed.

Lemma Painted_session t t' : Painted t t' -> SameSession t t'.
Proof. intros H. apply Painted_fields in H. tauto. Qed.

Lemma startTimer_inactive t : active t = false -> startTimer t = t.
Proof. intros H. unfold startTimer. by rewrite H, andb_false_r. Qed.

Lemma startTimer_empty t : nextRender t = [] -> startTimer t = t.
Proof.
  intros H. unfold startTimer. rewrite H. cbn [existsb].
  by destruct (negb (renderInterval t) && active t).
Qed.

Lemma startTimer_session t : SameSession t (startTimer t).
Proof.
  unfold startTimer.
  destruct (negb (renderInterval t) && active t); [|apply SameSession_refl].
  destruct (existsb hasSpinner (nextRender t)); [|apply SameSession_refl].
  by repeat split.
Qed.

Lemma update_session t c : SameSession t (update t c).
Proof.
  unfold DynamicTerminalThread.update.
  eapply SameSession_trans; [|apply Painted_session, render_painted].
  eapply SameSession_trans; [|apply startTimer_session].
  by repeat split.
Qed.

Lemma update_inactive t c :
  active t = false -> update t c = setNextRender t (processTextToLineObjects c).
Proof.
  intros H. unfold DynamicTerminalThread.update.
  rewrite startTimer_inactive by done.
  by apply ThreadFacts.render_inactive.
Qed.

Lemma updateSpinner_painted t :
  SameSession t (updateSpinner t)
  /\ renderInterval (updateSpinner t) = renderInterval t.
Proof.
  unfold DynamicTerminalThread.updateSpinner.
  match goal with |- context [render ?x] =>
    pose proof (Painted_fields _ _ (render_painted x)) as (HS & HR & _) end.
  split; [|exact HR].
  eapply SameSession_trans; [|exact HS]. by repeat split.
Qed.

Lemma start_active t o : active t = true -> start t o = t.
Proof.
  intros H.
  unfold DynamicTerminalThread.start, DynamicTerminalThread.startCall.
  by rewrite H.
Qed.

(** [start] throws exactly when a session is to be opened with the input
    disabled and stdin is not a terminal. *)
Lemma startThrows_spec t o :
  startThrows t o
  = negb (active t) && default false (disableInput o)
    && bool_decide (stdinRaw t = None).
Proof.
  unfold DynamicTerminalThread.startThrows, DynamicTerminalThread.startCall,
    setRawMode.
  destruct (active t); [done|]. cbv zeta.
  change (stdinRaw (setWasRaw (setActive t true) (Some (stdinRaw t))))
    with (stdinRaw t).
  by destruct (default false (disableInput o)), (stdinRaw t).
Qed.

(** What [start] has done in any case when it is left. *)
Lemma start_always t o :
  active t = false ->
  active (start t o) = true /\ wasRaw (start t o) = Some (stdinRaw t)
  /\ (stdinRaw (start t o) = None <-> stdinRaw t = None).
Proof.
  intros H.
  unfold DynamicTerminalThread.start, DynamicTerminalThread.startCall,
    setRawMode.
  rewrite H. cbv zeta.
  change (stdinRaw (setWasRaw (setActive t true) (Some (stdinRaw t))))
    with (stdinRaw t).
  unfold DynamicTerminalThread.write.
  destruct (stdinRaw t) as [raw|] eqn:E, (default false (disableInput o));
    cbn [fst]; rewrite ?E; try (by repeat split);
    destruct debugEnabled;
    (rewrite startTimer_empty by reflexivity);
    destruct (default true (hideCursor o)),
      (spinnerColour o), (default 100%nat (opt_updateFrequency o)),
      (default false (opt_repaintOnResize o));
    cbn [active wasRaw stdinRaw setCursor setStdout setNextRender
         setPreviousRender setRepaintOnResize setUpdateFrequency
         setSpinnerColor setCursorHidden setStdinRaw setStdin setWasRaw
         setActive];
    rewrite ?E; by repeat split.
Qed.

(** When [start] throws, only the session flag and [wasRaw] are set. *)
Lemma start_thrown t o :
  startThrows t o = true ->
  start t o = setWasRaw (setActive t true) (Some None)
  /\ active t = false /\ stdinRaw t = None.
Proof.
  rewrite startThrows_spec.
  intros [[Ha Hd]%andb_prop Hs%bool_decide_eq_true]%andb_prop.
  apply negb_true_iff in Ha.
  unfold DynamicTerminalThread.start, DynamicTerminalThread.startCall,
    setRawMode.
  rewrite Ha, Hd. cbv zeta.
  change (stdinRaw (setWasRaw (setActive t true) (Some (stdinRaw t))))
    with (stdinRaw t).
  by rewrite Hs.
Qed.

(** What [start] has done when it returns from opening a session. *)
Lemma start_fields t o :
  active t = false -> startThrows t o = false ->
  nextRender (start t o) = [] /\ previousRender (start t o) = []
  /\ cursorLine (start t o) = 0%nat /\ cursorIndex (start t o) = 0%nat
  /\ cursorHidden (start t o)
     = (if default true (hideCursor o) then true else cursorHidden t)
  /\ stdinRaw (start t o)
     = (if default false (disableInput o) then Some true else stdinRaw t).
Proof.
  intros H. rewrite startThrows_spec, H. cbn [negb andb]. intros Hthrow.
  unfold DynamicTerminalThread.start, DynamicTerminalThread.startCall,
    setRawMode.
  rewrite H. cbv zeta.
  change (stdinRaw (setWasRaw (setActive t true) (Some (stdinRaw t))))
    with (stdinRaw t).
  unfold DynamicTerminalThread.write.
  destruct (default false (disableInput o)), (stdinRaw t) as [raw|] eqn:E;
    try (by rewrite bool_decide_eq_true_2 in Hthrow); cbn [fst];
    destruct debugEnabled;
    (rewrite startTimer_empty by reflexivity);
    destruct (default true (hideCursor o)),
      (spinnerColour o), (default 100%nat (opt_updateFrequency o)),
      (default false (opt_repaintOnResize o));
    cbn [nextRender previousRender cursorLine cursorIndex cursorHidden
         stdinRaw setCursor setStdout setNextRender
         setPreviousRender setRepaintOnResize setUpdateFrequency
         setSpinnerColor setCursorHidden setStdinRaw setStdin setWasRaw
         setActive];
    rewrite ?E; by repeat split.
Qed.

Lemma start_is_active t o : active (start t o) = true.
Proof.
  destruct (active t) eqn:H.
  - by rewrite start_active.
  - by apply start_always.
Qed.

Lemma stop_inactive t c : active t = false -> stop t c = t.
Proof.
  intros H.
  unfold DynamicTerminalThread.stop, DynamicTerminalThread.stopCall.
  by rewrite H.
Qed.

(** The shape of [stop] on an active thread: [t2] is the thread after
    the timer was stopped and the screen committed or erased, where the
    raw mode is restored, or the call left when that throws. *)
Lemma stopCall_shape t (c : bool) :
  active t = true ->
  exists t2,
    (active t2 = false /\ renderInterval t2 = false
     /\ wasRaw t2 = wasRaw t /\ stdinRaw t2 = stdinRaw t
     /\ cursorHidden t2 = cursorHidden t
     /\ nextRender t2 = (if c then nextRender t else [])
     /\ previousRender t2 = previousRender t)
    /\ stopCall wrapAnsi indentString debugEnabled t c
       = match (match wasRaw t with
                | Some raw => match stdinRaw t with
                              | Some _ => Some (setStdinRaw t2 (default false raw))
                              | None => None
                              end
                | None => Some t2
                end) with
         | None => (t2, Thrown)
         | Some t3 =>
             let t4 := setWasRaw t3 None in
             (setNextRender
                (setPreviousRender
                   (setCursorHidden
                      (if cursorHidden t then write t4 Ansi.cursorShow else t4)
                      false) []) [], Returned)
         end.
Proof.
  intros H. unfold DynamicTerminalThread.stopCall. rewrite H. cbv zeta.
  set (t1 := stopTimer (setActive t false)).
  assert (H1 : active t1 = false /\ renderInterval t1 = false
               /\ wasRaw t1 = wasRaw t /\ stdinRaw t1 = stdinRaw t
               /\ cursorHidden t1 = cursorHidden t
               /\ nextRender t1 = nextRender t
               /\ previousRender t1 = previousRender t).
  { unfold t1. rewrite ThreadFacts.stopTimer_inactive by done.
    change (renderInterval (setActive t false)) with (renderInterval t).
    destruct (renderInterval t) eqn:E; repeat split; try reflexivity.
    exact E. }
  destruct H1 as (A1 & R1 & W1 & S1 & C1 & N1 & P1).
  match goal with |- context [match wasRaw ?x with _ => _ end] =>
    set (t2 := x) end.
  assert (H2 : active t2 = active t1 /\ renderInterval t2 = renderInterval t1
               /\ wasRaw t2 = wasRaw t1 /\ stdinRaw t2 = stdinRaw t1
               /\ cursorHidden t2 = cursorHidden t1
               /\ nextRender t2 = (if c then nextRender t1 else [])
               /\ previousRender t2 = previousRender t1).
  { unfold t2. destruct c.
    - rewrite ThreadFacts.render_inactive by done.
      match goal with |- context [moveCursorTo t1 ?l ?i] =>
        destruct (moveCursorTo_moved t1 l i) as (l' & i' & o' & ->) end.
      by repeat split.
    - unfold stdoutWrite.
      match goal with |- context [moveCursorTo ?x ?l ?i] =>
        destruct (moveCursorTo_moved x l i) as (l' & i' & o' & ->) end.
      by repeat split. }
  destruct H2 as (A2 & R2 & W2 & S2 & C2 & N2 & P2).
  rewrite A1 in A2. rewrite R1 in R2. rewrite W1 in W2. rewrite S1 in S2.
  rewrite C1 in C2. rewrite N1 in N2. rewrite P1 in P2.
  clearbody t2. clear t1 A1 R1 W1 S1 C1 N1 P1.
  exists t2. split; [done|].
  unfold setRawMode. rewrite W2, S2.
  destruct (wasRaw t) as [raw|]; [destruct (stdinRaw t)|]; try reflexivity;
    cbv zeta; by rewrite <- C2.
Qed.

(** [stop] throws exactly when a session is stopped whose [wasRaw] is
    not null while stdin is not a terminal. *)
Lemma stopThrows_spec t c :
  stopThrows t c
  = active t && bool_decide (wasRaw t <> None)
    && bool_decide (stdinRaw t = None).
Proof.
  unfold DynamicTerminalThread.stopThrows.
  destruct (active t) eqn:H.
  - destruct (stopCall_shape t c H) as (t2 & _ & ->).
    by destruct (wasRaw t) as [raw|], (stdinRaw t).
  - unfold DynamicTerminalThread.stopCall. by rewrite H.
Qed.

(** What [stop] has done in any case when it is left. *)
Lemma stop_always t c :
  active (stop t c) = false
  /\ (active t = true -> renderInterval (stop t c) = false)
  /\ (stdinRaw (stop t c) = None <-> stdinRaw t = None).
Proof.
  destruct (active t) eqn:H; [|by rewrite stop_inactive].
  unfold DynamicTerminalThread.stop.
  destruct (stopCall_shape t c H) as (t2 & (A & R & W & S & C & _) & ->).
  unfold DynamicTerminalThread.write.
  destruct (wasRaw t) as [raw|], (stdinRaw t) as [isRaw|] eqn:E,
    (cursorHidden t), debugEnabled;
    cbn [fst active renderInterval stdinRaw setNextRender setPreviousRender
         setCursorHidden setStdout setWasRaw setStdinRaw setStdin];
    rewrite ?A, ?R, ?S; by repeat split.
Qed.

(** What [stop] has done when it returns from an active session. *)
Lemma stop_fields t c :
  active t = true ->
  stopThrows t c = false ->
  cursorHidden (stop t c) = false /\ wasRaw (stop t c) = None
  /\ nextRender (stop t c) = [] /\ previousRender (stop t c) = []
  /\ stdinRaw (stop t c)
     = match wasRaw t with
       | Some raw => Some (default false raw)
       | None => stdinRaw t
       end.
Proof.
  intros H. rewrite stopThrows_spec, H. cbn [andb]. intros Hthrow.
  unfold DynamicTerminalThread.stop.
  destruct (stopCall_shape t c H) as (t2 & (A & R & W & S & C & _) & ->).
  unfold DynamicTerminalThread.write.
  destruct (wasRaw t) as [raw|], (stdinRaw t) as [isRaw|] eqn:E;
    try (by rewrite !bool_decide_eq_true_2 in Hthrow);
    destruct (cursorHidden t), debugEnabled;
    cbn [fst cursorHidden wasRaw nextRender previousRender stdinRaw
         setNextRender setPreviousRender
         setCursorHidden setStdout setWasRaw setStdinRaw setStdin];
    rewrite ?S; by repeat split.
Qed.

(** What [stop] leaves undone when it throws. *)
Lemma stop_thrown t (c : bool) :
  stopThrows t c = true ->
  active t = true /\ stdinRaw t = None
  /\ wasRaw (stop t c) = wasRaw t /\ wasRaw t <> None
  /\ cursorHidden (stop t c) = cursorHidden t
  /\ stdinRaw (stop t c) = None
  /\ nextRender (stop t c) = (if c then nextRender t else [])
  /\ previousRender (stop t c) = previousRender t.
Proof.
  rewrite stopThrows_spec.
  intros [[H Hw%bool_decide_eq_true]%andb_prop
            Hs%bool_decide_eq_true]%andb_prop.
  unfold DynamicTerminalThread.stop.
  destruct (stopCall_shape t c H) as (t2 & (A & R & W & S & C & N & P) & ->).
  rewrite Hs. destruct (wasRaw t) as [raw|] eqn:E; [|done].
  cbn [fst]. rewrite W, S, C, N, P, Hs. by repeat split.
Qed.

Lemma react_session t s :
  active t = true -> keepsSession s = true -> SameSession t (react t s).
Proof.
  intros H Hs. destruct s as [[c u]| |size]; cbn [EventLoop.react].
  - unfold DynamicTerminalThread.onMessage. cbn [cmd].
    destruct c; cbn [fst]; try done; try apply SameSession_refl.
    + rewrite start_active by done. apply SameSession_refl.
    + apply update_session.
    + apply update_session.
    + eapply SameSession_trans; [|apply Painted_session, render_painted].
      case_bool_decide; [by repeat split | apply SameSession_refl].
  - destruct (renderInterval t); [apply updateSpinner_painted|].
    apply SameSession_refl.
  - by repeat split.
Qed.

Lemma reactAll_session ss : forall t,
  active t = true -> forallb keepsSession ss = true ->
  SameSession t (reactAll t ss).
Proof.
  induction ss as [|s ss IH]; intros t H Hs; [apply SameSession_refl|].
  cbn in Hs. apply andb_prop in Hs as [Hs Hss].
  pose proof (react_session t s H Hs) as HS.
  eapply SameSession_trans; [exact HS|].
  apply IH; [|done]. destruct HS as (-> & _). done.
Qed.

Lemma react_idle t s : Idle t -> Idle (react t s).
Proof.
  intros HI.
  assert (Hkeep : forall t', SameSession t t' ->
                             renderInterval t' = renderInterval t -> Idle t').
  { intros t' (A & W & C & S) R Hin. rewrite R, W, C, S. apply HI. congruence. }
  assert (Hstop : forall c, Idle (stop t c)).
  { intros c. destruct (active t) eqn:H; [|by rewrite stop_inactive].
    intros _. destruct (stop_always t c) as (_ & R & _).
    split; [by apply R|].
    destruct (stopThrows t c) eqn:E.
    - left. by apply stop_thrown.
    - right. destruct (stop_fields t c H E) as (? & ? & _). done. }
  destruct s as [[c u]| |size]; cbn [EventLoop.react].
  - unfold DynamicTerminalThread.onMessage. cbn [cmd].
    destruct c; cbn [fst]; try done.
    + intros Hin. by rewrite start_is_active in Hin.
    + destruct (active t) eqn:H.
      * intros Hin. destruct (update_session t c) as (A & _). congruence.
      * rewrite update_inactive by done. by apply Hkeep.
    + destruct (active t) eqn:H.
      * intros Hin. destruct (update_session t c) as (A & _). congruence.
      * rewrite update_inactive by done. by apply Hkeep.
    + match goal with |- context [render ?x] =>
        pose proof (Painted_fields _ _ (render_painted x)) as (HS & HR & _) end.
      apply Hkeep.
      * eapply SameSession_trans; [|exact HS].
        case_bool_decide; [by repeat split | apply SameSession_refl].
      * rewrite HR. by case_bool_decide.
  - destruct (renderInterval t) eqn:R; [|done].
    apply Hkeep; [apply updateSpinner_painted|].
    etrans; [apply updateSpinner_painted | exact R].
  - by apply Hkeep.
Qed.

(** Whether stdin is a terminal never changes. *)
Lemma react_terminal t s : stdinRaw (react t s) = None <-> stdinRaw t = None.
Proof.
  assert (Hkeep : forall t', SameSession t t' ->
                             (stdinRaw t' = None <-> stdinRaw t = None)).
  { intros t' (_ & _ & _ & ->). done. }
  destruct s as [[c u]| |size]; cbn [EventLoop.react].
  - unfold DynamicTerminalThread.onMessage. cbn [cmd].
    destruct c; cbn [fst]; try done.
    + destruct (active t) eqn:H; [by rewrite start_active|].
      by apply start_always.
    + apply stop_always.
    + apply stop_always.
    + apply Hkeep, update_session.
    + apply Hkeep, update_session.
    + apply Hkeep.
      eapply SameSession_trans; [|apply Painted_session, render_painted].
      case_bool_decide; [by repeat split | apply SameSession_refl].
  - destruct (renderInterval t); [|done].
    apply Hkeep, updateSpinner_painted.
  - done.
Qed.

Lemma moveCursorTo_written t l i :
  debugEnabled = false ->
  exists ws, stdout (moveCursorTo t l i) = stdout t ++ ws
             /\ (ws = [] <-> l = cursorLine t /\ i = cursorIndex t).
Proof.
  intros Hd.
  unfold DynamicTerminalThread.moveCursorTo, DynamicTerminalThread.write.
  rewrite Hd.
  destruct (Nat.ltb_spec l (cursorLine t)) as [Hl|Hl];
    [|destruct (Nat.ltb_spec (cursorLine t) l) as [Hl'|Hl']];
    cbn [cursorIndex cursorLine stdout setCursor setStdout];
    (match goal with |- context [(?a <? i)%nat] =>
       destruct (Nat.ltb_spec a i) end;
     [|match goal with |- context [(i <? ?a)%nat] =>
         destruct (Nat.ltb_spec i a) end;
       [destruct (i =? 0)%nat|]]);
    cbn [stdout setCursor setStdout];
    first
      [ exists []; split;
        [by rewrite app_nil_r | split; [intros _; lia | done]]
      | eexists [_]; split;
        [reflexivity | split; [discriminate | intros [? ?]; lia]]
      | eexists [_; _]; split;
        [by rewrite <- app_assoc | split; [discriminate | intros [? ?]; lia]] ].
Qed.

(** X1. After [moveCursorTo(line, index)] the cursor is believed to be
    at that line and index, whatever its position was, and nothing but
    the cursor and the output has changed. *)
Theorem moveCursorTo_reaches t l i :
  cursorLine (moveCursorTo t l i) = l
  /\ cursorIndex (moveCursorTo t l i) = i
  /\ Moved t (moveCursorTo t l i).
Proof.
  destruct (moveCursorTo_cursor t l i) as [A B].
  split; [exact A|]. split; [exact B|]. apply moveCursorTo_moved.
Qed.

(** X2. [moveCursorTo] writes nothing exactly when the debug channel is
    enabled or the cursor is already at the line and index asked for. *)
Theorem moveCursorTo_silent t l i :
  stdout (moveCursorTo t l i) = stdout t
  <-> debugEnabled = true \/ (l = cursorLine t /\ i = cursorIndex t).
Proof.
  destruct (decide (debugEnabled = true)) as [Hd|Hd%not_true_is_false].
  - split; [by left|intros _].
    unfold DynamicTerminalThread.moveCursorTo, DynamicTerminalThread.write.
    rewrite Hd. repeat case_match; done.
  - destruct (moveCursorTo_written t l i Hd) as (ws & -> & Hws). split.
    + intros E. right. apply Hws. apply (app_inv_head (stdout t)).
      by rewrite app_nil_r.
    + intros [?|HH]; [congruence|]. apply Hws in HH as ->.
      by rewrite app_nil_r.
Qed.

(** X3. A render of an active thread leaves the cursor at the end of
    the last row of the new frame, remembers the rows of that frame, with
    no indentation, as the previous render, and the spinner drawn as the
    previous spinner; the queue and the session are untouched. *)
Theorem render_leaves_cursor_at_end t :
  active t = true ->
  let next := buildNext wrapAnsi indentString t (width (terminalSize t)) in
  cursorLine (render t) = (length next - 1)%nat
  /\ cursorIndex (render t) = length (default [] (fst <$> last next))
  /\ previousRender (render t)
     = map (fun l => {| indent := 0; ltext := fst l; force := false |}) next
  /\ previousSpinner (render t) = nextSpinner t
  /\ Painted t (render t).
Proof.
  intros H next. pose proof (render_painted t) as HP. revert HP.
  unfold DynamicTerminalThread.render. rewrite H. cbn [negb]. cbv zeta.
  fold next. intros HP.
  match goal with |- context [setPreviousRender (moveCursorTo ?x ?l ?i) ?p] =>
    set (t4 := x) in *; destruct (moveCursorTo_cursor t4 l i) as [A B];
    pose proof (Moved_fields _ _ (moveCursorTo_moved t4 l i)) as (PS & _) end.
  split; [exact A|]. split; [exact B|]. split; [reflexivity|].
  split; [|exact HP].
  change (previousSpinner (setPreviousRender ?x _)) with (previousSpinner x).
  rewrite PS. unfold t4.
  match goal with |- context [fold_left applyChange ?cs ?x] =>
    pose proof (Moved_fields _ _ (applyChanges_moved cs x)) as (-> & _) end.
  cbn [previousSpinner setPreviousSpinner].
  match goal with |- nextSpinner (if ?b then _ else _) = _ => destruct b end;
    [|reflexivity].
  change (nextSpinner (setPreviousSize ?x _)) with (nextSpinner x).
  unfold stdoutWrite.
  change (nextSpinner (setStdout ?x _)) with (nextSpinner x).
  match goal with |- context [moveCursorTo ?x ?l ?i] =>
    pose proof (Moved_fields _ _ (moveCursorTo_moved x l i)) as (_ & -> & _) end.
  reflexivity.
Qed.

(** X4. Starting a started session and stopping a stopped one change
    nothing: a second [start], whatever its options, and a second [stop],
    whatever its argument, leave the thread as the first did. *)
Theorem start_stop_idempotent t o o' c c' :
  start (start t o) o' = start t o /\ stop (stop t c) c' = stop t c.
Proof.
  split.
  - apply start_active, start_is_active.
  - apply stop_inactive, stop_always.
Qed.

(** X5. On a terminal a session gives stdin back as it found it: when
    stdin is a terminal and a session is started on an inactive thread,
    with whatever options, and stopped after any updates, renders, ticks
    of the timer and resizes, neither [start] nor [stop] throws, stdin
    is in the raw mode it was in before the start, the cursor is no longer
    marked hidden, the timer is off and both frames are forgotten. *)
Theorem session_restores_terminal t0 o ss c :
  active t0 = false ->
  stdinRaw t0 <> None ->
  forallb keepsSession ss = true ->
  let t' := stop (reactAll (start t0 o) ss) c in
  startThrows t0 o = false
  /\ stopThrows (reactAll (start t0 o) ss) c = false
  /\ stdinRaw t' = stdinRaw t0
  /\ active t' = false /\ wasRaw t' = None /\ cursorHidden t' = false
  /\ renderInterval t' = false
  /\ nextRender t' = [] /\ previousRender t' = [].
Proof.
  intros H0 Hterm Hss t'.
  destruct (start_always t0 o H0) as (A & W & T).
  destruct (reactAll_session ss (start t0 o) A Hss) as (A' & W' & _ & S').
  rewrite A in A'. rewrite W in W'.
  assert (Hs : stdinRaw (reactAll (start t0 o) ss) <> None).
  { rewrite S'. by rewrite T. }
  assert (E1 : startThrows t0 o = false).
  { rewrite startThrows_spec. rewrite (bool_decide_eq_false_2 _ Hterm).
    apply andb_false_r. }
  assert (E2 : stopThrows (reactAll (start t0 o) ss) c = false).
  { rewrite stopThrows_spec. rewrite (bool_decide_eq_false_2 _ Hs).
    apply andb_false_r. }
  destruct (stop_always (reactAll (start t0 o) ss) c) as (? & R & _).
  destruct (stop_fields _ c A' E2) as (? & ? & ? & ? & S).
  rewrite W' in S. unfold t'. rewrite S.
  split; [done|]. split; [done|]. split.
  - destruct (stdinRaw t0); done.
  - repeat split; try done. by apply R.
Qed.

(** X7. Between sessions the thread is idle: in every state reached
    from the constructor by messages, ticks and resizes in any order,
    whatever stdin is, an inactive thread has no timer running; and when
    stdin is a terminal, it has no hidden cursor and no raw mode to
    restore either. *)
Theorem idle_between_sessions stdin firstFrame size ss :
  let t := reactAll (setStdin (created firstFrame size) stdin) ss in
  active t = false ->
  renderInterval t = false
  /\ (stdin = None \/ (cursorHidden t = false /\ wasRaw t = None)).
Proof.
  intros t. subst t.
  assert (HI : Idle (setStdin (created firstFrame size) stdin)
               /\ (stdinRaw (setStdin (created firstFrame size) stdin) = None
                   <-> stdin = None)).
  { split; [|done]. intros _. split; [done|]. by right. }
  revert HI. generalize (setStdin (created firstFrame size) stdin).
  induction ss as [|s ss IH]; intros t [HI HT].
  - intros Hin. destruct (HI Hin) as [R [N|C]]; [|by auto].
    split; [done|]. left. by apply HT.
  - apply IH. split; [by apply react_idle|]. by rewrite react_terminal.
Qed.

(** X8. Without a session nothing is written: as long as no START
    message arrives, whatever else is sent to an inactive thread, and
    whatever the timer and the terminal do, the output stays as it was
    and the thread stays inactive. *)
Theorem silent_without_session t ss :
  active t = false ->
  forallb (fun s => negb (startsSession s)) ss = true ->
  stdout (reactAll t ss) = stdout t /\ active (reactAll t ss) = false.
Proof.
  revert t. induction ss as [|s ss IH]; intros t H Hss; [done|].
  cbn in Hss. apply andb_prop in Hss as [Hs Hss].
  assert (Hstep : stdout (react t s) = stdout t /\ active (react t s) = false).
  { destruct s as [[c u]| |size]; cbn [EventLoop.react].
    - unfold DynamicTerminalThread.onMessage. cbn [cmd].
      destruct c; cbn [fst]; try done;
        rewrite ?stop_inactive, ?update_inactive by done; try done.
      rewrite ThreadFacts.render_inactive; by case_bool_decide.
    - destruct (renderInterval t); [|done].
      unfold DynamicTerminalThread.updateSpinner.
      by rewrite ThreadFacts.render_inactive.
    - done. }
  destruct Hstep as [Ho Ha].
  destruct (IH (react t s) Ha Hss) as [Ho' Ha'].
  split; [|exact Ha']. cbn [EventLoop.reactAll fold_left].
  etrans; [exact Ho'|exact Ho].
Qed.

Lemma start_forgets t q r o :
  active t = false -> startThrows t o = false ->
  start (setNextRender t q) o = start t o
  /\ start (setPreviousRender t r) o = start t o.
Proof.
  intros H. rewrite startThrows_spec, H. cbn [negb andb]. intros Hthrow.
  unfold DynamicTerminalThread.start, DynamicTerminalThread.startCall,
    setRawMode.
  change (active (setNextRender t q)) with (active t).
  change (active (setPreviousRender t r)) with (active t).
  rewrite H. cbv zeta. unfold DynamicTerminalThread.write.
  change (stdinRaw (setWasRaw (setActive ?x true) _)) with (stdinRaw t).
  change (stdinRaw (setNextRender t q)) with (stdinRaw t).
  change (stdinRaw (setPreviousRender t r)) with (stdinRaw t).
  destruct (default false (disableInput o)), (stdinRaw t) as [raw|] eqn:E;
    try (by rewrite bool_decide_eq_true_2 in Hthrow); cbn [fst];
    destruct debugEnabled;
    (rewrite !startTimer_empty by reflexivity);
    destruct (default true (hideCursor o)),
      (spinnerColour o), (default 100%nat (opt_updateFrequency o)),
      (default false (opt_repaintOnResize o));
    split; reflexivity.
Qed.

(** X9. What is sent before the session starts is forgotten by a
    [start] that returns: when [start] does not throw, the state after
    START is the same whether or not updates, appends, renders, queue
    requests, stops or unknown commands were sent to the inactive thread
    before. *)
Theorem forgotten_at_start t ss o :
  active t = false ->
  startThrows t o = false ->
  forallb (fun s => isMessage s && negb (startsSession s)) ss = true ->
  start (reactAll t ss) o = start t o.
Proof.
  revert t. induction ss as [|s ss IH]; intros t H Ht Hss; [done|].
  cbn in Hss. apply andb_prop in Hss as [Hs Hss].
  cbn [EventLoop.reactAll fold_left].
  assert (Hstep : active (react t s) = false
                  /\ startThrows (react t s) o = false
                  /\ start (react t s) o = start t o).
  { destruct s as [[c u]| |size]; cbn [EventLoop.react]; try done.
    unfold DynamicTerminalThread.onMessage. cbn [cmd].
    destruct c; cbn [fst]; try done;
      rewrite ?stop_inactive, ?update_inactive by done; try done.
    - split; [done|]. split; [by rewrite startThrows_spec in *|].
      apply (proj1 (start_forgets t _ [] o H Ht)).
    - split; [done|]. split; [by rewrite startThrows_spec in *|].
      apply (proj1 (start_forgets t _ [] o H Ht)).
    - rewrite ThreadFacts.render_inactive by (by case_bool_decide).
      case_bool_decide; [|done].
      split; [done|]. split; [by rewrite startThrows_spec in *|].
      apply (proj2 (start_forgets t [] _ o H Ht)). }
  destruct Hstep as (Ha & Ht' & Hst).
  etrans; [apply (IH (react t s) Ha Ht' Hss)|exact Hst].
Qed.

(** X6. On a terminal the cursor is hidden for the time of the session
    only: with the debug channel off, stdin a terminal and the cursor to
    be hidden (the default), [start] on an inactive thread writes the
    sequence that hides the cursor and then a carriage return with an
    erasure of the line, and nothing else; the last thing [stop] writes,
    after whatever updates, renders, ticks and resizes came in between,
    is the sequence that shows the cursor. *)
Theorem cursor_hidden_and_shown t0 o ss c :
  debugEnabled = false ->
  active t0 = false ->
  stdinRaw t0 <> None ->
  default true (hideCursor o) = true ->
  forallb keepsSession ss = true ->
  stdout (start t0 o)
  = stdout t0 ++ [Ansi.cursorHide; "013"%char :: Ansi.eraseEndLine]
  /\ last (stdout (stop (reactAll (start t0 o) ss) c)) = Some Ansi.cursorShow.
Proof.
  intros Hd H0 Hterm Hh Hss.
  assert (Hst : stdout (start t0 o)
                = stdout t0 ++ [Ansi.cursorHide; "013"%char :: Ansi.eraseEndLine]).
  { unfold DynamicTerminalThread.start, DynamicTerminalThread.startCall,
      setRawMode.
    rewrite H0. cbv zeta.
    change (stdinRaw (setWasRaw (setActive t0 true) (Some (stdinRaw t0))))
      with (stdinRaw t0).
    unfold DynamicTerminalThread.write. rewrite Hd, Hh.
    destruct (stdinRaw t0) as [raw|]; [|done].
    destruct (default false (disableInput o)); cbn [fst];
      (rewrite startTimer_empty by reflexivity);
      destruct (spinnerColour o),
        (default 100%nat (opt_updateFrequency o)),
        (default false (opt_repaintOnResize o));
      (transitivity ((stdout t0 ++ [Ansi.cursorHide])
                     ++ ["013"%char :: Ansi.eraseEndLine]);
       [reflexivity | by rewrite <- app_assoc]). }
  split; [exact Hst|].
  destruct (start_always t0 o H0) as (A & _ & T).
  assert (E1 : startThrows t0 o = false).
  { rewrite startThrows_spec. rewrite (bool_decide_eq_false_2 _ Hterm).
    apply andb_false_r. }
  destruct (start_fields t0 o H0 E1) as (_ & _ & _ & _ & Hc & _).
  rewrite Hh in Hc.
  destruct (reactAll_session ss (start t0 o) A Hss) as (A' & _ & C' & S').
  rewrite A in A'. rewrite Hc in C'.
  unfold DynamicTerminalThread.stop.
  destruct (stopCall_shape _ c A') as (t2 & _ & ->).
  rewrite C'.
  assert (Hs : stdinRaw (reactAll (start t0 o) ss) <> None).
  { rewrite S'. by rewrite T. }
  destruct (stdinRaw (reactAll (start t0 o) ss)) as [raw|]; [|done].
  destruct (wasRaw (reactAll (start t0 o) ss));
    unfold DynamicTerminalThread.write; rewrite Hd; cbv zeta;
    cbn [fst stdout setNextRender setPreviousRender setCursorHidden setStdout];
    apply last_snoc.
Qed.

Lemma write_stdout t s :
  stdout (write t s) = stdout t ++ (if debugEnabled then [] else [s]).
Proof.
  unfold DynamicTerminalThread.write.
  destruct debugEnabled; cbn; by rewrite ?app_nil_r.
Qed.

(** X26. One change applied: the cursor is moved to the line and index
    of the change, the text is written there (unless the debug channel is
    enabled), and the cursor is then believed to be on that line, as many
    columns further as the text has characters outside escape
    sequences. *)
Theorem applyChange_bookkeeping t c :
  cursorLine (applyChange t c) = line c
  /\ cursorIndex (applyChange t c)
     = (index c + length (Ansi.stripAnsi (text c)))%nat
  /\ stdout (applyChange t c)
     = stdout (moveCursorTo t (line c) (index c))
       ++ (if debugEnabled then [] else [text c]).
Proof.
  destruct (moveCursorTo_cursor t (line c) (index c)) as [A B].
  unfold DynamicTerminalThread.applyChange. cbv zeta.
  cbn [cursorLine cursorIndex stdout setCursor].
  assert (Hw : forall x s, cursorLine (write x s) = cursorLine x
                           /\ cursorIndex (write x s) = cursorIndex x).
  { intros x s. unfold DynamicTerminalThread.write.
    by destruct debugEnabled. }
  destruct (Hw (moveCursorTo t (line c) (index c)) (text c)) as [-> ->].
  rewrite A, B. split; [done|]. split; [done|]. apply write_stdout.
Qed.

Lemma update_timer t c :
  active t = true ->
  renderInterval t = true
  \/ existsb hasSpinner (processTextToLineObjects c) = true ->
  renderInterval (update t c) = true.
Proof.
  intros Ha H. unfold DynamicTerminalThread.update.
  match goal with |- context [render ?x] =>
    destruct (Painted_fields _ _ (render_painted x)) as (_ & -> & _) end.
  unfold startTimer.
  change (renderInterval (setNextRender t ?q)) with (renderInterval t).
  change (active (setNextRender t ?q)) with (active t).
  change (nextRender (setNextRender t ?q)) with q.
  rewrite Ha. destruct (renderInterval t) eqn:R; [done|].
  destruct H as [H|H]; [done|]. cbn [negb andb]. by rewrite H.
Qed.

Lemma react_timer t s :
  active t = true -> renderInterval t = true -> keepsSession s = true ->
  renderInterval (react t s) = true.
Proof.
  intros Ha R Hs. destruct s as [[c u]| |size]; cbn [EventLoop.react].
  - unfold DynamicTerminalThread.onMessage. cbn [cmd].
    destruct c; cbn [fst]; try done.
    + by rewrite start_active.
    + apply update_timer; auto.
    + apply update_timer; auto.
    + match goal with |- context [render ?x] =>
        destruct (Painted_fields _ _ (render_painted x)) as (_ & -> & _) end.
      by case_bool_decide.
  - rewrite R. by rewrite (proj2 (updateSpinner_painted t)).
  - done.
Qed.

(** X27. The timer, once started, runs until the session is stopped: an
    update of an active thread with a line that holds the spinner starts
    the timer, and it is still running after any later updates (also ones
    without a spinner), renders, ticks and resizes. *)
Theorem timer_runs_until_stop t c ss :
  active t = true ->
  existsb hasSpinner (processTextToLineObjects c) = true ->
  forallb keepsSession ss = true ->
  renderInterval (reactAll (update t c) ss) = true.
Proof.
  intros Ha Hc Hss.
  assert (H0 : active (update t c) = true
               /\ renderInterval (update t c) = true).
  { split; [|apply update_timer; auto].
    destruct (update_session t c) as (-> & _). done. }
  revert H0. generalize (update t c). clear Ha Hc.
  induction ss as [|s ss IH]; intros x [Ha R]; [exact R|].
  cbn in Hss. apply andb_prop in Hss as [Hs Hss].
  cbn [EventLoop.reactAll fold_left]. apply IH; [done|]. split.
  - destruct (react_session x s Ha Hs) as (-> & _). done.
  - by apply react_timer.
Qed.


(** X29. When stdin is not a terminal, a [start] that is to disable the
    input throws: the thread is then marked active, with [wasRaw]
    undefined, and nothing else has happened: nothing is written, the
    cursor is not hidden, the queue and the previous render are not
    emptied, and the handler answers with the status error. *)
Theorem start_throws_without_terminal t0 o u :
  active t0 = false ->
  stdinRaw t0 = None ->
  default false (disableInput o) = true ->
  startThrows t0 o = true
  /\ start t0 o = setWasRaw (setActive t0 true) (Some None)
  /\ onMessage t0 (mkMessage (START (Some o)) u)
     = (setWasRaw (setActive t0 true) (Some None),
        Some (mkResponse "error" None u)).
Proof.
  intros H0 Hpipe Hd.
  assert (E : startThrows t0 o = true).
  { rewrite startThrows_spec, H0, Hd.
    by rewrite bool_decide_eq_true_2. }
  destruct (start_thrown t0 o E) as (Hs & _).
  split; [done|]. split; [done|].
  unfold DynamicTerminalThread.onMessage. cbn [cmd].
  change (default noOptions (Some o)) with o. by rewrite Hs, E.
Qed.

End Facts.

(** A witness of X3: an update of a started session with two lines. *)
Lemma render_leaves_cursor_at_end_witness :
  let plain (s : jstring) (_ : nat) := s in
  let t0 := start false (created (str "-") (mkSize 80 30)) noOptions in
  let t := setNextRender t0 [mkLine (str "ab") 0 false; mkLine (str "cde") 0 false] in
  cursorLine (render plain plain false t) = 1%nat
  /\ cursorIndex (render plain plain false t) = 3%nat.
Proof.
  intros plain t0 t.
  destruct (render_leaves_cursor_at_end plain plain false t eq_refl)
    as (A & B & _).
  split; [exact A | exact B].
Defined.

(** A witness of X5: a session that disables input, with an update, a
    tick of the timer and a resize. *)
Lemma session_restores_terminal_witness :
  let plain (s : jstring) (_ : nat) := s in
  let frames (n : nat) := str "-" in
  let t0 := created (str "-") (mkSize 80 30) in
  let o := mkOptions (Some true) None None None None in
  let ss := [Received (mkMessage (UPDATE (CString (str "a _*_"))) "1");
             Tick; Resized (mkSize 100 30)] in
  stdinRaw (reactAll plain plain frames false (start false t0 o) ss)
  = Some true
  /\ stdinRaw (stop plain plain false
                 (reactAll plain plain frames false (start false t0 o) ss) true)
     = stdinRaw t0.
Proof.
  intros plain frames t0 o ss.
  split; [reflexivity|].
  destruct (session_restores_terminal plain plain frames false t0 o ss true
              eq_refl ltac:(discriminate) eq_refl) as (_ & _ & H & _).
  exact H.
Defined.

(** A witness of X6. *)
Lemma cursor_hidden_and_shown_witness :
  let plain (s : jstring) (_ : nat) := s in
  let frames (n : nat) := str "-" in
  let t0 := created (str "-") (mkSize 80 30) in
  let ss := [Received (mkMessage (UPDATE (CString (str "a"))) "1")] in
  stdout (start false t0 noOptions)
  = [Ansi.cursorHide; "013"%char :: Ansi.eraseEndLine]
  /\ last (stdout (stop plain plain false
                     (reactAll plain plain frames false
                        (start false t0 noOptions) ss) true))
     = Some Ansi.cursorShow.
Proof.
  intros plain frames t0 ss.
  apply (cursor_hidden_and_shown plain plain frames false t0 noOptions ss true
           eq_refl eq_refl ltac:(discriminate) eq_refl eq_refl).
Defined.

(** A witness of X7: a session with a spinner, whose timer runs, is
    stopped on a terminal. *)
Lemma idle_between_sessions_witness :
  let plain (s : jstring) (_ : nat) := s in
  let frames (n : nat) := str "-" in
  let ss := [Received (mkMessage (START None) "1");
             Received (mkMessage (UPDATE (CString (str "a _*_"))) "2");
             Tick;
             Received (mkMessage (STOP None) "3")] in
  let t := reactAll plain plain frames false
             (setStdin (created (str "-") (mkSize 80 30)) (Some false)) ss in
  renderInterval t = false
  /\ (Some false = None \/ (cursorHidden t = false /\ wasRaw t = None)).
Proof.
  intros plain frames ss.
  apply (idle_between_sessions plain plain frames false (Some false) (str "-")
           (mkSize 80 30) ss eq_refl).
Defined.

(** A witness of X8: an update, a forced render and a stop without a
    session. *)
Lemma silent_without_session_witness :
  let plain (s : jstring) (_ : nat) := s in
  let frames (n : nat) := str "-" in
  let t := created (str "-") (mkSize 80 30) in
  let ss := [Received (mkMessage (UPDATE (CString (str "a"))) "1");
             Received (mkMessage (RENDER (Some true)) "2");
             Tick;
             Received (mkMessage (STOP None) "3")] in
  stdout (reactAll plain plain frames false t ss) = stdout t
  /\ active (reactAll plain plain frames false t ss) = false.
Proof.
  intros plain frames t ss.
  apply (silent_without_session plain plain frames false t ss eq_refl eq_refl).
Defined.

(** A witness of X9: an update and a forced render before the start. *)
Lemma forgotten_at_start_witness :
  let plain (s : jstring) (_ : nat) := s in
  let frames (n : nat) := str "-" in
  let t := created (str "-") (mkSize 80 30) in
  let ss := [Received (mkMessage (UPDATE (CString (str "a"))) "1");
             Received (mkMessage (RENDER (Some true)) "2")] in
  start false (reactAll plain plain frames false t ss) noOptions
  = start false t noOptions.
Proof.
  intros plain frames t ss.
  apply (forgotten_at_start plain plain frames false t ss noOptions
           eq_refl eq_refl eq_refl).
Defined.

(** A witness of X27: a line with a spinner, then a line without. *)
Lemma timer_runs_until_stop_witness :
  let plain (s : jstring) (_ : nat) := s in
  let frames (n : nat) := str "-" in
  let t := start false (created (str "-") (mkSize 80 30)) noOptions in
  let ss := [Received (mkMessage (UPDATE (CString (str "done"))) "2"); Tick] in
  renderInterval t = false
  /\ renderInterval
       (reactAll plain plain frames false
          (update plain plain false t (CString (str "a _*_"))) ss) = true.
Proof.
  intros plain frames t ss. split; [reflexivity|].
  apply (timer_runs_until_stop plain plain frames false t
           (CString (str "a _*_")) ss eq_refl eq_refl eq_refl).
Defined.


(** A witness of X29: input is to be disabled on a pipe. *)
Lemma start_throws_without_terminal_witness :
  let t0 := setStdin (created (str "-") (mkSize 80 30)) None in
  let o := mkOptions (Some true) None None None None in
  startThrows false t0 o = true
  /\ stdout (start false t0 o) = [].
Proof.
  intros t0 o.
  destruct (start_throws_without_terminal (fun s _ => s) (fun s _ => s) false
              t0 o "1"
              eq_refl eq_refl eq_refl) as (H1 & H2 & _).
  split; [exact H1 | by rewrite H2].
Defined.

End SessionFacts.

(** ** The changes of a frame, and the lines of the queue *)
Module FrameFacts.

Import ChangeAlgorithm DynamicTerminalThread Frames.

Lemma collectChanges_concat previousLines nextLines : forall k acc,
  collectChanges previousLines k nextLines acc
  = acc ++ concat (imap (fun j r => lineChanges previousLines (k + j) r)
                        nextLines).
Proof.
  induction nextLines as [|r rows IH]; intros k acc; cbn [collectChanges].
  - cbn. by rewrite app_nil_r.
  - rewrite IH. cbn [imap concat]. rewrite Nat.add_0_r, <- app_assoc.
    do 2 f_equal. f_equal. apply imap_ext. intros j x _. cbn.
    f_equal. lia.
Qed.

Lemma concat_imap_nil {A B : Type} (l : list A) :
  concat (imap (fun _ _ => @nil B) l) = [].
Proof. induction l as [|x l IH]; [done|]. cbn. exact IH. Qed.

Lemma lineChanges_first_paint j r : lineChanges [] j r = paintRow j r.
Proof.
  unfold lineChanges, paintRow. destruct (snd r); [done|].
  rewrite lookup_nil. cbn [default]. unfold getChanges.
  destruct (fst r) as [|a s].
  - by rewrite bool_decide_eq_true_2.
  - by rewrite bool_decide_eq_false_2.
Qed.

(** X10. On an empty screen every row is painted whole: when nothing is
    remembered of the previous frame (the first render of a session, or
    a render after [resetRender]), the changes of a render are, row by
    row, the row itself from column 0 on, with an erasure of the line
    for a forced row and nothing for an empty row. *)
Theorem first_paint (nextLines : list (jstring * bool)) :
  renderChanges [] nextLines = concat (imap paintRow nextLines).
Proof.
  unfold renderChanges. cbv zeta.
  replace (length nextLines <? length (@nil jstring))%nat with false
    by (symmetry; apply Nat.ltb_ge; cbn; lia).
  rewrite collectChanges_concat. cbn [app]. f_equal.
  apply imap_ext. intros j r _. cbn. apply lineChanges_first_paint.
Qed.

(** A frame that is drawn again as it is, with no row forced, needs no
    change at all. *)
Lemma renderChanges_unchanged (rows : list jstring) :
  renderChanges rows (map (fun s => (s, false)) rows) = [].
Proof.
  unfold renderChanges. cbv zeta. rewrite length_map, Nat.ltb_irrefl.
  rewrite collectChanges_concat. cbn [app].
  rewrite <- (concat_imap_nil (B := IChange) (map (fun s => (s, false)) rows)).
  f_equal. apply imap_ext. intros j r Hr. cbn.
  rewrite list_lookup_fmap in Hr.
  destruct (rows !! j) as [s|] eqn:Hs; [|done].
  cbn in Hr. injection Hr as <-.
  unfold lineChanges. cbn [fst snd]. rewrite Hs. cbn [default].
  unfold getChanges. by rewrite bool_decide_eq_true_2.
Qed.

(** X12. When the new frame has fewer rows than the previous one, the
    erasure of the screen below is the end of the text of the last
    change, and a change of its own only when no row changed.  It is
    written where that change ends, not below the new frame: when the
    first of three rows changes and the third is dropped, the only change
    is on row 0 and carries the erasure, although row 1 is kept. *)
Theorem shrinking_frame_erases_down
    (previousLines : list jstring) (nextLines : list (jstring * bool)) :
  (length nextLines < length previousLines)%nat ->
  (exists before c t,
      renderChanges previousLines nextLines = before ++ [c]
      /\ text c = t ++ Ansi.eraseDown
      /\ (collectChanges previousLines 0 nextLines [] = []
          -> before = [] /\ line c = 0%nat /\ index c = 0%nat /\ t = []))
  /\ renderChanges [str "a"; str "b"; str "c"] [(str "x", false); (str "b", false)]
     = [{| line := 0; index := 0;
           text := RESET_STYLE ++ str "x" ++ Ansi.eraseDown |}].
Proof.
  intros Hlen. split; [|by vm_compute].
  unfold renderChanges. cbv zeta.
  apply Nat.ltb_lt in Hlen. rewrite Hlen.
  destruct (ScanFacts.appendToLast_spec (collectChanges previousLines 0 nextLines [])
              Ansi.eraseDown
              {| index := 0; line := 0; text := Ansi.eraseDown |})
    as [[-> ->]|(before & c & -> & ->)].
  - exists [], {| index := 0; line := 0; text := Ansi.eraseDown |}, [].
    by repeat split.
  - exists before, (addText c Ansi.eraseDown), (text c).
    split; [done|]. split; [done|]. intros E. by destruct before.
Qed.

(** A witness of X12: the first of three rows changes and the third is
    dropped. *)
Lemma shrinking_frame_erases_down_witness :
  exists before c t,
    renderChanges [str "a"; str "b"; str "c"]
                  [(str "x", false); (str "b", false)] = before ++ [c]
    /\ text c = t ++ Ansi.eraseDown.
Proof.
  destruct (shrinking_frame_erases_down
              [str "a"; str "b"; str "c"]
              [(str "x", false); (str "b", false)]
              ltac:(cbn; lia)) as [(before & c & t & E & T & _) _].
  exists before, c, t. split; [exact E | exact T].
Defined.

Lemma splitLines_cons s : exists l ls, Js.splitLines s = l :: ls.
Proof.
  induction s as [|c s (l & ls & IH)]; cbn; [by eexists _, _|].
  case_bool_decide; [by eexists _, _|]. rewrite IH. by eexists _, _.
Qed.

Lemma joinLines_splitLines s : joinLines (Js.splitLines s) = s.
Proof.
  induction s as [|c s IH]; [done|]. cbn [Js.splitLines].
  destruct (splitLines_cons s) as (l & ls & E). rewrite E in *.
  case_bool_decide as Hc.
  - subst c. change (joinLines ([] :: l :: ls))
      with ("010"%char :: joinLines (l :: ls)). by rewrite IH.
  - destruct ls as [|l' ls]; cbn in *; by rewrite IH.
Qed.

Lemma splitLines_no_line_feed s :
  Forall (fun l => "010"%char ∉ l) (Js.splitLines s).
Proof.
  induction s as [|c s IH]; cbn [Js.splitLines].
  - constructor; [apply not_elem_of_nil | constructor].
  - case_bool_decide as Hc.
    + constructor; [apply not_elem_of_nil | exact IH].
    + destruct (Js.splitLines s) as [|l ls].
      * constructor; [|constructor].
        intros [E|[]%elem_of_nil]%elem_of_cons. by apply Hc.
      * inversion IH as [|? ? Hl Hls]; subst. constructor; [|exact Hls].
        intros [E|?]%elem_of_cons; [by apply Hc | done].
Qed.

Lemma splitLines_length s :
  length (Js.splitLines s) = S (length (filter (fun c => c = "010"%char) s)).
Proof.
  induction s as [|c s IH]; [done|]. cbn [Js.splitLines].
  case_bool_decide as Hc.
  - rewrite filter_cons_True by done. cbn. by rewrite IH.
  - rewrite filter_cons_False by done. rewrite <- IH.
    destruct (splitLines_cons s) as (l & ls & ->). done.
Qed.

(** X13. [splitStringToLineObjects] cuts a string at its line feeds and
    loses nothing: the texts of the lines, joined by line feeds, are the
    string; there is one line more than there are line feeds; no text
    holds a line feed, and every line carries the indentation and the
    force flag given. *)
Theorem split_lines_round_trip (s : jstring) (i : nat) (f : bool) :
  joinLines (map ltext (splitStringToLineObjects s i f)) = s
  /\ length (splitStringToLineObjects s i f)
     = S (length (filter (fun c => c = "010"%char) s))
  /\ Forall (fun l => ("010"%char ∉ ltext l) /\ indent l = i /\ force l = f)
            (splitStringToLineObjects s i f).
Proof.
  unfold splitStringToLineObjects. split; [|split].
  - rewrite map_map. cbn [ltext]. rewrite map_id. apply joinLines_splitLines.
  - rewrite length_map. apply splitLines_length.
  - apply Forall_map. cbn [ltext indent force].
    eapply Forall_impl; [apply splitLines_no_line_feed|]. by intros l Hl.
Qed.

Lemma elementLines_no_line_feed e :
  Forall (fun l => "010"%char ∉ ltext l) (elementLines e).
Proof.
  assert (H : forall s i f,
             Forall (fun l => "010"%char ∉ ltext l)
                    (splitStringToLineObjects s i f)).
  { intros s i f. apply Forall_map. cbn [ltext]. apply splitLines_no_line_feed. }
  destruct e as [s|l]; cbn [elementLines]; [apply H|].
  destruct (in_text l); [apply H | constructor].
Qed.

Lemma processText_array es :
  processTextToLineObjects (CArray es) = concat (map elementLines es).
Proof.
  cbn [processTextToLineObjects].
  by rewrite (ThreadFacts.fold_app_concat elementLines es []).
Qed.

Lemma processText_no_line_feed c :
  Forall (fun l => "010"%char ∉ ltext l) (processTextToLineObjects c).
Proof.
  destruct c as [s|l|es].
  - apply (elementLines_no_line_feed (EString s)).
  - apply (elementLines_no_line_feed (ELine l)).
  - rewrite processText_array. apply Forall_concat, Forall_map.
    apply Forall_forall. intros e _. apply elementLines_no_line_feed.
Qed.

(** X14. [processTextToLineObjects] treats a string or a line object as
    the array of that one element, works through an array element by
    element (the lines of two arrays put together are the lines of the
    one followed by the lines of the other), and drops an object that has
    no text. *)
Theorem processText_by_element (s : jstring) (l : LineInput)
    (es1 es2 : list Element) (i : option nat) (f : option bool) :
  processTextToLineObjects (CString s) = processTextToLineObjects (CArray [EString s])
  /\ processTextToLineObjects (CLine l) = processTextToLineObjects (CArray [ELine l])
  /\ processTextToLineObjects (CArray (es1 ++ es2))
     = processTextToLineObjects (CArray es1)
       ++ processTextToLineObjects (CArray es2)
  /\ processTextToLineObjects (CArray (es1 ++ ELine (mkLineInput None i f) :: es2))
     = processTextToLineObjects (CArray (es1 ++ es2)).
Proof.
  rewrite !processText_array, !map_app, !concat_app.
  cbn [map concat elementLines in_text app]. rewrite !app_nil_r.
  by repeat split.
Qed.

End FrameFacts.

(** ** A render of an unchanged frame *)
Module RenderFacts.

Import ChangeAlgorithm DynamicTerminalThread Frames.

(** X11. A render that has nothing new to draw writes nothing: on an
    active thread, when no repaint is due and the rows of the queue are,
    unforced, the rows remembered of the previous render, [render] finds
    no change, leaves the cursor where it is, and the output stays as it
    was. *)
Theorem unchanged_render_writes_nothing
    (wrapAnsi indentString : jstring -> nat -> jstring) (debugEnabled : bool)
    (t : Thread) :
  active t = true ->
  repaintOnResize t
  && negb (width (previousSize t) =? width (terminalSize t))%nat = false ->
  buildNext wrapAnsi indentString t (width (terminalSize t))
  = map (fun s => (s, false))
        (buildPrevious wrapAnsi indentString t (width (terminalSize t))) ->
  stdout (render wrapAnsi indentString debugEnabled t) = stdout t.
Proof.
  intros Ha Hr Hn. unfold render. rewrite Ha. cbn [negb]. cbv zeta.
  change (repaintOnResize (setCursor t ?l ?i)) with (repaintOnResize t).
  change (previousSize (setCursor t ?l ?i)) with (previousSize t).
  rewrite Hr, Hn, FrameFacts.renderChanges_unchanged.
  cbn [fold_left stdout setPreviousRender].
  set (rows := buildPrevious wrapAnsi indentString t (width (terminalSize t))).
  rewrite length_map.
  replace (fst <$> last (map (fun s : jstring => (s, false)) rows))
    with (last rows).
  2:{ clear. induction rows as [|r [|r' rows] IH]; [done..|].
      exact IH. }
  match goal with |- stdout (moveCursorTo _ ?x ?l ?i) = _ =>
    set (t3 := x);
    change (stdout t) with (stdout t3);
    change l with (cursorLine t3); change i with (cursorIndex t3) end.
  unfold moveCursorTo. by rewrite !Nat.ltb_irrefl.
Qed.

(** A witness of X11: the render after an update is repeated. *)
Lemma unchanged_render_writes_nothing_witness :
  let plain (s : jstring) (_ : nat) := s in
  let t := update plain plain false
             (start false (created (str "-") (mkSize 80 30)) noOptions)
             (CString (str "ab")) in
  stdout (render plain plain false t) = stdout t.
Proof.
  intros plain t.
  apply (unchanged_render_writes_nothing plain plain false t
           eq_refl eq_refl eq_refl).
Defined.

End RenderFacts.

(** ** The queue of the worker *)
Module QueueFacts.

Import DynamicTerminalThread EventLoop Frames.

(** X15. The queue never holds a line feed: in every state reached from
    the constructor by messages, ticks and resizes in any order, no line
    of the render queue has a line feed in its text. *)
Theorem queue_has_no_line_feed
    (wrapAnsi indentString : jstring -> nat -> jstring)
    (spinnerFrames : nat -> jstring) (debugEnabled : bool)
    (firstFrame : jstring) (size : Size) (ss : list Stimulus) :
  Forall (fun l => "010"%char ∉ ltext l)
         (nextRender (reactAll wrapAnsi indentString spinnerFrames debugEnabled
                               (created firstFrame size) ss)).
Proof.
  assert (H0 : Forall (fun l => "010"%char ∉ ltext l)
                      (nextRender (created firstFrame size)))
    by constructor.
  revert H0. generalize (created firstFrame size).
  induction ss as [|s ss IH]; intros t Ht; [exact Ht|].
  apply IH. clear IH.
  assert (Hupd : forall c,
    nextRender (update wrapAnsi indentString debugEnabled t c)
    = processTextToLineObjects c).
  { intros c. unfold update.
    destruct (ThreadFacts.render_keeps wrapAnsi indentString debugEnabled
                (startTimer (setNextRender t (processTextToLineObjects c))))
      as [-> _].
    by rewrite ThreadFacts.startTimer_keeps. }
  assert (Hstop : forall c,
    Forall (fun l => "010"%char ∉ ltext l)
           (nextRender (stop wrapAnsi indentString debugEnabled t c))).
  { intros c. destruct (active t) eqn:H.
    - destruct (stopThrows wrapAnsi indentString debugEnabled t c) eqn:E.
      + destruct (SessionFacts.stop_thrown wrapAnsi indentString debugEnabled
                    t c E) as (_ & _ & _ & _ & _ & _ & -> & _).
        destruct c; [done | constructor].
      + destruct (SessionFacts.stop_fields wrapAnsi indentString debugEnabled
                    t c H E) as (_ & _ & -> & _).
        constructor.
    - by rewrite SessionFacts.stop_inactive. }
  destruct s as [[c u]| |sz]; cbn [react].
  - unfold onMessage. cbn [cmd].
    destruct c; cbn [fst]; try done.
    + destruct (active t) eqn:H.
      * by rewrite SessionFacts.start_active.
      * destruct (startThrows debugEnabled t (default noOptions options)) eqn:E.
        -- destruct (SessionFacts.start_thrown debugEnabled t _ E) as (-> & _).
           done.
        -- destruct (SessionFacts.start_fields debugEnabled t
                       (default noOptions options) H E) as (-> & _).
           constructor.
    + rewrite Hupd. apply FrameFacts.processText_no_line_feed.
    + rewrite Hupd. apply FrameFacts.processText_no_line_feed.
    + match goal with |- context [render _ _ _ ?x] =>
        destruct (ThreadFacts.render_keeps wrapAnsi indentString debugEnabled x)
          as [-> _] end.
      by case_bool_decide.
  - destruct (renderInterval t); [|done]. unfold updateSpinner.
    match goal with |- context [render _ _ _ ?x] =>
      destruct (ThreadFacts.render_keeps wrapAnsi indentString debugEnabled x)
        as [-> _] end.
    done.
  - done.
Qed.

End QueueFacts.

(** ** Calls in flight *)
Module CallFacts.

Import DynamicTerminalThread DynamicTerminal.

Lemma run_snoc s es e : run s (es ++ [e]) = step (run s es) e.
Proof. unfold run. by rewrite fold_left_app. Qed.

Local Ltac finish :=
  repeat split; try done;
  rewrite ?elem_of_app, ?list_elem_of_singleton in *;
  try tauto; intuition (congruence || discriminate).

(** What holds of a call of [send] after any events: the listener and
    the timer are removed together; while the timer is pending it has
    not run; and the state of the promise tells what has happened. *)
Lemma run_invariant me command uid ms es :
  let s' := run (me, fst (send command uid ms)) es in
  id (snd s') = uid /\ timeout (snd s') = ms
  /\ worker (fst s') = worker me
  /\ listening (snd s') = timerPending (snd s')
  /\ (timerPending (snd s') = true -> TimerExpired ∉ es)
  /\ match outcome (snd s') with
     | None => listening (snd s') = true /\ fst s' = me
     | Some (Resolved (Some r)) =>
         uuid r = uid /\ Incoming r ∈ es /\ listening (snd s') = false
         /\ fst s' = me
     | Some (Resolved None) =>
         TimerExpired ∈ es /\ listening (snd s') = false
         /\ lastError (fst s') = Some "Communication timeout"%string
     | Some (Rejected err) => SendFailed err ∈ es
     end.
Proof.
  induction es as [|e es IH] using rev_ind.
  - cbn. repeat split; try done. intros _ []%elem_of_nil.
  - cbv zeta in *. rewrite run_snoc.
    destruct (run (me, (send command uid ms).1) es) as [me' [i t l p o]].
    cbn [fst snd id timeout listening timerPending outcome] in IH.
    destruct IH as (-> & -> & Hw & -> & Hp & Ho).
    destruct e as [msg| |err]; cbn [step].
    + destruct p; cbn [listening];
        [unfold handler; cbn [uuid id]; case_bool_decide|].
      * unfold settle. cbn. destruct o as [[[r|]|err]|]; cbn; finish.
      * cbn. destruct o as [[[r|]|err]|]; cbn in *; finish.
      * cbn. destruct o as [[[r|]|err]|]; cbn in *; finish.
    + destruct p; cbn [timerPending onTimeout].
      * unfold settle. cbn. destruct o as [[[r|]|err]|]; cbn in *; finish.
      * cbn. destruct o as [[[r|]|err]|]; cbn in *; finish.
    + unfold settle. cbn. destruct o as [[[r|]|err']|]; cbn in *; finish.
Qed.

(** X17. The outcome of a call has a cause among the events: after any
    events, a call of [send] that is resolved with a message has seen
    that message, which carries the identifier of the call, and the last
    error is untouched; one resolved with null has seen its timer run,
    and the last error is Communication timeout; one that is rejected
    has seen the channel fail with that error; one that is pending still
    has its listener, and the caller is as before.  The worker of the
    caller, the identifier and the delay never change, and the listener
    is registered exactly as long as the timer is pending. *)
Theorem outcome_has_a_cause (me : Caller) (command : Command) (uid : string)
    (ms : N) (es : list Event) :
  let s' := run (me, fst (send command uid ms)) es in
  id (snd s') = uid /\ timeout (snd s') = ms
  /\ worker (fst s') = worker me
  /\ listening (snd s') = timerPending (snd s')
  /\ match outcome (snd s') with
     | None => listening (snd s') = true /\ fst s' = me
     | Some (Resolved (Some r)) =>
         uuid r = uid /\ Incoming r ∈ es /\ listening (snd s') = false
         /\ fst s' = me
     | Some (Resolved None) =>
         TimerExpired ∈ es /\ listening (snd s') = false
         /\ lastError (fst s') = Some "Communication timeout"%string
     | Some (Rejected err) => SendFailed err ∈ es
     end.
Proof.
  intros s'.
  destruct (run_invariant me command uid ms es) as (A & B & C & D & _ & E).
  by repeat split.
Qed.

(** X18. No call waits for ever: once the timer of a call has run,
    whatever else happened before and after (messages for this call or
    for others, errors of the channel), the promise is settled, the
    listener is removed and the timer is no longer pending. *)
Theorem timer_settles_every_call (me : Caller) (command : Command)
    (uid : string) (ms : N) (es : list Event) :
  TimerExpired ∈ es ->
  let c' := snd (run (me, fst (send command uid ms)) es) in
  is_Some (outcome c') /\ listening c' = false /\ timerPending c' = false.
Proof.
  intros Hin c'.
  destruct (run_invariant me command uid ms es) as (_ & _ & _ & D & P & O).
  fold c' in D, P, O.
  assert (Hp : timerPending c' = false).
  { destruct (timerPending c'); [|done]. by destruct P. }
  rewrite D. split; [|done].
  destruct (outcome c'); [done|]. destruct O as [O _]. congruence.
Qed.

(** A witness of X18: the channel fails, a message for another call
    arrives, the timer runs, and the answer comes late. *)
Lemma timer_settles_every_call_witness :
  let es := [SendFailed "closed"; Incoming (mkResponse "updated" None "b");
             TimerExpired; Incoming (mkResponse "started" None "a")] in
  let c' := snd (run (mkCaller None true,
                      fst (send (START None) "a" defaultTimeout)) es) in
  is_Some (outcome c') /\ listening c' = false /\ timerPending c' = false.
Proof.
  intros es.
  apply (timer_settles_every_call (mkCaller None true) (START None) "a"
           defaultTimeout es).
  unfold es. repeat constructor.
Defined.

End CallFacts.

(** ** The methods of the caller against the worker *)
Module CallerFacts.

Import DynamicTerminalThread DynamicTerminal.

Section Facts.

Variable wrapAnsi : jstring -> nat -> jstring.
Variable indentString : jstring -> nat -> jstring.
Variable debugEnabled : bool.

Local Abbreviation render := (render wrapAnsi indentString debugEnabled).
Local Abbreviation onMessage := (onMessage wrapAnsi indentString debugEnabled).



(** X20. Without a worker every method fails at once: after [destroy],
    which hands the thread its last message and forgets the worker, the
    methods return false (or the empty list) without reaching the
    thread and set the last error; a second [destroy] returns false; and
    [startWorker] with a fork that connects gives a worker again. *)
Theorem destroyed_caller_fails (me : Caller) (t : Thread)
    (o : option IOptions) (commit force : option bool) (c : Content)
    (uid : string) :
  worker me = true ->
  let gone := mkCaller (Some noWorker) false in
  let t1 := stop wrapAnsi indentString debugEnabled t true in
  let me1 := Methods.forget me in
  Methods.destroy wrapAnsi indentString debugEnabled me t = (t1, me1, true)
  /\ Methods.start wrapAnsi indentString debugEnabled me1 t1 o uid
     = (t1, gone, Some false)
  /\ Methods.stop wrapAnsi indentString debugEnabled me1 t1 commit uid
     = (t1, gone, Some false)
  /\ Methods.update wrapAnsi indentString debugEnabled me1 t1 c uid
     = (t1, gone, Some false)
  /\ Methods.append wrapAnsi indentString debugEnabled me1 t1 c uid
     = (t1, gone, Some false)
  /\ Methods.forceRender wrapAnsi indentString debugEnabled me1 t1 force uid
     = (t1, gone, Some false)
  /\ getRenderQueue wrapAnsi indentString debugEnabled me1 t1 uid
     = (t1, gone, Some (Some []))
  /\ Methods.destroy wrapAnsi indentString debugEnabled me1 t1 = (t1, me1, false)
  /\ Methods.startWorker me1 false = None
  /\ Methods.startWorker me1 true = Some (mkCaller (lastError me) true).
Proof.
  intros Hw gone t1 me1.
  split; [unfold Methods.destroy; by rewrite Hw|].
  by repeat split.
Qed.

End Facts.


(** A witness of X20. *)
Lemma destroyed_caller_fails_witness :
  let plain (s : jstring) (_ : nat) := s in
  let t := created (str "-") (mkSize 80 30) in
  Methods.update plain plain false (Methods.forget (mkCaller None true))
                 (stop plain plain false t true) (CString (str "a")) "1"
  = (stop plain plain false t true, mkCaller (Some noWorker) false, Some false).
Proof.
  intros plain t.
  destruct (destroyed_caller_fails plain plain false (mkCaller None true) t
              None None None (CString (str "a")) "1" eq_refl)
    as (_ & _ & _ & H & _).
  exact H.
Defined.

End CallerFacts.

(** ** The positions of the codes, and where changes start *)
Module PositionFacts.

Import ChangeAlgorithm Invariants IndexFacts.

Lemma arrayIndexOfFrom_absent x l : forall i,
  Js.arrayIndexOfFrom x l i = (-1)%Z <-> x ∉ l.
Proof.
  induction l as [|y l IH]; intros i; cbn [Js.arrayIndexOfFrom].
  - split; [intros _; apply not_elem_of_nil | done].
  - case_bool_decide as Hy.
    + subst y. split; [lia|]. intros Hn. exfalso. apply Hn. by left.
    + rewrite IH, not_elem_of_cons. intuition congruence.
Qed.

Lemma recordCode_indexed (st : CodeIndex) (X code rest : jstring) :
  stripped st = X ++ code ++ rest ->
  Indexed st (length X) -> Indexed (recordCode st code) (length X).
Proof.
  intros Hs (Hnd & Hkeys & Hpos).
  pose proof (indexOfFrom_bound code rest X 0) as Hb.
  rewrite <- Hs in Hb. fold (Js.indexOf (stripped st) code) in Hb.
  destruct (StyledIndexFacts.recordCode_map st code) as (v & Hmap & _).
  cbv zeta in Hmap. unfold Indexed. rewrite Hmap.
  unfold recordCode. cbn [codeArray].
  set (p := Js.indexOf (stripped st) code) in *.
  unfold Js.arrayIndexOf. case_bool_decide as Hin.
  - apply arrayIndexOfFrom_absent in Hin. split; [|split].
    + apply NoDup_app. split; [done|]. split; [|apply NoDup_singleton].
      intros q Hq ->%list_elem_of_singleton. done.
    + intros q. rewrite elem_of_app, list_elem_of_singleton,
        lookup_insert_is_Some, <- Hkeys.
      destruct (decide (p = q)); intuition congruence.
    + intros q [Hq| ->%list_elem_of_singleton]%elem_of_app; [by apply Hpos|].
      lia.
  - assert (Hp : p ∈ codeArray st).
    { destruct (decide (p ∈ codeArray st)) as [|Hn]; [done|].
      by apply (arrayIndexOfFrom_absent p _ 0) in Hn. }
    split; [done|]. split; [|done].
    intros q. rewrite lookup_insert_is_Some, <- Hkeys.
    destruct (decide (p = q)); [subst q|]; intuition congruence.
Qed.

Lemma fold_indexed ts : forall st X,
  stripped st = X ++ flatten ts ->
  Indexed st (length X) ->
  Indexed (fold_left recordCode (omap Ansi.codeOf ts) st)
          (length X + length (omap Ansi.charOf ts)).
Proof.
  induction ts as [|[code|c] ts IH]; intros st X Hs Hi.
  - cbn. by rewrite Nat.add_0_r.
  - cbn -[recordCode flatten].
    change (flatten (Ansi.Code code :: ts)) with (code ++ flatten ts) in Hs.
    destruct (recordCode_stripped st X code (flatten ts) Hs) as (X' & HX' & Hl).
    rewrite <- Hl. apply IH; [done|]. rewrite Hl.
    by apply (recordCode_indexed st X code (flatten ts)).
  - cbn -[recordCode flatten].
    change (flatten (Ansi.Chr c :: ts)) with ([c] ++ flatten ts) in Hs.
    rewrite app_assoc in Hs.
    replace (length X + S (length (omap Ansi.charOf ts)))%nat
      with (length (X ++ [c]) + length (omap Ansi.charOf ts))%nat
      by (rewrite length_app; cbn; lia).
    apply IH; [done|]. destruct Hi as (A & B & C).
    split; [done|]. split; [done|]. intros q Hq.
    specialize (C q Hq). rewrite length_app. cbn. lia.
Qed.

(** X21. The positions recorded while a string is stripped of its
    codes, for every string: the array of positions holds no position
    twice, its positions are exactly the keys of the map of codes, and
    every position lies between 0 and the length of the stripped string;
    so no code is ever looked for in vain. *)
Theorem indexCodes_positions (s : jstring) :
  NoDup (codeArray (indexCodes s))
  /\ (forall p, p ∈ codeArray (indexCodes s)
                <-> is_Some (codeMap (indexCodes s) !! p))
  /\ (forall p, p ∈ codeArray (indexCodes s)
                -> (0 <= p <= Js.len (stripped (indexCodes s)))%Z).
Proof.
  pose proof (fold_indexed (Ansi.tokens s)
                {| stripped := s; codeArray := []; codeMap := ∅ |} []) as H.
  cbn [stripped length app Nat.add] in H.
  unfold Js.len. rewrite stripped_length.
  apply H; [by rewrite flatten_tokens|].
  unfold Indexed. cbn [codeArray codeMap].
  split; [apply NoDup_nil_2|]. split.
  - intros p. rewrite lookup_empty. split; [by intros ?%elem_of_nil|].
    by intros [? ?].
  - by intros p ?%elem_of_nil.
Qed.

Lemma scan_quiet org tgt ln (l : list nat) : forall changes,
  forallb (fun i => negb (divergent org tgt i)) l = true ->
  fold_left (scanStep org tgt ln) l (changes, None) = (changes, None).
Proof.
  induction l as [|i l IH]; intros changes H; [done|].
  cbn in H. apply andb_prop in H as [Hi Hl].
  cbn [fold_left scanStep]. apply negb_true_iff in Hi. rewrite Hi.
  by apply IH.
Qed.

(** X22. Rows that agree column by column need no change: when the
    strings are not empty and, at every column of the stripped target,
    the character and the codes before it are those of the original, the
    only change is the erasure of what the original has beyond the
    target; codes that differ after the last character are not
    written. *)
Theorem same_columns_no_change (original target : jstring) (ln : nat) :
  original <> [] -> target <> [] ->
  sameColumns (indexCodes original) (indexCodes target) = true ->
  getChanges original target ln
  = if (length (stripped (indexCodes target))
        <? length (stripped (indexCodes original)))%nat
    then [{| line := ln; index := length (stripped (indexCodes target));
             text := ERASE_LINE_END |}]
    else [].
Proof.
  intros Ho Ht Hsame. unfold getChanges.
  case_bool_decide as Heq.
  - subst target. by rewrite Nat.ltb_irrefl.
  - destruct original as [|a original]; [done|].
    destruct target as [|b target]; [done|].
    cbn [Js.isEmpty]. cbv zeta.
    rewrite scan_quiet by exact Hsame.
    cbn [closeAtEnd]. unfold eraseIfShorter.
    by destruct (_ <? _)%nat.
Qed.

(** A witness of X22: a colour is switched on after the last
    character. *)
Lemma same_columns_no_change_witness :
  getChanges (str "abc") (str "abc" ++ Ansi.ESC :: str "[31m") 0 = [].
Proof.
  apply (same_columns_no_change (str "abc")
           (str "abc" ++ Ansi.ESC :: str "[31m") 0);
    [discriminate | discriminate | vm_compute; reflexivity].
Defined.

(** Every change, and the open one, starts at a column that needs a
    change. *)
Lemma scan_starts org tgt ln (l : list nat) : forall st,
  Forall (fun c => divergent org tgt (index c) = true) (fst st) ->
  from_option (fun c => divergent org tgt (index c) = true) True (snd st) ->
  let st' := fold_left (scanStep org tgt ln) l st in
  Forall (fun c => divergent org tgt (index c) = true) (fst st')
  /\ from_option (fun c => divergent org tgt (index c) = true) True (snd st').
Proof.
  induction l as [|i l IH]; intros [changes buffer] Hc Hb; [done|].
  cbn [fold_left]. apply IH; clear IH; cbn [fst snd] in *;
    unfold scanStep; destruct (divergent org tgt i) eqn:Hd;
    destruct buffer as [c|]; cbn [fst snd from_option] in *; try done;
    try (destruct (nextDiffers org tgt i)); cbn [fst snd from_option];
    try done;
    try (by rewrite (proj2 (ScanFacts.extend_fields tgt c i))).
  unfold pushIfUseful. case_match; [|done].
  apply Forall_app. split; [done|]. by constructor.
Qed.

(** X23. Changes start only where the rows differ: for strings that
    are not empty, every change of [getChanges] starts at a column where
    the character of the stripped target, or the codes before it, differ
    from the original's; this holds for the erasure after a shorter
    target as well. *)
Theorem changes_start_where_rows_differ (original target : jstring) (ln : nat) :
  original <> [] -> target <> [] ->
  Forall (fun c => divergent (indexCodes original) (indexCodes target) (index c)
                   = true)
         (getChanges original target ln).
Proof.
  intros Ho Ht. unfold getChanges.
  case_bool_decide as Heq; [constructor|].
  destruct original as [|a original]; [done|].
  destruct target as [|b target]; [done|].
  cbn [Js.isEmpty]. cbv zeta.
  set (org := indexCodes (a :: original)).
  set (tgt := indexCodes (b :: target)).
  destruct (scan_starts org tgt ln (seq 0 (length (stripped tgt))) ([], None))
    as [Hc Hb]; [constructor | done |].
  destruct (fold_left _ _ _) as [changes buffer]. cbn [fst snd] in Hc, Hb.
  assert (Hclose : Forall (fun c => divergent org tgt (index c) = true)
                          (closeAtEnd tgt (changes, buffer))).
  { cbn [closeAtEnd]. destruct buffer as [c|]; [|done].
    cbn [from_option] in Hb.
    cbv zeta.
    match goal with |- context [pushIfUseful changes ?x] =>
      assert (Hx : divergent org tgt (index x) = true)
        by (destruct (bool_decide _); exact Hb);
      unfold pushIfUseful; destruct (useful x); [|done] end.
    apply Forall_app. split; [done|]. by constructor. }
  unfold eraseIfShorter.
  destruct (Nat.ltb_spec (length (stripped tgt)) (length (stripped org)))
    as [Hlt|_]; [|done].
  match goal with |- context [appendToLast ?cs ?s ?f] =>
    destruct (ScanFacts.appendToLast_spec cs s f)
      as [[_ ->]|(before & c & E & ->)] end.
  - constructor; [|constructor]. cbn [index]. unfold divergent.
    apply orb_true_iff. left. apply bool_decide_eq_true.
    rewrite (lookup_ge_None_2 (stripped tgt)) by lia.
    destruct (lookup_lt_is_Some_2 (stripped org) _ Hlt) as [x ->]. done.
  - rewrite E in Hclose. apply Forall_app in Hclose as [H1 H2].
    apply Forall_app. split; [done|].
    inversion H2; subst. by constructor.
Qed.

(** A witness of X23. *)
Lemma changes_start_where_rows_differ_witness :
  Forall (fun c => divergent (indexCodes (str "abcdef"))
                             (indexCodes (str "abXd")) (index c) = true)
         (getChanges (str "abcdef") (str "abXd") 0).
Proof.
  apply (changes_start_where_rows_differ (str "abcdef") (str "abXd") 0);
    discriminate.
Defined.

End PositionFacts.

(** ** The debug channel *)
Module DebugFacts.

Import DynamicTerminalThread EventLoop Frames.

Section Facts.

Variable wrapAnsi : jstring -> nat -> jstring.
Variable indentString : jstring -> nat -> jstring.
Variable spinnerFrames : nat -> jstring.

Local Abbreviation moveCursorTo := (moveCursorTo true).
Local Abbreviation applyChange := (applyChange true).
Local Abbreviation render := (render wrapAnsi indentString true).
Local Abbreviation stopTimer := (stopTimer wrapAnsi indentString true).
Local Abbreviation start := (start true).
Local Abbreviation stop := (stop wrapAnsi indentString true).
Local Abbreviation update := (update wrapAnsi indentString true).
Local Abbreviation react := (react wrapAnsi indentString spinnerFrames true).
Local Abbreviation reactAll :=
  (reactAll wrapAnsi indentString spinnerFrames true).

Lemma Erases_refl t : Erases t t.
Proof. exists 0%nat. cbn. by rewrite app_nil_r. Qed.

Lemma Erases_trans t1 t2 t3 : Erases t1 t2 -> Erases t2 t3 -> Erases t1 t3.
Proof.
  intros [k1 H1] [k2 H2]. exists (k1 + k2)%nat.
  by rewrite H2, H1, replicate_add, app_assoc.
Qed.

Lemma Erases_same t t' : stdout t' = stdout t -> Erases t t'.
Proof. intros H. exists 0%nat. cbn. by rewrite app_nil_r. Qed.

Lemma moveCursorTo_debug t l i : stdout (moveCursorTo t l i) = stdout t.
Proof.
  unfold DynamicTerminalThread.moveCursorTo, DynamicTerminalThread.write.
  repeat case_match; done.
Qed.

Lemma applyChange_debug t c : stdout (applyChange t c) = stdout t.
Proof.
  unfold DynamicTerminalThread.applyChange, DynamicTerminalThread.write.
  cbv zeta. cbn [stdout setCursor]. apply moveCursorTo_debug.
Qed.

Lemma applyChanges_debug cs : forall t,
  stdout (fold_left applyChange cs t) = stdout t.
Proof.
  induction cs as [|c cs IH]; intros t; [done|].
  cbn [fold_left]. by rewrite IH, applyChange_debug.
Qed.

Lemma render_debug t : Erases t (render t).
Proof.
  unfold DynamicTerminalThread.render.
  destruct (active t); cbn [negb]; cbv zeta; [|apply Erases_refl].
  eapply Erases_trans; [|by apply (Erases_same _ (setPreviousRender _ _))].
  eapply Erases_trans; [|apply Erases_same, moveCursorTo_debug].
  eapply Erases_trans; [|apply Erases_same, applyChanges_debug].
  eapply Erases_trans; [|by apply (Erases_same _ (setPreviousSpinner _ _))].
  case_match; [|by apply Erases_same].
  eapply Erases_trans; [|by apply (Erases_same _ (setPreviousSize _ _))].
  eapply Erases_trans; [|by exists 1%nat].
  eapply Erases_trans; [|apply Erases_same, moveCursorTo_debug].
  by apply Erases_same.
Qed.

Lemma startTimer_stdout t : stdout (startTimer t) = stdout t.
Proof. unfold startTimer. repeat case_match; done. Qed.

Lemma update_debug t c : Erases t (update t c).
Proof.
  unfold DynamicTerminalThread.update.
  eapply Erases_trans; [|apply render_debug].
  apply Erases_same. by rewrite startTimer_stdout.
Qed.

Lemma start_debug t o : stdout (start t o) = stdout t.
Proof.
  unfold DynamicTerminalThread.start, DynamicTerminalThread.startCall,
    setRawMode, DynamicTerminalThread.write.
  destruct (active t); [done|]. cbv zeta.
  change (stdinRaw (setWasRaw (setActive t true) (Some (stdinRaw t))))
    with (stdinRaw t).
  destruct (default false (disableInput o)), (stdinRaw t);
    cbn [fst]; try reflexivity;
    rewrite startTimer_stdout;
    destruct (default true (hideCursor o)),
      (spinnerColour o), (default 100%nat (opt_updateFrequency o)),
      (default false (opt_repaintOnResize o)); reflexivity.
Qed.

Lemma stop_debug t c : Erases t (stop t c).
Proof.
  unfold DynamicTerminalThread.stop, DynamicTerminalThread.stopCall,
    DynamicTerminalThread.write.
  destruct (active t); [|apply Erases_refl]. cbv zeta.
  set (t1 := stopTimer (setActive t false)).
  assert (H1 : Erases t t1).
  { unfold t1, DynamicTerminalThread.stopTimer.
    change (renderInterval (setActive t false)) with (renderInterval t).
    destruct (renderInterval t); [|by apply Erases_same].
    eapply Erases_trans; [|apply render_debug]. by apply Erases_same. }
  match goal with |- context [match wasRaw ?x with _ => _ end] =>
    set (t2 := x) end.
  assert (H2 : Erases t t2).
  { eapply Erases_trans; [exact H1|]. unfold t2. destruct c.
    - eapply Erases_trans; [apply render_debug|].
      apply Erases_same, moveCursorTo_debug.
    - unfold stdoutWrite. eapply Erases_trans; [|by exists 1%nat].
      apply Erases_same. by rewrite moveCursorTo_debug. }
  clearbody t2. eapply Erases_trans; [exact H2|].
  apply Erases_same. unfold setRawMode.
  destruct (wasRaw t2); [destruct (stdinRaw t2)|]; cbn [fst];
    try reflexivity;
    match goal with |- context [if ?b then _ else _] =>
      destruct b end; reflexivity.
Qed.

Lemma react_debug t s : Erases t (react t s).
Proof.
  destruct s as [[c u]| |size]; cbn [EventLoop.react].
  - unfold DynamicTerminalThread.onMessage. cbn [cmd].
    destruct c; cbn [fst]; try apply Erases_refl.
    + apply Erases_same, start_debug.
    + apply stop_debug.
    + apply stop_debug.
    + apply update_debug.
    + apply update_debug.
    + eapply Erases_trans; [|apply render_debug].
      case_bool_decide; [by apply Erases_same | apply Erases_refl].
  - destruct (renderInterval t); [|apply Erases_refl].
    unfold DynamicTerminalThread.updateSpinner.
    eapply Erases_trans; [|apply render_debug]. by apply Erases_same.
  - by apply Erases_same.
Qed.

(** X24. With the debug channel enabled the thread writes erasures of
    the screen and nothing else: whatever messages, ticks and resizes
    arrive, in whatever state, what is added to the output is a number
    of erasures of the screen below the cursor (the two writes that do
    not go through [write]: the one of a repaint after a resize, and the
    one of a stop that does not commit). *)
Theorem debug_writes_erasures_only (t : Thread) (ss : list Stimulus) :
  exists k, stdout (reactAll t ss) = stdout t ++ replicate k Ansi.eraseDown.
Proof.
  change (Erases t (reactAll t ss)).
  revert t. induction ss as [|s ss IH]; intros t; [apply Erases_refl|].
  eapply Erases_trans; [apply (react_debug t s)|]. apply IH.
Qed.

End Facts.

End DebugFacts.

(** ** A row that grows at its end *)
Module GrowthFacts.

Import ChangeAlgorithm Row Invariants IndexFacts.

Lemma flatten_chars (s : jstring) : flatten (map Ansi.Chr s) = s.
Proof.
  induction s as [|c s IH]; [done|]. cbn. unfold flatten in IH. cbn in IH.
  by rewrite IH.
Qed.

Lemma tokens_plain (s : jstring) :
  Forall (fun c => plain c = true) s -> Ansi.tokens s = map Ansi.Chr s.
Proof.
  intros H. rewrite <- (flatten_chars s) at 1.
  apply StyledFacts.tokens_flatten. apply Forall_map. exact H.
Qed.

Lemma indexCodes_plain (s : jstring) :
  Forall (fun c => plain c = true) s ->
  indexCodes s = {| stripped := s; codeArray := []; codeMap := ∅ |}.
Proof.
  intros H. unfold indexCodes, Ansi.ansiCodes. rewrite (tokens_plain s H).
  replace (omap Ansi.codeOf (map Ansi.Chr s)) with (@nil jstring); [done|].
  clear H. induction s as [|c s IH]; [done|]. exact IH.
Qed.

Lemma stripAnsi_reset (s : jstring) :
  Forall (fun c => plain c = true) s ->
  Ansi.stripAnsi (RESET_STYLE ++ s) = s.
Proof.
  intros H. unfold Ansi.stripAnsi.
  rewrite <- (flatten_chars s) at 1.
  change (RESET_STYLE ++ flatten (map Ansi.Chr s))
    with (flatten (Ansi.Code RESET_STYLE :: map Ansi.Chr s)).
  rewrite StyledFacts.tokens_flatten.
  - cbn. clear H. induction s as [|c s IH]; [done|]. cbn. by rewrite IH.
  - constructor; [by vm_compute|]. apply Forall_map. exact H.
Qed.

Lemma grow_prefix_quiet (A B : jstring) :
  forallb (fun i => negb (divergent
                            {| stripped := A; codeArray := []; codeMap := ∅ |}
                            {| stripped := A ++ B; codeArray := []; codeMap := ∅ |}
                            i))
          (seq 0 (length A)) = true.
Proof.
  apply forallb_forall. intros i Hi%in_seq. apply negb_true_iff.
  unfold divergent. cbn [stripped codeMap].
  rewrite lookup_app_l by lia.
  rewrite !bool_decide_eq_false_2; [done| |]; intros Hn; by apply Hn.
Qed.

Lemma grow_suffix (A B : jstring) (ln : nat) B2 : forall B1 c,
  B = B1 ++ B2 ->
  fold_left (scanStep {| stripped := A; codeArray := []; codeMap := ∅ |}
                      {| stripped := A ++ B; codeArray := []; codeMap := ∅ |} ln)
            (seq (length A + length B1) (length B2))
            ([], Some {| line := ln; index := length A; text := c ++ B1 |})
  = ([], Some {| line := ln; index := length A; text := c ++ B |}).
Proof.
  induction B2 as [|b B2 IH]; intros B1 c E.
  - rewrite app_nil_r in E. by subst.
  - cbn [length seq fold_left].
    assert (Hb : (A ++ B) !! (length A + length B1)%nat = Some b).
    { rewrite E, lookup_app_r by lia.
      replace (length A + length B1 - length A)%nat with (length B1 + 0)%nat
        by lia.
      by rewrite lookup_app_r, Nat.add_0_r, Nat.sub_diag by lia. }
    assert (Hd : divergent {| stripped := A; codeArray := []; codeMap := ∅ |}
                   {| stripped := A ++ B; codeArray := []; codeMap := ∅ |}
                   (length A + length B1) = true).
    { unfold divergent. cbn [stripped codeMap]. rewrite Hb.
      rewrite (lookup_ge_None_2 A) by lia. done. }
    unfold scanStep at 2. rewrite Hd.
    unfold extend, Js.charStr. cbn [stripped codeArray]. rewrite Hb.
    cbn [Js.arrayIndexOf Js.arrayIndexOfFrom].
    rewrite bool_decide_eq_false_2 by (intros Hn; by apply Hn).
    unfold addText. cbn [line index text].
    rewrite <- app_assoc.
    replace (S (length A + length B1)) with (length A + length (B1 ++ [b]))%nat
      by (rewrite length_app; cbn; lia).
    apply IH. by rewrite <- app_assoc.
Qed.

(** X25. Text that grows is written from its old end on: when a row of
    visible characters (no escape sequences) gets more such characters
    at its end, the only change starts at the column where the old row
    ends, and its text is the reset of the style followed by the new
    characters; when the new characters are all white space there is no
    change at all. *)
Theorem grown_text_is_appended (A B : jstring) (ln : nat) :
  Forall (fun c => plain c = true) A ->
  Forall (fun c => plain c = true) B ->
  A <> [] -> B <> [] ->
  getChanges A (A ++ B) ln
  = if Js.isEmpty (Js.trim B) then []
    else [{| line := ln; index := length A; text := RESET_STYLE ++ B |}].
Proof.
  intros HA HB HnA HnB. unfold getChanges.
  rewrite bool_decide_eq_false_2.
  2:{ intros E. apply (f_equal length) in E. rewrite length_app in E.
      destruct B; [done|]. cbn in E. lia. }
  destruct A as [|a A']; [done|]. cbn [Js.isEmpty app]. cbv zeta.
  change (a :: A' ++ B) with ((a :: A') ++ B).
  set (A := a :: A') in *.
  rewrite (indexCodes_plain A HA).
  rewrite (indexCodes_plain (A ++ B)) by (by apply Forall_app).
  cbn [stripped]. rewrite length_app, seq_app, fold_left_app.
  rewrite PositionFacts.scan_quiet by apply grow_prefix_quiet.
  destruct B as [|b B']; [done|].
  cbn [length seq fold_left Nat.add].
  assert (Hb : (A ++ b :: B') !! length A = Some b).
  { by rewrite lookup_app_r, Nat.sub_diag by lia. }
  assert (Hd : divergent {| stripped := A; codeArray := []; codeMap := ∅ |}
                 {| stripped := A ++ b :: B'; codeArray := []; codeMap := ∅ |}
                 (length A) = true).
  { unfold divergent. cbn [stripped codeMap]. rewrite Hb.
    rewrite (lookup_ge_None_2 A) by lia. done. }
  unfold scanStep at 2. rewrite Hd.
  unfold openChange, Js.charStr. cbn [stripped codeArray codeMap codeToPrepend Js.truthy].
  rewrite Hb.
  pose proof (grow_suffix A (b :: B') ln B' [b] RESET_STYLE eq_refl) as Hs.
  cbn [length] in Hs. replace (length A + 1)%nat with (S (length A)) in Hs by lia.
  rewrite Hs. clear Hs.
  cbn [closeAtEnd codeArray Js.arrayIndexOf Js.arrayIndexOfFrom].
  rewrite bool_decide_eq_false_2 by (intros Hn; by apply Hn).
  unfold pushIfUseful, useful. cbn [text].
  rewrite (stripAnsi_reset (b :: B') HB).
  unfold eraseIfShorter. cbn [stripped].
  replace (length (A ++ b :: B') <? length A)%nat with false
    by (symmetry; apply Nat.ltb_ge; rewrite length_app; lia).
  by destruct (Js.isEmpty (Js.trim (b :: B'))).
Qed.

(** A witness of X25. *)
Lemma grown_text_is_appended_witness :
  getChanges (str "Loading") (str "Loading" ++ str " done") 3
  = [{| line := 3; index := 7; text := RESET_STYLE ++ str " done" |}].
Proof.
  apply (grown_text_is_appended (str "Loading") (str " done") 3);
    [repeat constructor | repeat constructor | discriminate | discriminate].
Defined.

End GrowthFacts.
